(** * YFS: a shallow embedding of the index-block storage engine

    The development follows the second engine of [lib/yfs.go] (the one built
    on index blocks and a block bitmap).  Go values are rendered as follows:

    - [uint32]/[uint64]/[int64] values are integers in [Z]; every conversion
      or operation that can wrap is written with [u32], [u64] or [i64];
    - a [[]byte] is a [list Z], the three host files are byte lists held in
      the engine state;
    - Go maps are [gmap string _]; pointers into the directory tree are the
      access paths (lists of directory names) that reach them from the root;
    - a method with an [error] result returns a [res] next to the new state;
      a loop whose termination depends on the stored data takes fuel, and
      running out of fuel is the outcome [Abort Diverges];
    - [proto.Marshal]/[proto.Unmarshal] and [crc32.ChecksumIEEE] belong to
      libraries outside the repository and are parameters of the model. *)

From Stdlib Require Import ZArith Lia Ascii String.
From stdpp Require Import gmap strings list fin_maps.

#[local] Open Scope Z_scope.
#[local] Set Warnings "-register-all".

(** ** Machine integers *)

Definition u32 (x : Z) : Z := x mod 2 ^ 32.
Definition u64 (x : Z) : Z := x mod 2 ^ 64.
Definition i64 (x : Z) : Z := (x + 2 ^ 63) mod 2 ^ 64 - 2 ^ 63.

(** ** Constants of the engine *)

Definition DefaultBlockSize : Z := 4096.
Definition HeaderSize : Z := 4.
Definition NullBlockID : Z := 0.
Definition MaxBlocksPerIndex : Z := 1000.

(** ** Results *)

Inductive error :=
| ErrInvalidBlockID        (* "invalid block ID" *)
| ErrEOF                   (* io.EOF from a read at or past the end *)
| ErrDataExceedsBlock      (* "data exceeds block size limit" *)
| ErrInvalidDataLength     (* "invalid data length" *)
| ErrUnmarshal             (* "failed to unmarshal index block" *)
| ErrIndexChecksum         (* "index block checksum mismatch" *)
| ErrNoFreeBlocks          (* "no free blocks available" *)
| ErrCouldNotAllocate      (* "could not allocate %d blocks" *)
| ErrDirectoryNotFound     (* "directory not found" *)
| ErrPathIsDirectory       (* "path is a directory" *)
| ErrFileNotFound          (* "file not found" *)
| ErrMetadataChecksum      (* "metadata checksum verification failed" *)
| ErrDirectoryExists       (* "directory already exists" *)
| ErrNotADirectory         (* "path is not a directory" *)
| ErrDirectoryNotEmpty     (* "directory not empty" *)
| ErrDeleteRoot            (* "cannot delete root directory" *)
| ErrCircularReference     (* "circular reference detected in index blocks" *)
| ErrInvalidDataBlock      (* "invalid data block ID" *)
| ErrInvalidExtent.        (* "invalid extent in index block" *)

Inductive abort := Panics | Diverges.

Inductive res (A : Type) :=
| Ok (a : A)
| Err (e : error)
| Abort (r : abort).
Arguments Ok {A} a.
Arguments Err {A} e.
Arguments Abort {A} r.

#[global] Instance error_eq_dec : EqDecision error.
Proof. solve_decision. Defined.

(** ** Block device *)

(** [binary.LittleEndian.PutUint32] and [binary.LittleEndian.Uint32]. *)
Definition putUint32 (n : Z) : list Z :=
  [n mod 256; (n / 256) mod 256; (n / 65536) mod 256; (n / 16777216) mod 256].

Definition getUint32 (b : list Z) : Z :=
  match b with
  | b0 :: b1 :: b2 :: b3 :: _ => b0 + 256 * b1 + 65536 * b2 + 16777216 * b3
  | _ => 0
  end.

Definition zeros (n : Z) : list Z := replicate (Z.to_nat n) 0.

Definition calculateBlockOffset (blockSize blockID : Z) : Z :=
  if blockID =? NullBlockID then -1
  else i64 (HeaderSize + i64 (blockSize * u32 (blockID - 1))).

(** [file.Seek(off); file.Write(buf)] on a regular file: a write past the end
    leaves a zero-filled gap. *)
Definition write_at (file : list Z) (off : Z) (buf : list Z) : list Z :=
  let o := Z.to_nat off in
  take o file ++ replicate (o - length file)%nat 0 ++ buf
       ++ drop (o + length buf)%nat file.

(** [file.Seek(off); file.Read(buf)] with [len(buf) = n]: the bytes that are
    there, at most [n] of them. *)
Definition read_at (file : list Z) (off n : Z) : list Z :=
  take (Z.to_nat n) (drop (Z.to_nat off) file).

Definition writeBlock (blockSize : Z) (file : list Z) (blockID : Z) (data : list Z)
  : res (list Z) :=
  let offset := calculateBlockOffset blockSize blockID in
  if offset <? 0 then Err ErrInvalidBlockID
  else if blockSize - 4 <? Z.of_nat (length data) then Err ErrDataExceedsBlock
  else
    let blockData :=
      putUint32 (u32 (Z.of_nat (length data))) ++ data
        ++ zeros (blockSize - 4 - Z.of_nat (length data)) in
    Ok (write_at file offset blockData).

Definition readBlock (blockSize : Z) (file : list Z) (blockID : Z) : res (list Z) :=
  let offset := calculateBlockOffset blockSize blockID in
  if offset <? 0 then Err ErrInvalidBlockID
  else
    let got := read_at file offset blockSize in
    if (0 <? blockSize) && (Z.of_nat (length got) =? 0) then Err ErrEOF
    else
      let blockData := got ++ zeros (blockSize - Z.of_nat (length got)) in
      if blockSize <? 4 then Abort Panics
      else
        let dataLength := u32 (getUint32 blockData) in
        if u32 (blockSize - 4) <? dataLength then Err ErrInvalidDataLength
        else Ok (take (Z.to_nat dataLength) (drop 4 blockData)).

(** ** Bitmap allocator *)

Record BlockBitmap := {
  data : list Z;
  totalBlocks : Z;
  searchPos : Z;
  dirty : bool }.

Definition isBlockFree (bm : BlockBitmap) (blockPos : Z) : bool :=
  let byteIndex := blockPos / 8 in
  let bitIndex := blockPos mod 8 in
  match data bm !! Z.to_nat byteIndex with
  | None => false
  | Some b => Z.land b (Z.shiftl 1 bitIndex) =? 0
  end.

(** The growth loop of [markBlockUsed]; each round appends 1024 bytes, so
    [byteIndex + 1] rounds are more than it can ever use. *)
Fixpoint expandBitmap (rounds : nat) (bm : BlockBitmap) (byteIndex : Z) : BlockBitmap :=
  match rounds with
  | O => bm
  | S rounds' =>
      if Z.of_nat (length (data bm)) <=? byteIndex then
        expandBitmap rounds'
          {| data := data bm ++ zeros 1024;
             totalBlocks := u64 (totalBlocks bm + 8192);
             searchPos := searchPos bm;
             dirty := dirty bm |} byteIndex
      else bm
  end.

Definition markBlockUsed (bm : BlockBitmap) (blockPos : Z) : BlockBitmap :=
  let byteIndex := blockPos / 8 in
  let bitIndex := blockPos mod 8 in
  let bm1 := expandBitmap (Z.to_nat (byteIndex + 1)) bm byteIndex in
  {| data := alter (fun b => Z.lor b (Z.shiftl 1 bitIndex)) (Z.to_nat byteIndex) (data bm1);
     totalBlocks := totalBlocks bm1;
     searchPos := searchPos bm1;
     dirty := dirty bm1 |}.

Definition markBlockFree (bm : BlockBitmap) (blockPos : Z) : BlockBitmap :=
  let byteIndex := blockPos / 8 in
  let bitIndex := blockPos mod 8 in
  if byteIndex <? Z.of_nat (length (data bm)) then
    {| data := alter (fun b => Z.ldiff b (Z.shiftl 1 bitIndex)) (Z.to_nat byteIndex) (data bm);
       totalBlocks := totalBlocks bm;
       searchPos := searchPos bm;
       dirty := true |}
  else bm.

Definition setSearchPos (bm : BlockBitmap) (p : Z) : BlockBitmap :=
  {| data := data bm; totalBlocks := totalBlocks bm; searchPos := p; dirty := dirty bm |}.

Definition setDirty (bm : BlockBitmap) (d : bool) : BlockBitmap :=
  {| data := data bm; totalBlocks := totalBlocks bm; searchPos := searchPos bm; dirty := d |}.

(** The inner test of [allocateBlocks]: [count] blocks from [pos] are inside
    the capacity and free. *)
Definition canAllocate (bm : BlockBitmap) (pos count : Z) : bool :=
  forallb (fun j => negb (totalBlocks bm <=? u64 (pos + j)) && isBlockFree bm (u64 (pos + j)))
          (seqZ 0 count).

(** The marking loop of [allocateBlocks]. *)
Definition markRun (bm : BlockBitmap) (pos count : Z) : BlockBitmap * list Z :=
  fold_left
    (fun acc j =>
       let blockID := u32 (u64 (pos + j) + 1) in
       (markBlockUsed (fst acc) (u64 (pos + j)), snd acc ++ [blockID]))
    (seqZ 0 count) (bm, []).

(** One round of the outer loop of [allocateBlocksIndividual]: take the first
    free position at or after [searchPos], cyclically. *)
Definition allocateOne (acc : BlockBitmap * list Z) : BlockBitmap * list Z :=
  let bm := fst acc in
  match find (fun i => isBlockFree bm (u64 (searchPos bm + i) mod totalBlocks bm))
             (seqZ 0 (totalBlocks bm)) with
  | Some i =>
      let pos := u64 (searchPos bm + i) mod totalBlocks bm in
      (setSearchPos (markBlockUsed bm pos) (u64 (pos + 1)), snd acc ++ [u32 (pos + 1)])
  | None => acc
  end.

Definition allocateBlocksIndividual (bm : BlockBitmap) (count : Z)
  : res (list Z) * BlockBitmap :=
  let '(bm1, allocated) :=
    fold_left (fun acc _ => allocateOne acc) (seqZ 0 count) (bm, []) in
  if Z.of_nat (length allocated) =? count then (Ok allocated, setDirty bm1 true)
  else
    (Err ErrCouldNotAllocate,
     fold_left (fun b blockID => markBlockFree b (u32 (blockID - 1))) allocated bm1).

Definition allocateBlocks (bm : BlockBitmap) (count : Z) : res (list Z) * BlockBitmap :=
  if count =? 0 then (Ok [], bm)
  else
    let startPos := searchPos bm in
    match find (fun i =>
                  let pos := u64 (startPos + i) mod totalBlocks bm in
                  isBlockFree bm pos && canAllocate bm pos count)
               (seqZ 0 (totalBlocks bm)) with
    | Some i =>
        let pos := u64 (startPos + i) mod totalBlocks bm in
        let '(bm1, allocatedBlocks) := markRun bm pos count in
        (Ok allocatedBlocks, setDirty (setSearchPos bm1 (u64 (pos + count))) true)
    | None =>
        if 1 <? count then allocateBlocksIndividual bm count
        else (Err ErrNoFreeBlocks, bm)
    end.

(** One round of the loop of [freeBlocks]. *)
Definition freeOne (b : BlockBitmap) (blockID : Z) : BlockBitmap :=
  if blockID =? NullBlockID then b else markBlockFree b (u32 (blockID - 1)).

Definition freeBlocks (bm : BlockBitmap) (blockIDs : list Z) : BlockBitmap :=
  setDirty (fold_left freeOne blockIDs bm) true.

(** ** Paths *)

Definition isSlash (c : ascii) : bool := Ascii.eqb c "/"%char.

Fixpoint trimLeft (s : string) : string :=
  match s with
  | EmptyString => EmptyString
  | String c s' => if isSlash c then trimLeft s' else s
  end.

Fixpoint trimRight (s : string) : string :=
  match s with
  | EmptyString => EmptyString
  | String c s' =>
      match trimRight s' with
      | EmptyString => if isSlash c then EmptyString else String c EmptyString
      | t => String c t
      end
  end.

(** [strings.Trim(s, "/")] *)
Definition trim (s : string) : string := trimRight (trimLeft s).

(** [strings.Split(s, "/")] *)
Fixpoint split (s : string) : list string :=
  match s with
  | EmptyString => [EmptyString]
  | String c s' =>
      if isSlash c then EmptyString :: split s'
      else
        match split s' with
        | p :: ps => String c p :: ps
        | [] => [String c EmptyString]
        end
  end.

(** [strings.Join(parts, "/")] *)
Fixpoint join (parts : list string) : string :=
  match parts with
  | [] => EmptyString
  | p :: rest =>
      match rest with
      | [] => p
      | _ :: _ => (p +:+ "/" +:+ join rest)%string
      end
  end.

Definition isEmptyString (s : string) : bool :=
  match s with EmptyString => true | String _ _ => false end.

(** A nil pointer test. *)
Definition isNil {A : Type} (o : option A) : bool :=
  match o with None => true | Some _ => false end.

(** ** Namespace records (yfs.proto) *)

Record FileMetadata := {
  Name : string;
  ModTime : Z;
  CreateTime : Z;
  Permissions : Z;
  Crc32 : Z }.

Record FileEntry := {
  Metadata : FileMetadata;
  FirstIndexBlockId : Z;
  Size : Z;
  IndexBlockCount : Z;
  DataBlockCount : Z }.

Inductive DirectoryEntry := MkDirectoryEntry {
  DirMetadata : FileMetadata;
  Files : gmap string FileEntry;
  Directories : gmap string DirectoryEntry }.

Record Extent := {
  StartBlockId : Z;
  BlockCount : Z }.

Record IndexBlock := {
  BlockIds : list Z;
  Extents : list Extent;
  NextIndexBlockId : Z;
  DataSize : Z;
  IndexCrc32 : Z }.

Record FileSystemHeader := {
  Version : Z;
  HeaderBlockSize : Z;
  Root : DirectoryEntry;
  HeaderTotalBlocks : Z;
  HeaderChecksumEnabled : Z }.

(** The engine state: the fields of the Go struct and the content of
    [blocks.glob]. *)
Record YFS := {
  blockSize : Z;
  header : FileSystemHeader;
  bitmap : BlockBitmap;
  blocksFile : list Z;
  checksumEnabled : bool }.

Definition setRoot (st : YFS) (r : DirectoryEntry) : YFS :=
  {| blockSize := blockSize st;
     header := {| Version := Version (header st);
                  HeaderBlockSize := HeaderBlockSize (header st);
                  Root := r;
                  HeaderTotalBlocks := HeaderTotalBlocks (header st);
                  HeaderChecksumEnabled := HeaderChecksumEnabled (header st) |};
     bitmap := bitmap st;
     blocksFile := blocksFile st;
     checksumEnabled := checksumEnabled st |}.

Definition setBitmap (st : YFS) (bm : BlockBitmap) : YFS :=
  {| blockSize := blockSize st; header := header st; bitmap := bm;
     blocksFile := blocksFile st; checksumEnabled := checksumEnabled st |}.

Definition setBlocksFile (st : YFS) (f : list Z) : YFS :=
  {| blockSize := blockSize st; header := header st; bitmap := bitmap st;
     blocksFile := f; checksumEnabled := checksumEnabled st |}.

Definition root (st : YFS) : DirectoryEntry := Root (header st).

Definition setCrc (m : FileMetadata) (c : Z) : FileMetadata :=
  {| Name := Name m; ModTime := ModTime m; CreateTime := CreateTime m;
     Permissions := Permissions m; Crc32 := c |}.

Definition setModTime (m : FileMetadata) (t : Z) : FileMetadata :=
  {| Name := Name m; ModTime := t; CreateTime := CreateTime m;
     Permissions := Permissions m; Crc32 := Crc32 m |}.

Definition setDirMetadata (d : DirectoryEntry) (m : FileMetadata) : DirectoryEntry :=
  MkDirectoryEntry m (Files d) (Directories d).

Definition setFiles (d : DirectoryEntry) (fs : gmap string FileEntry) : DirectoryEntry :=
  MkDirectoryEntry (DirMetadata d) fs (Directories d).

Definition setDirectories (d : DirectoryEntry) (ds : gmap string DirectoryEntry)
  : DirectoryEntry :=
  MkDirectoryEntry (DirMetadata d) (Files d) ds.

(** ** Pointers into the tree *)

(** A [*DirectoryEntry] obtained by walking down from the root is the list of
    names walked.  [dirAt] dereferences it, [updateDir] writes through it. *)
Fixpoint dirAt (loc : list string) (d : DirectoryEntry) : option DirectoryEntry :=
  match loc with
  | [] => Some d
  | n :: loc' =>
      match Directories d !! n with
      | Some sub => dirAt loc' sub
      | None => None
      end
  end.

Fixpoint updateDir (f : DirectoryEntry -> DirectoryEntry) (loc : list string)
    (d : DirectoryEntry) : DirectoryEntry :=
  match loc with
  | [] => f d
  | n :: loc' =>
      match Directories d !! n with
      | Some sub => setDirectories d (<[n := updateDir f loc' sub]> (Directories d))
      | None => d
      end
  end.

(** The result of [findEntryUnsafe]: the directory pointer (its access path
    and the directory it points to), the file if any, and [isDir]. *)
Record found := {
  foundLoc : list string;
  foundDir : DirectoryEntry;
  foundFile : option FileEntry;
  foundIsDir : bool }.

Definition findEntryUnsafe (rootDir : DirectoryEntry) (path : string) : res found :=
  let path := trim path in
  if isEmptyString path then
    Ok {| foundLoc := []; foundDir := rootDir; foundFile := None; foundIsDir := true |}
  else
    let parts := split path in
    match dirAt (removelast parts) rootDir with
    | None => Err ErrDirectoryNotFound
    | Some currentDir =>
        let finalName := List.last parts EmptyString in
        match Directories currentDir !! finalName with
        | Some subDir =>
            Ok {| foundLoc := removelast parts ++ [finalName]; foundDir := subDir;
                  foundFile := None; foundIsDir := true |}
        | None =>
            Ok {| foundLoc := removelast parts; foundDir := currentDir;
                  foundFile := Files currentDir !! finalName; foundIsDir := false |}
        end
    end.

(** A [for i := 0; i < len(l); i += n] loop over the slices [l[i:i+n]]. *)
Fixpoint chunksOf (rounds : nat) (n : nat) (l : list Z) : list (list Z) :=
  match rounds with
  | O => []
  | S rounds' =>
      match l with
      | [] => []
      | _ :: _ => take n l :: chunksOf rounds' n (drop n l)
      end
  end.

Definition setNext (ib : IndexBlock) (next : Z) : IndexBlock :=
  {| BlockIds := BlockIds ib; Extents := Extents ib; NextIndexBlockId := next;
     DataSize := DataSize ib; IndexCrc32 := IndexCrc32 ib |}.

Definition setIndexCrc (ib : IndexBlock) (c : Z) : IndexBlock :=
  {| BlockIds := BlockIds ib; Extents := Extents ib;
     NextIndexBlockId := NextIndexBlockId ib;
     DataSize := DataSize ib; IndexCrc32 := c |}.

Definition extentBlocks (e : Extent) : list Z :=
  map (fun i => u32 (StartBlockId e + i)) (seqZ 0 (BlockCount e)).


(** ** The bitmap file *)

(** [binary.LittleEndian.PutUint64] and [binary.LittleEndian.Uint64]. *)
Definition putUint64 (n : Z) : list Z :=
  map (fun k => (n / 256 ^ k) mod 256) (seqZ 0 8).

Definition getUint64 (b : list Z) : Z :=
  match b with
  | b0 :: b1 :: b2 :: b3 :: b4 :: b5 :: b6 :: b7 :: _ =>
      b0 + 256 * (b1 + 256 * (b2 + 256 * (b3 + 256 * (b4 + 256 * (b5
         + 256 * (b6 + 256 * b7))))))
  | _ => 0
  end.

(** What [saveBitmap] writes to [bitmap.yfs]: the count of blocks in eight
    bytes, then the bitmap. *)
Definition bitmapImage (bm : BlockBitmap) : list Z :=
  putUint64 (totalBlocks bm) ++ data bm.

(** [loadBitmap] on the content of [bitmap.yfs]; [None] is "invalid bitmap
    file format". *)
Definition loadBitmap (file : list Z) : option BlockBitmap :=
  if Z.of_nat (length file) <? 8 then None
  else Some {| data := drop 8 file; totalBlocks := getUint64 (take 8 file);
               searchPos := 0; dirty := false |}.

(** ** What the listing operations return *)

(** [FileInfo]; a [time.Time] made by [time.Unix(sec, 0)] is its [sec]. *)
Record FileInfo := {
  InfoName : string;
  IsDirectory : bool;
  InfoSize : Z;
  InfoModTime : Z;
  InfoCreateTime : Z;
  InfoBlockCount : Z }.

(** The map [GetStats] returns, key by key. *)
Record Stats := {
  stat_version : Z;
  stat_block_size : Z;
  stat_total_blocks : Z;
  stat_allocated_blocks : Z;
  stat_used_blocks : Z;
  stat_free_blocks : Z;
  stat_checksum_enabled : bool;
  stat_bitmap_search_pos : Z;
  stat_blocks_file_size : Z }.

(** The counting loop of [GetStats]. *)
Definition usedBlocks (bm : BlockBitmap) : Z :=
  fold_left (fun used i => if isBlockFree bm i then used else u64 (used + 1))
            (seqZ 0 (totalBlocks bm)) 0.

(** ** The command line (cmd/cli.go) *)

(** [strings.HasPrefix(path, "/")] *)
Definition hasSlashPrefix (path : string) : bool :=
  match path with
  | String c _ => isSlash c
  | EmptyString => false
  end.

Definition resolvePath (currentPath path : string) : string :=
  if hasSlashPrefix path then path
  else if String.eqb path "." then currentPath
  else if String.eqb path ".." then
    if String.eqb currentPath "/" then "/"
    else
      let parts := split (trim currentPath) in
      if (length parts <=? 1)%nat then "/"
      else ("/" +:+ join (removelast parts))%string
  else if String.eqb currentPath "/" then ("/" +:+ path)%string
  else (currentPath +:+ "/" +:+ path)%string.

(** A line is the sequence of its runes, as [for _, r := range line] yields
    them, and an argument the sequence of runes written to the builder. *)
Definition rune := Z.

Record parser := {
  parsed : list (list rune);
  current : list rune;
  inQuotes : bool;
  escaped : bool }.

(** One round of the loop of [parseCommand]: backslash is 92, the double
    quote 34, the space 32. *)
Definition parseRune (p : parser) (r : rune) : parser :=
  if escaped p then
    {| parsed := parsed p; current := current p ++ [r]; inQuotes := inQuotes p;
       escaped := false |}
  else if r =? 92 then
    {| parsed := parsed p; current := current p; inQuotes := inQuotes p;
       escaped := true |}
  else if r =? 34 then
    {| parsed := parsed p; current := current p; inQuotes := negb (inQuotes p);
       escaped := false |}
  else if (r =? 32) && negb (inQuotes p) then
    if (0 <? length (current p))%nat then
      {| parsed := parsed p ++ [current p]; current := []; inQuotes := inQuotes p;
         escaped := false |}
    else p
  else
    {| parsed := parsed p; current := current p ++ [r]; inQuotes := inQuotes p;
       escaped := escaped p |}.

Definition parseCommand (line : list rune) : list (list rune) :=
  let p := fold_left parseRune line
             {| parsed := []; current := []; inQuotes := false; escaped := false |} in
  if (0 <? length (current p))%nat then parsed p ++ [current p] else parsed p.

(** A rune that is no space, no double quote and no backslash. *)
Definition plainRune (r : rune) : Prop := r ≠ 32 ∧ r ≠ 34 ∧ r ≠ 92.

(** [strings.Join(args, " ")] on arguments. *)
Fixpoint joinArgs (args : list (list rune)) : list rune :=
  match args with
  | [] => []
  | a :: rest =>
      match rest with
      | [] => a
      | _ :: _ => a ++ 32 :: joinArgs rest
      end
  end.

(** ** Listing *)

Definition directoryInfo (name : string) (subDir : DirectoryEntry) : FileInfo :=
  {| InfoName := name; IsDirectory := true; InfoSize := 0;
     InfoModTime := ModTime (DirMetadata subDir);
     InfoCreateTime := CreateTime (DirMetadata subDir);
     InfoBlockCount := 0 |}.

Definition fileInfo (name : string) (file : FileEntry) : FileInfo :=
  {| InfoName := name; IsDirectory := false; InfoSize := Size file;
     InfoModTime := ModTime (Metadata file);
     InfoCreateTime := CreateTime (Metadata file);
     InfoBlockCount := DataBlockCount file |}.

(** [Ls]: the subdirectories, then the files.  Go ranges over a map in an
    order it does not fix; [map_to_list] is one such order. *)
Definition Ls (st : YFS) (path : string) : res (list FileInfo) :=
  match findEntryUnsafe (root st) path with
  | Err e => Err e
  | Abort r => Abort r
  | Ok target =>
      if negb (foundIsDir target) then Err ErrNotADirectory
      else
        Ok (map (fun e => directoryInfo (fst e) (snd e))
                (map_to_list (Directories (foundDir target)))
            ++ map (fun e => fileInfo (fst e) (snd e))
                   (map_to_list (Files (foundDir target))))
  end.

(** [cmdCd] with one argument: the current path afterwards. *)
Definition cmdCd (st : YFS) (currentPath arg : string) : string :=
  let newPath := resolvePath currentPath arg in
  match Ls st newPath with
  | Ok _ => newPath
  | _ => currentPath
  end.

Definition GetBlockSize (st : YFS) : Z := blockSize st.

(** [GetStats]; the division panics on a block size of 0. *)
Definition GetStats (st : YFS) : res Stats :=
  let used := usedBlocks (bitmap st) in
  let size := Z.of_nat (length (blocksFile st)) in
  if blockSize st =? 0 then Abort Panics
  else
    Ok {| stat_version := Version (header st);
          stat_block_size := blockSize st;
          stat_total_blocks := totalBlocks (bitmap st);
          stat_allocated_blocks := i64 (i64 (size - HeaderSize) ÷ blockSize st);
          stat_used_blocks := used;
          stat_free_blocks := u64 (totalBlocks (bitmap st) - used);
          stat_checksum_enabled := checksumEnabled st;
          stat_bitmap_search_pos := searchPos (bitmap st);
          stat_blocks_file_size := size |}.

(** [filepath.Base] belongs to the Go library and is a parameter. *)
Section Listing.

Variable filepathBase : string -> string.

Definition GetFileInfo (st : YFS) (path : string) : res FileInfo :=
  match findEntryUnsafe (root st) path with
  | Err e => Err e
  | Abort r => Abort r
  | Ok target =>
      if foundIsDir target then
        Ok {| InfoName := filepathBase path; IsDirectory := true; InfoSize := 0;
              InfoModTime := ModTime (DirMetadata (foundDir target));
              InfoCreateTime := CreateTime (DirMetadata (foundDir target));
              InfoBlockCount := 0 |}
      else
        match foundFile target with
        | None => Err ErrFileNotFound
        | Some file => Ok (fileInfo (Name (Metadata file)) file)
        end
  end.

(** [buildDirectoryTree] builds the entry of the directory it is given and
    goes no deeper. *)
Definition buildDirectoryTree (dir : DirectoryEntry) (path : string) : FileInfo :=
  {| InfoName := filepathBase path; IsDirectory := true; InfoSize := 0;
     InfoModTime := ModTime (DirMetadata dir);
     InfoCreateTime := CreateTime (DirMetadata dir);
     InfoBlockCount := 0 |}.

Definition LsAll (st : YFS) : FileInfo := buildDirectoryTree (root st) "/".

End Listing.

(** [proto.Marshal] and [proto.Unmarshal] at the message
    [FileSystemHeader], for images that carry the root directory and every
    metadata message, as those written by [saveRoot] do. *)
Section Reopening.

Variable marshalHeader : FileSystemHeader -> list Z.
Variable unmarshalHeader : list Z -> option FileSystemHeader.

(** What [saveRoot] writes to [root.yfs]. *)
Definition rootImage (st : YFS) : list Z := marshalHeader (header st).

(** [loadFileSystem] on the content of [root.yfs] and [bitmap.yfs], next to
    the block file; [None] is one of its two format errors. *)
Definition loadFileSystem (rootFile bitmapFile blocks : list Z) : option YFS :=
  match unmarshalHeader rootFile with
  | None => None
  | Some h =>
      match loadBitmap bitmapFile with
      | None => None
      | Some bm =>
          Some {| blockSize := HeaderBlockSize h; header := h; bitmap := bm;
                  blocksFile := blocks;
                  checksumEnabled := 0 <? HeaderChecksumEnabled h |}
      end
  end.

End Reopening.

Section Engine.

(** [crc32.ChecksumIEEE] of [fmt.Sprintf("%s%d%d%d", name, modTime,
    createTime, permissions)]; the [uint32] result is taken with [u32]. *)
Variable metadataChecksum : string -> Z -> Z -> Z -> Z.

(** [crc32.ChecksumIEEE] of [fmt.Sprintf("%v%v%d", blockIds, extents, next)]. *)
Variable indexChecksum : list Z -> list Extent -> Z -> Z.

(** [proto.Marshal] and [proto.Unmarshal] at the message [IndexBlock]. *)
Variable marshalIndexBlock : IndexBlock -> list Z.
Variable unmarshalIndexBlock : list Z -> option IndexBlock.

(** *** Checksums *)

Definition expectedCrc (m : FileMetadata) : Z :=
  u32 (metadataChecksum (Name m) (ModTime m) (CreateTime m) (Permissions m)).

Definition updateMetadataChecksum (st : YFS) (m : FileMetadata) : FileMetadata :=
  if checksumEnabled st then setCrc m (expectedCrc m) else m.

Definition verifyMetadataChecksum (st : YFS) (m : FileMetadata) : bool :=
  if checksumEnabled st then Crc32 m =? expectedCrc m else true.

Definition expectedIndexCrc (ib : IndexBlock) : Z :=
  u32 (indexChecksum (BlockIds ib) (Extents ib) (NextIndexBlockId ib)).

(** *** Persistence *)

(** [saveRoot] refreshes the root checksum and rewrites [root.yfs];
    [saveBitmap] rewrites [bitmap.yfs] when the bitmap is dirty.  Both host
    files are only read back when a volume is opened, so what remains of
    the two calls is their effect on the state in memory. *)
Definition saveRoot (st : YFS) : YFS :=
  if checksumEnabled st then
    setRoot st (setDirMetadata (root st) (updateMetadataChecksum st (DirMetadata (root st))))
  else st.

Definition saveBitmap (st : YFS) : YFS :=
  if dirty (bitmap st) then setBitmap st (setDirty (bitmap st) false) else st.

Definition createFileSystem (now : Z) : YFS :=
  let st :=
    {| blockSize := DefaultBlockSize;
       header :=
         {| Version := 2;
            HeaderBlockSize := DefaultBlockSize;
            Root := MkDirectoryEntry
                      {| Name := "/"; ModTime := now; CreateTime := now;
                         Permissions := 0; Crc32 := 0 |} ∅ ∅;
            HeaderTotalBlocks := 0;
            HeaderChecksumEnabled := 1 |};
       bitmap := {| data := zeros 1024; totalBlocks := 8192; searchPos := 0;
                    dirty := true |};
       blocksFile := putUint32 DefaultBlockSize;
       checksumEnabled := true |} in
  saveBitmap (saveRoot st).

(** *** Index blocks on the block device *)

Definition writeIndexBlock (st : YFS) (blockID : Z) (indexBlock : IndexBlock)
  : res unit * YFS :=
  let ib :=
    if checksumEnabled st then setIndexCrc indexBlock (expectedIndexCrc indexBlock)
    else indexBlock in
  match writeBlock (blockSize st) (blocksFile st) blockID (marshalIndexBlock ib) with
  | Ok f => (Ok tt, setBlocksFile st f)
  | Err e => (Err e, st)
  | Abort r => (Abort r, st)
  end.

Definition readIndexBlock (st : YFS) (blockID : Z) : res IndexBlock :=
  match readBlock (blockSize st) (blocksFile st) blockID with
  | Ok bytes =>
      match unmarshalIndexBlock bytes with
      | None => Err ErrUnmarshal
      | Some ib =>
          if checksumEnabled st && negb (IndexCrc32 ib =? 0)
             && negb (IndexCrc32 ib =? expectedIndexCrc ib)
          then Err ErrIndexChecksum
          else Ok ib
      end
  | Err e => Err e
  | Abort r => Abort r
  end.

Definition allocate (st : YFS) (count : Z) : res (list Z) * YFS :=
  let '(r, bm) := allocateBlocks (bitmap st) count in (r, setBitmap st bm).

Definition release (st : YFS) (blockIDs : list Z) : YFS :=
  setBitmap st (freeBlocks (bitmap st) blockIDs).

(** *** Freeing a chain *)

Fixpoint freeFileBlocks (fuel : nat) (st : YFS) (currentIndexBlockID : Z)
  : res unit * YFS :=
  match fuel with
  | O => (Abort Diverges, st)
  | S fuel' =>
      if currentIndexBlockID =? NullBlockID then (Ok tt, st)
      else
        match readIndexBlock st currentIndexBlockID with
        | Err e => (Err e, st)
        | Abort r => (Abort r, st)
        | Ok indexBlock =>
            let st1 := release st (BlockIds indexBlock) in
            let st2 :=
              fold_left (fun s extent => release s (extentBlocks extent))
                        (Extents indexBlock) st1 in
            let st3 := release st2 [currentIndexBlockID] in
            freeFileBlocks fuel' st3 (NextIndexBlockId indexBlock)
        end
  end.

(** *** Building a chain *)

(** The first loop of [createIndexBlocks]. *)
Fixpoint createIndexLoop (chunks : list (list Z)) (st : YFS) (indexBlocks : list Z)
  : res (list Z) * YFS :=
  match chunks with
  | [] => (Ok indexBlocks, st)
  | blockIDs :: chunks' =>
      match allocate st 1 with
      | (Err e, st1) => (Err e, release st1 indexBlocks)
      | (Abort r, st1) => (Abort r, st1)
      | (Ok indexBlockIDs, st1) =>
          let indexBlockID := List.hd 0 indexBlockIDs in
          let indexBlocks1 := indexBlocks ++ [indexBlockID] in
          let indexBlock :=
            {| BlockIds := blockIDs; Extents := [];
               NextIndexBlockId := 0;
               DataSize := u32 (Z.of_nat (length blockIDs) * blockSize st);
               IndexCrc32 := 0 |} in
          match writeIndexBlock st1 indexBlockID indexBlock with
          | (Err e, st2) => (Err e, release st2 indexBlocks1)
          | (Abort r, st2) => (Abort r, st2)
          | (Ok _, st2) => createIndexLoop chunks' st2 indexBlocks1
          end
      end
  end.

(** The second loop: patch [next] into every index block but the last. *)
Fixpoint linkIndexBlocks (indexBlocks : list Z) (st : YFS) : res unit * YFS :=
  match indexBlocks with
  | [] => (Ok tt, st)
  | cur :: rest =>
      match rest with
      | [] => (Ok tt, st)
      | next :: _ =>
          match readIndexBlock st cur with
          | Err e => (Err e, st)
          | Abort r => (Abort r, st)
          | Ok indexBlock =>
              match writeIndexBlock st cur (setNext indexBlock next) with
              | (Ok _, st1) => linkIndexBlocks rest st1
              | other => other
              end
          end
      end
  end.

Definition createIndexBlocks (st : YFS) (dataBlocks : list Z) : res Z * YFS :=
  match dataBlocks with
  | [] => (Ok NullBlockID, st)
  | _ :: _ =>
      match createIndexLoop
              (chunksOf (length dataBlocks) (Z.to_nat MaxBlocksPerIndex) dataBlocks)
              st [] with
      | (Err e, st1) => (Err e, st1)
      | (Abort r, st1) => (Abort r, st1)
      | (Ok indexBlocks, st1) =>
          match linkIndexBlocks indexBlocks st1 with
          | (Err e, st2) => (Err e, st2)
          | (Abort r, st2) => (Abort r, st2)
          | (Ok _, st2) => (Ok (List.hd 0 indexBlocks), st2)
          end
      end
  end.

(** The data loop of [writeFileToBlocks]: block [i] receives
    [data[i*blockSize : min((i+1)*blockSize, len(data))]]. *)
Fixpoint writeDataBlocks (st : YFS) (file : list Z) (i : Z) (blocks : list Z)
    (payload : list Z) : res unit * list Z :=
  match blocks with
  | [] => (Ok tt, file)
  | blockID :: blocks' =>
      let start := i * blockSize st in
      let stop := Z.min (start + blockSize st) (Z.of_nat (length payload)) in
      match writeBlock (blockSize st) file blockID
              (take (Z.to_nat (stop - start)) (drop (Z.to_nat start) payload)) with
      | Ok file1 => writeDataBlocks st file1 (i + 1) blocks' payload
      | Err e => (Err e, file)
      | Abort r => (Abort r, file)
      end
  end.

Definition writeFileToBlocks (fuel : nat) (st : YFS) (payload : list Z)
    (existingFirstIndexBlockID : Z) : res Z * YFS :=
  if Z.of_nat (length payload) =? 0 then
    if existingFirstIndexBlockID =? NullBlockID then (Ok NullBlockID, st)
    else
      match freeFileBlocks fuel st existingFirstIndexBlockID with
      | (Abort r, st1) => (Abort r, st1)
      | (_, st1) => (Ok NullBlockID, st1)
      end
  else if blockSize st =? 0 then (Abort Panics, st)
  else
    let blocksNeeded :=
      (Z.of_nat (length payload) + blockSize st - 1) ÷ blockSize st in
    match allocate st (u32 blocksNeeded) with
    | (Err e, st1) => (Err e, st1)
    | (Abort r, st1) => (Abort r, st1)
    | (Ok dataBlocks, st1) =>
        match writeDataBlocks st1 (blocksFile st1) 0 dataBlocks payload with
        | (Err e, file1) => (Err e, release (setBlocksFile st1 file1) dataBlocks)
        | (Abort r, file1) => (Abort r, setBlocksFile st1 file1)
        | (Ok _, file1) =>
            match createIndexBlocks (setBlocksFile st1 file1) dataBlocks with
            | (Err e, st2) => (Err e, release st2 dataBlocks)
            | (Abort r, st2) => (Abort r, st2)
            | (Ok firstIndexBlockID, st2) =>
                if existingFirstIndexBlockID =? NullBlockID then
                  (Ok firstIndexBlockID, st2)
                else
                  match freeFileBlocks fuel st2 existingFirstIndexBlockID with
                  | (Abort r, st3) => (Abort r, st3)
                  | (_, st3) => (Ok firstIndexBlockID, st3)
                  end
            end
        end
    end.

(** *** Reading a chain *)

(** The inner loop of [readFileFromBlocks] over one index block. *)
Fixpoint readDataBlocks (st : YFS) (blockIDs : list Z) (fileSize : Z)
    (result : list Z) (bytesRead : Z) : res (list Z * Z) :=
  match blockIDs with
  | [] => Ok (result, bytesRead)
  | blockID :: rest =>
      if fileSize <=? bytesRead then Ok (result, bytesRead)
      else
        match readBlock (blockSize st) (blocksFile st) blockID with
        | Err e => Err e
        | Abort r => Abort r
        | Ok blockData =>
            let remainingBytes := fileSize - bytesRead in
            let bytesToTake := Z.min (Z.of_nat (length blockData)) remainingBytes in
            readDataBlocks st rest fileSize
              (result ++ take (Z.to_nat bytesToTake) blockData)
              (bytesRead + bytesToTake)
        end
  end.

Fixpoint readChain (fuel : nat) (st : YFS) (currentIndexBlockID fileSize : Z)
    (result : list Z) (bytesRead : Z) : res (list Z) :=
  match fuel with
  | O => Abort Diverges
  | S fuel' =>
      if (currentIndexBlockID =? NullBlockID) || (fileSize <=? bytesRead) then Ok result
      else
        match readIndexBlock st currentIndexBlockID with
        | Err e => Err e
        | Abort r => Abort r
        | Ok indexBlock =>
            match readDataBlocks st (BlockIds indexBlock) fileSize result bytesRead with
            | Err e => Err e
            | Abort r => Abort r
            | Ok (result1, bytesRead1) =>
                readChain fuel' st (NextIndexBlockId indexBlock) fileSize result1 bytesRead1
            end
        end
  end.

Definition readFileFromBlocks (fuel : nat) (st : YFS) (firstIndexBlockID fileSize : Z)
  : res (list Z) :=
  if (firstIndexBlockID =? NullBlockID) || (fileSize =? 0) then Ok []
  else readChain fuel st firstIndexBlockID fileSize [] 0.

(** *** Integrity of a chain *)

Definition invalidDataBlockID (st : YFS) (blockID : Z) : bool :=
  (blockID =? NullBlockID) || (u32 (totalBlocks (bitmap st)) <? blockID).

Definition invalidExtent (st : YFS) (e : Extent) : bool :=
  (StartBlockId e =? NullBlockID)
  || (u32 (totalBlocks (bitmap st)) <? u32 (StartBlockId e + BlockCount e)).

Fixpoint verifyChain (fuel : nat) (st : YFS) (currentIndexBlockID : Z)
    (visitedBlocks : gset Z) : res unit :=
  match fuel with
  | O => Abort Diverges
  | S fuel' =>
      if currentIndexBlockID =? NullBlockID then Ok tt
      else if decide (currentIndexBlockID ∈ visitedBlocks) then Err ErrCircularReference
      else
        match readIndexBlock st currentIndexBlockID with
        | Err e => Err e
        | Abort r => Abort r
        | Ok indexBlock =>
            if existsb (invalidDataBlockID st) (BlockIds indexBlock)
            then Err ErrInvalidDataBlock
            else if existsb (invalidExtent st) (Extents indexBlock)
            then Err ErrInvalidExtent
            else verifyChain fuel' st (NextIndexBlockId indexBlock)
                   ({[currentIndexBlockID]} ∪ visitedBlocks)
        end
  end.

Definition verifyFileIndexBlocks (fuel : nat) (st : YFS) (firstIndexBlockID : Z)
  : res unit :=
  if firstIndexBlockID =? NullBlockID then Ok tt
  else verifyChain fuel st firstIndexBlockID ∅.

Definition verifyFile (fuel : nat) (st : YFS) (file : FileEntry) : res unit :=
  if negb (verifyMetadataChecksum st (Metadata file)) then Err ErrMetadataChecksum
  else verifyFileIndexBlocks fuel st (FirstIndexBlockId file).

(** One step of a [for ... range m] loop that returns at the first error. *)
Definition andThen (check : res unit) (rest : res unit) : res unit :=
  match rest with
  | Ok _ => check
  | other => other
  end.

Fixpoint verifyDirectoryIntegrity (fuel : nat) (st : YFS) (dir : DirectoryEntry)
  : res unit :=
  if negb (verifyMetadataChecksum st (DirMetadata dir)) then Err ErrMetadataChecksum
  else
    match map_fold (fun _ file rest => andThen (verifyFile fuel st file) rest)
                   (Ok tt) (Files dir) with
    | Ok _ =>
        map_fold (fun _ subDir rest => andThen (verifyDirectoryIntegrity fuel st subDir) rest)
                 (Ok tt) (Directories dir)
    | other => other
    end.

Definition VerifyIntegrity (fuel : nat) (st : YFS) : res unit :=
  if negb (verifyMetadataChecksum st (DirMetadata (root st))) then Err ErrMetadataChecksum
  else verifyDirectoryIntegrity fuel st (root st).

(** *** Namespace mutations *)

Definition newDirectory (st : YFS) (now : Z) (part : string) : DirectoryEntry :=
  MkDirectoryEntry
    (updateMetadataChecksum st
       {| Name := part; ModTime := now; CreateTime := now; Permissions := 0; Crc32 := 0 |})
    ∅ ∅.

(** The loop of [createDirectoryChain]; [currentDir] is the directory the
    Go pointer of the same name designates, and the result is that
    directory after the loop has written below it. *)
Fixpoint createDirectories (st : YFS) (now : Z) (parts : list string)
    (currentDir : DirectoryEntry) : DirectoryEntry :=
  match parts with
  | [] => currentDir
  | part :: rest =>
      if isEmptyString part then createDirectories st now rest currentDir
      else
        let subDir :=
          match Directories currentDir !! part with
          | Some d => d
          | None => newDirectory st now part
          end in
        setDirectories currentDir
          (<[part := createDirectories st now rest subDir]> (Directories currentDir))
  end.

Definition createDirectoryChain (st : YFS) (now : Z) (path : string) : YFS :=
  if isEmptyString path then st
  else setRoot st (createDirectories st now (split path) (root st)).

Definition WriteFile (fuel : nat) (now : Z) (st : YFS) (path : string) (payload : list Z)
  : res unit * YFS :=
  match findEntryUnsafe (root st) path with
  | Err e => (Err e, st)
  | Abort r => (Abort r, st)
  | Ok target =>
      if foundIsDir target && isNil (foundFile target)
      then (Err ErrPathIsDirectory, st)
      else
        let pathParts := split (trim path) in
        let fileName := List.last pathParts EmptyString in
        let parentPath := join (removelast pathParts) in
        (* the pointer [parentDir], and the state after the parents were made *)
        let '(parentDir, st0) :=
          match findEntryUnsafe (root st) parentPath with
          | Ok parent => (Some (foundLoc parent), st)
          | _ =>
              let st' := createDirectoryChain st now parentPath in
              match findEntryUnsafe (root st') parentPath with
              | Ok parent => (Some (foundLoc parent), st')
              | _ => (None, st')
              end
          end in
        let existingFirstIndexBlockID :=
          match foundFile target with
          | Some file => FirstIndexBlockId file
          | None => 0
          end in
        match writeFileToBlocks fuel st0 payload existingFirstIndexBlockID with
        | (Err e, st1) => (Err e, st1)
        | (Abort r, st1) => (Abort r, st1)
        | (Ok firstIndexBlockID, st1) =>
            match foundFile target with
            | None =>
                match parentDir with
                | None => (Abort Panics, st1)
                | Some loc =>
                    let file :=
                      {| Metadata :=
                           updateMetadataChecksum st1
                             {| Name := fileName; ModTime := now; CreateTime := now;
                                Permissions := 0; Crc32 := 0 |};
                         FirstIndexBlockId := firstIndexBlockID;
                         Size := Z.of_nat (length payload);
                         IndexBlockCount := 0;
                         DataBlockCount := 0 |} in
                    let st2 :=
                      setRoot st1
                        (updateDir (fun d => setFiles d (<[fileName := file]> (Files d)))
                                   loc (root st1)) in
                    (Ok tt, saveBitmap (saveRoot st2))
                end
            | Some old =>
                let file :=
                  {| Metadata :=
                       updateMetadataChecksum st1 (setModTime (Metadata old) now);
                     FirstIndexBlockId := firstIndexBlockID;
                     Size := Z.of_nat (length payload);
                     IndexBlockCount := IndexBlockCount old;
                     DataBlockCount := DataBlockCount old |} in
                let st2 :=
                  setRoot st1
                    (updateDir (fun d => setFiles d (<[fileName := file]> (Files d)))
                               (foundLoc target) (root st1)) in
                (Ok tt, saveBitmap (saveRoot st2))
            end
        end
  end.

Definition ReadFile (fuel : nat) (st : YFS) (path : string) : res (list Z) :=
  match findEntryUnsafe (root st) path with
  | Err e => Err e
  | Abort r => Abort r
  | Ok target =>
      match foundIsDir target, foundFile target with
      | false, Some file =>
          if negb (verifyMetadataChecksum st (Metadata file)) then Err ErrMetadataChecksum
          else readFileFromBlocks fuel st (FirstIndexBlockId file) (Size file)
      | _, _ => Err ErrFileNotFound
      end
  end.

Definition DeleteFile (fuel : nat) (st : YFS) (path : string) : res unit * YFS :=
  match findEntryUnsafe (root st) path with
  | Err e => (Err e, st)
  | Abort r => (Abort r, st)
  | Ok target =>
      match foundIsDir target, foundFile target with
      | false, Some file =>
          match freeFileBlocks fuel st (FirstIndexBlockId file) with
          | (Err e, st1) => (Err e, st1)
          | (Abort r, st1) => (Abort r, st1)
          | (Ok _, st1) =>
              let pathParts := split (trim path) in
              let fileName := List.last pathParts EmptyString in
              let st2 :=
                setRoot st1
                  (updateDir (fun d => setFiles d (delete fileName (Files d)))
                             (foundLoc target) (root st1)) in
              (Ok tt, saveBitmap (saveRoot st2))
          end
      | _, _ => (Err ErrFileNotFound, st)
      end
  end.

Definition CopyFile (fuel : nat) (now : Z) (st : YFS) (srcPath dstPath : string)
  : res unit * YFS :=
  match ReadFile fuel st srcPath with
  | Err e => (Err e, st)
  | Abort r => (Abort r, st)
  | Ok payload => WriteFile fuel now st dstPath payload
  end.

(** [now] is the clock reading of the copy; the delete reads no clock. *)
Definition MoveFile (fuel : nat) (now : Z) (st : YFS) (srcPath dstPath : string)
  : res unit * YFS :=
  match CopyFile fuel now st srcPath dstPath with
  | (Ok _, st1) => DeleteFile fuel st1 srcPath
  | other => other
  end.

Definition CreateDirectory (now : Z) (st : YFS) (path : string) : res unit * YFS :=
  match findEntryUnsafe (root st) path with
  | Ok target =>
      if foundIsDir target then (Err ErrDirectoryExists, st)
      else (Ok tt, saveRoot (createDirectoryChain st now path))
  | _ => (Ok tt, saveRoot (createDirectoryChain st now path))
  end.

(** [DeleteDirectory] holds the engine's write lock when, past its three
    refusals, it calls the locking [findEntry]: the read lock of a
    [sync.RWMutex] cannot be taken while the write lock is held, so from
    there on the call does not return. *)
Definition DeleteDirectory (st : YFS) (path : string) : res unit * YFS :=
  match findEntryUnsafe (root st) path with
  | Err e => (Err e, st)
  | Abort r => (Abort r, st)
  | Ok target =>
      if negb (foundIsDir target) then (Err ErrNotADirectory, st)
      else if (0 <? Z.of_nat (size (Files (foundDir target))))
              || (0 <? Z.of_nat (size (Directories (foundDir target))))
      then (Err ErrDirectoryNotEmpty, st)
      else
        let pathParts := split (trim path) in
        match pathParts with
        | [part] =>
            if isEmptyString part then (Err ErrDeleteRoot, st) else (Abort Diverges, st)
        | _ => (Abort Diverges, st)
        end
  end.

(** *** Maintenance *)

Definition Defragment (st : YFS) : YFS :=
  saveBitmap (setBitmap st (setDirty (setSearchPos (bitmap st) 0) true)).

Definition Sync (st : YFS) : YFS := saveBitmap (saveRoot st).

Definition Close (st : YFS) : YFS := Sync st.

(** * Specification-level notions *)

(** No directory of the tree is stored under the empty name.  The engine
    never creates such an entry: [createDirectoryChain] skips empty
    components and the other names come out of [split]. *)
Inductive namesOk : DirectoryEntry -> Prop :=
| namesOk_dir d :
    Directories d !! EmptyString = None ->
    (∀ n sub, Directories d !! n = Some sub -> namesOk sub) ->
    namesOk d.

(** Operations on blocks and on the bitmap leave the rest of the engine
    state alone. *)
Definition sameConfig (st st' : YFS) : Prop :=
  header st' = header st ∧ blockSize st' = blockSize st
  ∧ checksumEnabled st' = checksumEnabled st.

(** ... and those on the bitmap alone leave the block file alone too. *)
Definition sameDevice (st st' : YFS) : Prop :=
  sameConfig st st' ∧ blocksFile st' = blocksFile st.

(** The fields of an [IndexBlock] message are [uint32]s, and a message is
    far shorter than 2^32 entries. *)
Definition isU32 (x : Z) : Prop := 0 <= x < 2 ^ 32.

Definition typedIndexBlock (ib : IndexBlock) : Prop :=
  Forall isU32 (BlockIds ib)
  ∧ Forall (fun e => isU32 (StartBlockId e) ∧ isU32 (BlockCount e)) (Extents ib)
  ∧ isU32 (NextIndexBlockId ib) ∧ isU32 (DataSize ib) ∧ isU32 (IndexCrc32 ib)
  ∧ Z.of_nat (length (BlockIds ib)) < 2 ^ 32
  ∧ Z.of_nat (length (Extents ib)) < 2 ^ 32.

(** What the engine relies on from the protobuf library: a message that
    was marshalled is unmarshalled to itself. *)
Definition codecRoundTrip : Prop :=
  ∀ ib, typedIndexBlock ib -> unmarshalIndexBlock (marshalIndexBlock ib) = Some ib.

(** A volume whose block size and capacity are in the range the 32-bit
    block identifiers and 64-bit file offsets can address. *)
Definition addressable (st : YFS) : Prop :=
  0 < blockSize st < 2 ^ 31 ∧ 0 <= totalBlocks (bitmap st) < 2 ^ 32.

(** The index chain that starts at an identifier: the index blocks read one
    after the other until the next-pointer is 0.  A chain is a finite
    list, so a chain that runs in a circle is no chain. *)
Inductive chain (st : YFS) : Z -> list (Z * IndexBlock) -> Prop :=
| chain_end : chain st 0 []
| chain_step id ib rest :
    id ≠ 0 -> readIndexBlock st id = Ok ib ->
    chain st (NextIndexBlockId ib) rest ->
    chain st id ((id, ib) :: rest).

(** The blocks of one link: its data blocks, the blocks of its extents and
    the index block itself; and the blocks of a whole chain. *)
Definition linkBlocks (link : Z * IndexBlock) : list Z :=
  BlockIds (snd link) ++ concat (map extentBlocks (Extents (snd link))) ++ [fst link].

Definition chainBlocks (c : list (Z * IndexBlock)) : list Z :=
  concat (map linkBlocks c).

(** The data blocks met when walking a chain. *)
Definition chainDataBlocks (c : list (Z * IndexBlock)) : list Z :=
  concat (map (fun link => BlockIds (snd link)
                           ++ concat (map extentBlocks (Extents (snd link)))) c).

(** The bit of a position, when the position lies inside the bitmap. *)
Definition bitAt (bm : BlockBitmap) (p : Z) : option bool :=
  (fun b => Z.testbit b (p mod 8)) <$> data bm !! Z.to_nat (p / 8).

(** Between two bitmaps of the same size, bits were cleared and none set. *)
Definition fades (bm bm' : BlockBitmap) : Prop :=
  ∀ q, 0 <= q ->
    match bitAt bm q, bitAt bm' q with
    | Some b, Some b' => b' = true -> b = true
    | None, None => True
    | _, _ => False
    end.


(** The references of a link are inside the volume. *)
Definition dataBlockInRange (st : YFS) (blockID : Z) : Prop :=
  blockID ≠ 0 ∧ blockID <= u32 (totalBlocks (bitmap st)).

Definition extentInRange (st : YFS) (e : Extent) : Prop :=
  StartBlockId e ≠ 0
  ∧ u32 (StartBlockId e + BlockCount e) <= u32 (totalBlocks (bitmap st)).

Definition linkInRange (st : YFS) (link : Z * IndexBlock) : Prop :=
  Forall (dataBlockInRange st) (BlockIds (snd link))
  ∧ Forall (extentInRange st) (Extents (snd link)).



(** A measure for induction over the tree. *)
Fixpoint dirSize (d : DirectoryEntry) : nat :=
  S (map_fold (fun _ sub acc => (dirSize sub + acc)%nat) 0%nat (Directories d)).

(** ** Notions the proofs use *)

(** What a successful allocation establishes between the bitmap before,
    the identifiers handed out and the bitmap after. *)
Definition allocated (bm : BlockBitmap) (ids : list Z) (bm' : BlockBitmap) : Prop :=
  totalBlocks bm' = totalBlocks bm
  ∧ NoDup ids
  ∧ (∀ id, id ∈ ids ->
       1 <= id <= totalBlocks bm
       ∧ isBlockFree bm (id - 1) = true ∧ isBlockFree bm' (id - 1) = false)
  ∧ (∀ q, 0 <= q -> q + 1 ∉ ids -> isBlockFree bm' q = isBlockFree bm q).

(** The image of a payload inside its block. *)
Definition blockImage (bs : Z) (payload : list Z) : list Z :=
  putUint32 (u32 (Z.of_nat (length payload))) ++ payload
    ++ zeros (bs - 4 - Z.of_nat (length payload)).

(** A path component: a string without a slash, and a name that is not
    empty. *)
Fixpoint noSlash (s : string) : Prop :=
  match s with
  | EmptyString => True
  | String c s' => isSlash c = false ∧ noSlash s'
  end.

Definition nonEmpty (s : string) : Prop := s ≠ EmptyString.

(** The components [createDirectoryChain] does not skip. *)
Definition properNames (parts : list string) : list string :=
  filter (fun p => isEmptyString p = false) parts.

(** The index block as [writeIndexBlock] stores it. *)
Definition stamped (st : YFS) (ib : IndexBlock) : IndexBlock :=
  if checksumEnabled st then setIndexCrc ib (expectedIndexCrc ib) else ib.

(** The count [writeFileToBlocks] computes before it truncates it to 32
    bits. *)
Definition blocksNeeded (st : YFS) (payload : list Z) : Z :=
  (Z.of_nat (length payload) + blockSize st - 1) ÷ blockSize st.

(** The file entry [WriteFile] leaves at [path]. *)
Definition writtenEntry (now : Z) (st1 : YFS) (fileName : string)
    (old : option FileEntry) (first len : Z) : FileEntry :=
  match old with
  | None =>
      {| Metadata :=
           updateMetadataChecksum st1
             {| Name := fileName; ModTime := now; CreateTime := now;
                Permissions := 0; Crc32 := 0 |};
         FirstIndexBlockId := first; Size := len;
         IndexBlockCount := 0; DataBlockCount := 0 |}
  | Some o =>
      {| Metadata := updateMetadataChecksum st1 (setModTime (Metadata o) now);
         FirstIndexBlockId := first; Size := len;
         IndexBlockCount := IndexBlockCount o;
         DataBlockCount := DataBlockCount o |}
  end.

(** The chain [WriteFile] hands to [writeFileToBlocks] to be freed. *)
Definition existingChain (target : found) : Z :=
  match foundFile target with
  | Some file => FirstIndexBlockId file
  | None => 0
  end.

(** Between two engine states, the configuration and the capacity of the
    bitmap are the same. *)
Definition steady (st st' : YFS) : Prop :=
  sameConfig st st' ∧ totalBlocks (bitmap st') = totalBlocks (bitmap st).

(** What every volume the engine builds has: the default block size, the
    8192 blocks of [createFileSystem], and proper directory names. *)
Definition wellFormed (st : YFS) : Prop :=
  blockSize st = DefaultBlockSize ∧ totalBlocks (bitmap st) = 8192
  ∧ namesOk (root st).

(** The volumes reached from a fresh one by the mutating operations,
    whatever these return ([CopyFile] and [MoveFile] are made of them, and
    [DeleteDirectory] changes nothing). *)
Inductive reachable : YFS -> Prop :=
| reachable_fresh now : reachable (createFileSystem now)
| reachable_WriteFile fuel now st path payload :
    reachable st -> reachable (snd (WriteFile fuel now st path payload))
| reachable_DeleteFile fuel st path :
    reachable st -> reachable (snd (DeleteFile fuel st path))
| reachable_CreateDirectory now st path :
    reachable st -> reachable (snd (CreateDirectory now st path)).

(** ** Files and the blocks they hold *)

(** The file entry stored under a name in the directory at an access
    path. *)
Definition entryAt (r : DirectoryEntry) (loc : list string) (name : string)
  : option FileEntry :=
  match dirAt loc r with
  | Some d => Files d !! name
  | None => None
  end.

(** A block that lies inside the block file. *)
Definition inFile (st : YFS) (id : Z) : Prop :=
  calculateBlockOffset (blockSize st) id + blockSize st
  <= Z.of_nat (length (blocksFile st)).

(** A block a file holds: inside the capacity, marked used, inside the
    block file. *)
Definition held (st : YFS) (id : Z) : Prop :=
  1 <= id <= totalBlocks (bitmap st)
  ∧ isBlockFree (bitmap st) (id - 1) = false
  ∧ inFile st id.

(** The layout every successful write of a non-empty payload leaves: the
    index block [first] ends the chain and names one data block [d], which
    holds [content]. *)
Definition stored (st : YFS) (first d : Z) (content : list Z) : Prop :=
  ∃ ib,
    readIndexBlock st first = Ok ib
    ∧ BlockIds ib = [d] ∧ Extents ib = [] ∧ NextIndexBlockId ib = 0
    ∧ readBlock (blockSize st) (blocksFile st) d = Ok content
    ∧ held st first ∧ held st d ∧ first ≠ d.

(** The blocks of the chain that starts at [first]: none when there is no
    chain, else the index block and the data blocks it names. *)
Definition holds (st : YFS) (first b : Z) : Prop :=
  first ≠ 0
  ∧ (b = first ∨ ∃ ib, readIndexBlock st first = Ok ib ∧ b ∈ BlockIds ib).

(** The consistency of a volume: it is well formed, every stored file
    entry has a metadata checksum that verifies and either no chain or the
    one-block layout, and no block is held by two entries. *)
Definition sound (st : YFS) : Prop :=
  wellFormed st
  ∧ (∀ loc name f, entryAt (root st) loc name = Some f ->
       verifyMetadataChecksum st (Metadata f) = true
       ∧ (FirstIndexBlockId f = 0
          ∨ ∃ d content, stored st (FirstIndexBlockId f) d content))
  ∧ (∀ loc name f loc' name' f' b,
       entryAt (root st) loc name = Some f -> entryAt (root st) loc' name' = Some f' ->
       holds st (FirstIndexBlockId f) b -> holds st (FirstIndexBlockId f') b ->
       loc = loc' ∧ name = name').

(** Between two states, the blocks outside [F] are as they were: what is
    read from them, and whether they are free. *)
Definition apart (F : list Z) (st st' : YFS) : Prop :=
  blockSize st' = blockSize st ∧ checksumEnabled st' = checksumEnabled st
  ∧ totalBlocks (bitmap st') = totalBlocks (bitmap st)
  ∧ (length (blocksFile st) <= length (blocksFile st'))%nat
  ∧ (∀ id, 1 <= id <= totalBlocks (bitmap st) -> id ∉ F -> inFile st id ->
       readBlock (blockSize st) (blocksFile st') id
       = readBlock (blockSize st) (blocksFile st) id)
  ∧ (∀ id, 1 <= id <= totalBlocks (bitmap st) -> id ∉ F ->
       isBlockFree (bitmap st') (id - 1) = isBlockFree (bitmap st) (id - 1)).

(** What two lookups of a path have in common when the two trees have the
    same directories: the same error, or the same kind of entry at the same
    place. *)
Definition sameDirs (r r' : DirectoryEntry) : Prop :=
  ∀ path,
    match findEntryUnsafe r path, findEntryUnsafe r' path with
    | Ok t, Ok t' =>
        foundIsDir t' = foundIsDir t ∧ foundLoc t' = foundLoc t
        ∧ (foundIsDir t = false ->
           foundFile t'
           = entryAt r' (foundLoc t) (List.last (split (trim path)) EmptyString))
    | Err e, Err e' => e' = e
    | Abort a, Abort a' => a' = a
    | _, _ => False
    end.

(** The effect of an operation on the file at [key] (the components of its
    path): the directories are the same, the other entries are the same,
    the blocks outside [F] are left alone, each block of [F] was free or a
    block of the file at [key], and the entry at [key] afterwards, if it is
    not the one from before untouched, is made of blocks of [F] that were
    free. *)
Definition changes (st st' : YFS) (key : list string) (F : list Z) : Prop :=
  let loc := removelast key in
  let name := List.last key EmptyString in
  apart F st st'
  ∧ sameDirs (root st) (root st')
  ∧ (∀ b, b ∈ F ->
       1 <= b <= totalBlocks (bitmap st)
       ∧ (isBlockFree (bitmap st) (b - 1) = true
          ∨ ∃ f, entryAt (root st) loc name = Some f
                 ∧ holds st (FirstIndexBlockId f) b))
  ∧ (∀ l n, l ≠ loc ∨ n ≠ name -> entryAt (root st') l n = entryAt (root st) l n)
  ∧ (∀ f', entryAt (root st') loc name = Some f' ->
       (entryAt (root st) loc name = Some f'
        ∧ ∀ b, holds st (FirstIndexBlockId f') b -> b ∉ F)
       ∨ (verifyMetadataChecksum st' (Metadata f') = true
          ∧ (FirstIndexBlockId f' = 0
             ∨ ∃ d content,
                 isBlockFree (bitmap st) (FirstIndexBlockId f' - 1) = true
                 ∧ isBlockFree (bitmap st) (d - 1) = true
                 ∧ stored st' (FirstIndexBlockId f') d content))).

(** The metadata checksum of every directory verifies. *)
Definition dirsVerify (st : YFS) : Prop :=
  ∀ loc d, dirAt loc (root st) = Some d ->
    verifyMetadataChecksum st (DirMetadata d) = true.

(** The volumes the engine builds: those reached from a fresh one by the
    mutating operations, whatever these return, when the loops over chains
    are given fuel for one index block and the end of the chain. *)
Inductive built : YFS -> Prop :=
| built_fresh now : built (createFileSystem now)
| built_WriteFile fuel now st path payload :
    (2 <= fuel)%nat -> built st -> built (snd (WriteFile fuel now st path payload))
| built_DeleteFile fuel st path :
    (2 <= fuel)%nat -> built st -> built (snd (DeleteFile fuel st path))
| built_CreateDirectory now st path :
    built st -> built (snd (CreateDirectory now st path)).

(** The two fields that [loadFileSystem] restores from the header agree
    with it. *)
Definition agrees (st : YFS) : Prop :=
  blockSize st = HeaderBlockSize (header st)
  ∧ checksumEnabled st = (0 <? HeaderChecksumEnabled (header st)).

(** * Properties *)

(** ** Machine integers *)

Lemma u32_small x : 0 <= x < 2 ^ 32 -> u32 x = x.
Proof. intros. unfold u32. apply Z.mod_small. lia. Qed.

Lemma u64_small x : 0 <= x < 2 ^ 64 -> u64 x = x.
Proof. intros. unfold u64. apply Z.mod_small. lia. Qed.

Lemma i64_small x : - 2 ^ 63 <= x < 2 ^ 63 -> i64 x = x.
Proof. intros. unfold i64. rewrite Z.mod_small; lia. Qed.

Lemma u32_range x : 0 <= u32 x < 2 ^ 32.
Proof. unfold u32. apply Z.mod_pos_bound. lia. Qed.

(** ** Bits of the bitmap *)

Lemma land_bit b k :
  0 <= k -> (Z.land b (Z.shiftl 1 k) =? 0) = negb (Z.testbit b k).
Proof.
  intros Hk.
  assert (Hb : Z.land b (Z.shiftl 1 k) = if Z.testbit b k then 2 ^ k else 0).
  { apply Z.bits_inj'. intros n Hn.
    rewrite Z.land_spec, Z.shiftl_spec by lia.
    destruct (Z.eq_dec n k) as [->|Hne].
    - rewrite Z.sub_diag. change (Z.testbit 1 0) with true. rewrite andb_true_r.
      destruct (Z.testbit b k) eqn:E; [by rewrite Z.pow2_bits_eqb, Z.eqb_refl by lia|].
      by rewrite Z.bits_0.
    - assert (Z.testbit 1 (n - k) = false) as ->.
      { destruct (Z.ltb_spec n k); [by apply Z.testbit_neg_r; lia|].
        change 1 with (2 ^ 0). rewrite Z.pow2_bits_eqb by lia.
        apply Z.eqb_neq. lia. }
      rewrite andb_false_r.
      destruct (Z.testbit b k); [|by rewrite Z.bits_0].
      rewrite Z.pow2_bits_eqb by lia. symmetry. apply Z.eqb_neq. lia. }
  rewrite Hb. destruct (Z.testbit b k); [|done].
  apply Z.eqb_neq. pose proof (Z.pow_pos_nonneg 2 k). lia.
Qed.

Lemma testbit_set b k j :
  0 <= k -> 0 <= j ->
  Z.testbit (Z.lor b (Z.shiftl 1 k)) j = Z.testbit b j || (j =? k).
Proof.
  intros Hk Hj. rewrite Z.lor_spec, Z.shiftl_spec by lia. f_equal.
  destruct (Z.eqb_spec j k) as [->|Hne].
  - by rewrite Z.sub_diag.
  - destruct (Z.ltb_spec j k); [by apply Z.testbit_neg_r; lia|].
    change 1 with (2 ^ 0). rewrite Z.pow2_bits_eqb by lia. apply Z.eqb_neq. lia.
Qed.

Lemma testbit_clear b k j :
  0 <= k -> 0 <= j ->
  Z.testbit (Z.ldiff b (Z.shiftl 1 k)) j = Z.testbit b j && negb (j =? k).
Proof.
  intros Hk Hj. rewrite Z.ldiff_spec, Z.shiftl_spec by lia. f_equal. f_equal.
  destruct (Z.eqb_spec j k) as [->|Hne].
  - by rewrite Z.sub_diag.
  - destruct (Z.ltb_spec j k); [by apply Z.testbit_neg_r; lia|].
    change 1 with (2 ^ 0). rewrite Z.pow2_bits_eqb by lia. apply Z.eqb_neq. lia.
Qed.

Lemma isBlockFree_bitAt bm p :
  isBlockFree bm p = match bitAt bm p with Some b => negb b | None => false end.
Proof.
  unfold isBlockFree, bitAt. destruct (data bm !! Z.to_nat (p / 8)); simpl; [|done].
  apply land_bit. apply Z.mod_pos_bound. lia.
Qed.

Lemma pos_split p q :
  0 <= p -> 0 <= q -> p ≠ q ->
  Z.to_nat (p / 8) ≠ Z.to_nat (q / 8) ∨ p mod 8 ≠ q mod 8.
Proof.
  intros Hp Hq Hne.
  destruct (Z.eq_dec (p / 8) (q / 8)) as [He|He].
  - right. intros Hm. apply Hne.
    rewrite (Z.div_mod p 8), (Z.div_mod q 8) by lia. lia.
  - left. intros Hn. apply He. apply Z2Nat.inj; [apply Z.div_pos; lia..|done].
Qed.

Lemma expandBitmap_inside rounds bm byteIndex :
  byteIndex < Z.of_nat (length (data bm)) -> expandBitmap rounds bm byteIndex = bm.
Proof.
  intros H. destruct rounds; simpl; [done|].
  destruct (Z.leb_spec (Z.of_nat (length (data bm))) byteIndex); [lia|done].
Qed.

(** Marking a position that lies inside the bitmap only sets its bit. *)
Lemma markBlockUsed_inside bm p :
  0 <= p -> is_Some (bitAt bm p) ->
  data (markBlockUsed bm p)
    = alter (fun b => Z.lor b (Z.shiftl 1 (p mod 8))) (Z.to_nat (p / 8)) (data bm)
  ∧ totalBlocks (markBlockUsed bm p) = totalBlocks bm
  ∧ searchPos (markBlockUsed bm p) = searchPos bm
  ∧ dirty (markBlockUsed bm p) = dirty bm.
Proof.
  intros Hp [b Hb]. unfold bitAt in Hb.
  destruct (data bm !! Z.to_nat (p / 8)) as [x|] eqn:E; [|done].
  apply lookup_lt_Some in E.
  unfold markBlockUsed. rewrite expandBitmap_inside; [done|].
  assert (0 <= p / 8) by (apply Z.div_pos; lia). lia.
Qed.

Lemma bitAt_markBlockUsed bm p q :
  0 <= p -> 0 <= q -> is_Some (bitAt bm p) ->
  bitAt (markBlockUsed bm p) q
    = (fun b => b || (q =? p)) <$> bitAt bm q.
Proof.
  intros Hp Hq Hin.
  destruct (markBlockUsed_inside bm p Hp Hin) as (Hd & _).
  unfold bitAt. rewrite Hd.
  destruct (decide (Z.to_nat (p / 8) = Z.to_nat (q / 8))) as [He|Hne].
  - rewrite <- He, list_lookup_alter_eq.
    destruct (data bm !! Z.to_nat (p / 8)) as [x|]; simpl; [|done].
    pose proof (Z.mod_pos_bound p 8). pose proof (Z.mod_pos_bound q 8).
    rewrite testbit_set by lia. f_equal. f_equal.
    assert (p / 8 = q / 8) by (apply Z2Nat.inj; [apply Z.div_pos; lia..|done]).
    destruct (Z.eqb_spec q p) as [->|Hqp]; [apply Z.eqb_refl|].
    apply Z.eqb_neq. intros Hm. apply Hqp.
    rewrite (Z.div_mod p 8), (Z.div_mod q 8) by lia. lia.
  - rewrite list_lookup_alter_ne by done.
    destruct (data bm !! Z.to_nat (q / 8)) as [x|]; simpl; [|done].
    f_equal. destruct (Z.eqb_spec q p) as [->|]; [done|]. by rewrite orb_false_r.
Qed.

Lemma bitAt_markBlockFree bm p q :
  0 <= p -> 0 <= q ->
  bitAt (markBlockFree bm p) q = (fun b => b && negb (q =? p)) <$> bitAt bm q.
Proof.
  intros Hp Hq. unfold markBlockFree.
  assert (H8 : 0 <= p / 8) by (apply Z.div_pos; lia).
  destruct (Z.ltb_spec (p / 8) (Z.of_nat (length (data bm)))) as [Hin|Hout].
  - unfold bitAt; simpl.
    destruct (decide (Z.to_nat (p / 8) = Z.to_nat (q / 8))) as [He|Hne].
    + rewrite <- He, list_lookup_alter_eq.
      destruct (data bm !! Z.to_nat (p / 8)) as [x|]; simpl; [|done].
      pose proof (Z.mod_pos_bound p 8). pose proof (Z.mod_pos_bound q 8).
      rewrite testbit_clear by lia. f_equal. f_equal. f_equal.
      assert (p / 8 = q / 8) by (apply Z2Nat.inj; [apply Z.div_pos; lia..|done]).
      destruct (Z.eqb_spec q p) as [->|Hqp]; [apply Z.eqb_refl|].
      apply Z.eqb_neq. intros Hm. apply Hqp.
      rewrite (Z.div_mod p 8), (Z.div_mod q 8) by lia. lia.
    + rewrite list_lookup_alter_ne by done.
      destruct (data bm !! Z.to_nat (q / 8)) as [x|]; simpl; [|done].
      f_equal. destruct (Z.eqb_spec q p) as [->|]; [done|]. by rewrite andb_true_r.
  - unfold bitAt.
    destruct (data bm !! Z.to_nat (q / 8)) as [x|] eqn:E; simpl; [|done].
    f_equal. destruct (Z.eqb_spec q p) as [->|]; [|by rewrite andb_true_r].
    apply lookup_lt_Some in E. lia.
Qed.

Lemma isBlockFree_inside bm p : isBlockFree bm p = true -> is_Some (bitAt bm p).
Proof. rewrite isBlockFree_bitAt. destruct (bitAt bm p); [eauto|done]. Qed.

(** ** The allocator *)

Lemma isBlockFree_data bm1 bm2 p :
  data bm1 = data bm2 -> isBlockFree bm1 p = isBlockFree bm2 p.
Proof. unfold isBlockFree. by intros ->. Qed.

Lemma allocated_nil bm : allocated bm [] bm.
Proof.
  split; [done|]. split; [constructor|]. split; [|done].
  intros id Hid. by apply elem_of_nil in Hid.
Qed.

Lemma allocated_data bm ids bm1 bm2 :
  allocated bm ids bm1 -> data bm2 = data bm1 -> totalBlocks bm2 = totalBlocks bm1 ->
  allocated bm ids bm2.
Proof.
  intros (Ht & Hn & Hi & Hf) Hd Ht2. split; [congruence|]. split; [done|]. split.
  - intros id Hid. destruct (Hi id Hid) as (? & ? & ?).
    rewrite (isBlockFree_data bm2 bm1) by done. done.
  - intros q Hq Hnot. rewrite (isBlockFree_data bm2 bm1) by done. by apply Hf.
Qed.

Lemma allocated_app bm ids1 bm1 ids2 bm2 :
  allocated bm ids1 bm1 -> allocated bm1 ids2 bm2 -> allocated bm (ids1 ++ ids2) bm2.
Proof.
  intros (Ht1 & Hn1 & Hi1 & Hf1) (Ht2 & Hn2 & Hi2 & Hf2).
  assert (Hdisj : ∀ id, id ∈ ids1 -> id ∈ ids2 -> False).
  { intros id H1 H2. destruct (Hi1 id H1) as (_ & _ & Hu).
    destruct (Hi2 id H2) as (_ & Hfree & _). congruence. }
  split; [congruence|]. split; [|split].
  - apply NoDup_app. split; [done|]. split; [|done]. intros id H1 H2. eauto.
  - intros id Hid. apply elem_of_app in Hid as [Hid|Hid].
    + destruct (Hi1 id Hid) as (Hr & Hfree & Hu). split; [done|]. split; [done|].
      rewrite Hf2; [done|lia|]. replace (id - 1 + 1) with id by lia. eauto.
    + destruct (Hi2 id Hid) as (Hr & Hfree & Hu). split; [lia|]. split; [|done].
      rewrite <- Hf1; [done|lia|]. replace (id - 1 + 1) with id by lia. eauto.
  - intros q Hq Hnot. rewrite Hf2, Hf1; [done|done| |done|].
    + intros ?. apply Hnot, elem_of_app. by left.
    + intros ?. apply Hnot, elem_of_app. by right.
Qed.

(** Marking one free position inside the capacity. *)
Lemma allocated_mark bm p :
  0 <= p < totalBlocks bm -> isBlockFree bm p = true ->
  allocated bm [p + 1] (markBlockUsed bm p).
Proof.
  intros Hp Hfree.
  pose proof (isBlockFree_inside _ _ Hfree) as Hin.
  destruct (markBlockUsed_inside bm p (proj1 Hp) Hin) as (_ & Ht & _).
  split; [done|]. split; [apply NoDup_singleton|]. split.
  - intros id Hid. apply list_elem_of_singleton in Hid as ->.
    replace (p + 1 - 1) with p by lia. split; [lia|]. split; [done|].
    rewrite isBlockFree_bitAt, bitAt_markBlockUsed by (done || lia).
    destruct Hin as [b ->]. simpl. by rewrite Z.eqb_refl, orb_true_r.
  - intros q Hq Hnot. rewrite !isBlockFree_bitAt, bitAt_markBlockUsed by (done || lia).
    destruct (bitAt bm q); simpl; [|done].
    destruct (Z.eqb_spec q p) as [->|]; [|by rewrite orb_false_r].
    exfalso. apply Hnot. by apply list_elem_of_singleton.
Qed.

(** The marking loop of the contiguous path. *)
Lemma markRun_allocated bm0 pos js : ∀ bm acc,
  totalBlocks bm0 < 2 ^ 32 ->
  allocated bm0 acc bm ->
  NoDup (map (fun j => u64 (pos + j)) js) ->
  (∀ j, j ∈ js ->
     u64 (pos + j) < totalBlocks bm0 ∧ isBlockFree bm0 (u64 (pos + j)) = true
     ∧ u64 (pos + j) + 1 ∉ acc) ->
  let r := fold_left
             (fun a j => (markBlockUsed (fst a) (u64 (pos + j)),
                          snd a ++ [u32 (u64 (pos + j) + 1)])) js (bm, acc) in
  allocated bm0 (snd r) (fst r) ∧ length (snd r) = (length acc + length js)%nat.
Proof.
  induction js as [|j js IH]; intros bm acc Hlt Hpost Hnd Hjs; simpl.
  - split; [done|lia].
  - apply NoDup_cons in Hnd as [Hj Hnd].
    destruct (Hjs j) as (Hjt & Hjf & Hja); [by left|].
    assert (0 <= u64 (pos + j)) by (apply Z.mod_pos_bound; lia).
    rewrite (u32_small (u64 (pos + j) + 1)) by lia.
    destruct Hpost as (Ht & Hn & Hi & Hf).
    assert (Hstep : allocated bm0 (acc ++ [u64 (pos + j) + 1])
                      (markBlockUsed bm (u64 (pos + j)))).
    { apply (allocated_app _ _ bm); [done|].
      apply allocated_mark; [lia|]. rewrite Hf; done. }
    destruct (IH _ _ Hlt Hstep Hnd) as [IH1 IH2].
    + intros j' Hj'. destruct (Hjs j') as (? & ? & ?); [by right|].
      split; [done|]. split; [done|]. intros Hin.
      apply elem_of_app in Hin as [Hin|Hin]; [done|].
      apply list_elem_of_singleton in Hin. apply Hj.
      apply list_elem_of_fmap. exists j'. split; [lia|done].
    + split; [done|]. rewrite IH2, length_app. simpl. lia.
Qed.

Lemma canAllocate_true bm pos count j :
  canAllocate bm pos count = true -> 0 <= j < count ->
  u64 (pos + j) < totalBlocks bm ∧ isBlockFree bm (u64 (pos + j)) = true.
Proof.
  unfold canAllocate. rewrite forallb_forall. intros H Hj.
  specialize (H j). rewrite andb_true_iff, negb_true_iff in H.
  destruct H as [H1 H2].
  - apply list_elem_of_In, elem_of_seqZ. lia.
  - split; [|done]. by apply Z.leb_gt.
Qed.

(** One round of the scattered path. *)
Lemma allocateOne_allocated bm0 bm ids :
  totalBlocks bm0 < 2 ^ 32 ->
  allocated bm0 ids bm ->
  allocated bm0 (snd (allocateOne (bm, ids))) (fst (allocateOne (bm, ids))).
Proof.
  intros Hlt Hpost. unfold allocateOne; simpl.
  destruct (find _ _) as [i|] eqn:E; simpl; [|done].
  apply find_some in E as [Hi Hfree].
  apply list_elem_of_In, elem_of_seqZ in Hi.
  set (pos := u64 (searchPos bm + i) mod totalBlocks bm) in *.
  assert (0 <= pos < totalBlocks bm) by (apply Z.mod_pos_bound; lia).
  assert (totalBlocks bm = totalBlocks bm0) by apply Hpost.
  rewrite (u32_small (pos + 1)) by lia.
  apply (allocated_app _ _ bm); [done|].
  eapply allocated_data; [by apply allocated_mark|done..].
Qed.

Lemma allocateRounds_allocated bm0 (rounds : list Z) : ∀ bm ids,
  totalBlocks bm0 < 2 ^ 32 ->
  allocated bm0 ids bm ->
  let r := fold_left (fun acc _ => allocateOne acc) rounds (bm, ids) in
  allocated bm0 (snd r) (fst r).
Proof.
  induction rounds as [|x rounds IH]; intros bm ids Hlt Hpost; simpl; [done|].
  pose proof (allocateOne_allocated _ _ _ Hlt Hpost) as Hstep.
  destruct (allocateOne (bm, ids)) as [bm1 ids1]. by apply IH.
Qed.

Lemma allocateBlocks_allocated bm count ids bm' :
  0 <= totalBlocks bm < 2 ^ 32 -> 0 <= count < 2 ^ 32 ->
  allocateBlocks bm count = (Ok ids, bm') ->
  allocated bm ids bm' ∧ Z.of_nat (length ids) = count.
Proof.
  intros Ht Hc. unfold allocateBlocks.
  destruct (Z.eqb_spec count 0) as [->|Hc0].
  { intros [= <- <-]. split; [apply allocated_nil|done]. }
  destruct (find _ _) as [i|] eqn:E.
  - apply find_some in E as [Hi Hfree].
    apply list_elem_of_In, elem_of_seqZ in Hi.
    apply andb_true_iff in Hfree as [_ Hcan].
    set (pos := u64 (searchPos bm + i) mod totalBlocks bm) in *.
    assert (Hpos : 0 <= pos < totalBlocks bm) by (apply Z.mod_pos_bound; lia).
    unfold markRun.
    pose proof (markRun_allocated bm pos (seqZ 0 count) bm [] (proj2 Ht)
                  (allocated_nil bm)) as Hrun.
    simpl in Hrun.
    destruct (fold_left _ _ _) as [bm1 ids1]. intros [= <- <-].
    destruct Hrun as [Hpost Hlen].
    + apply NoDup_fmap_2_strong; [|apply NoDup_seqZ].
      intros x y Hx Hy. apply elem_of_seqZ in Hx, Hy.
      rewrite !u64_small by lia. lia.
    + intros j Hj. apply elem_of_seqZ in Hj.
      destruct (canAllocate_true _ _ _ j Hcan) as [? ?]; [lia|].
      split; [done|]. split; [done|]. apply not_elem_of_nil.
    + split; [by eapply allocated_data|].
      simpl in Hlen. rewrite Hlen, length_seqZ. lia.
  - destruct (Z.ltb_spec 1 count); [|done].
    unfold allocateBlocksIndividual.
    pose proof (allocateRounds_allocated bm (seqZ 0 count) bm [] (proj2 Ht)
                  (allocated_nil bm)) as Hrun. simpl in Hrun.
    destruct (fold_left _ _ _) as [bm1 ids1].
    destruct (Z.eqb_spec (Z.of_nat (length ids1)) count); [|done].
    intros [= <- <-]. split; [by eapply allocated_data|done].
Qed.

(** Without a free position inside the capacity a request for one block is
    refused, and the bitmap is left as it was: nothing grows. *)
Lemma allocateBlocks_full bm :
  (∀ p, 0 <= p < totalBlocks bm -> isBlockFree bm p = false) ->
  allocateBlocks bm 1 = (Err ErrNoFreeBlocks, bm).
Proof.
  intros Hfull. unfold allocateBlocks. simpl.
  destruct (find _ _) as [i|] eqn:E; [|done].
  apply find_some in E as [Hi Hfree].
  apply list_elem_of_In, elem_of_seqZ in Hi.
  apply andb_true_iff in Hfree as [Hfree _].
  rewrite Hfull in Hfree; [done|]. apply Z.mod_pos_bound. lia.
Qed.

(** ** The block device *)

Lemma write_at_read_back file off buf :
  0 <= off ->
  read_at (write_at file off buf) off (Z.of_nat (length buf)) = buf.
Proof.
  intros Hoff. unfold read_at, write_at. rewrite Nat2Z.id.
  set (o := Z.to_nat off).
  rewrite app_assoc.
  rewrite drop_app_length'.
  - by rewrite take_app_length.
  - rewrite length_app, length_take, length_replicate. lia.
Qed.

Lemma write_at_read_other file off buf off' n :
  0 <= off -> 0 <= off' -> 0 <= n ->
  off' + n <= off ∨ off + Z.of_nat (length buf) <= off' ->
  off' + n <= Z.of_nat (length file) ->
  read_at (write_at file off buf) off' n = read_at file off' n.
Proof.
  intros Hoff Hoff' Hn Hdisj Hin. unfold read_at, write_at.
  set (o := Z.to_nat off). set (o' := Z.to_nat off'). set (k := Z.to_nat n).
  assert (Hk : (o' + k <= length file)%nat) by lia.
  destruct Hdisj as [Hbefore|Hafter].
  - assert (Hle : (o' + k <= o)%nat) by lia.
    rewrite drop_app_le by (rewrite length_take; lia).
    rewrite take_app_le by (rewrite length_drop, length_take; lia).
    rewrite !take_drop_commute, take_take. do 2 f_equal. lia.
  - assert (Hle : (o + length buf <= o')%nat) by lia.
    replace (o - length file)%nat with 0%nat by lia. simpl.
    rewrite app_assoc.
    rewrite drop_app_ge by (rewrite length_app, length_take; lia).
    rewrite length_app, length_take, drop_drop. do 2 f_equal. lia.
Qed.

Lemma write_at_length file off buf :
  0 <= off -> off + Z.of_nat (length buf) <= Z.of_nat (length (write_at file off buf)).
Proof.
  intros Hoff. unfold write_at.
  rewrite !length_app, length_take, length_replicate. lia.
Qed.

Lemma write_at_length_mono file off buf :
  (length file <= length (write_at file off buf))%nat.
Proof.
  unfold write_at. rewrite !length_app, length_take, length_replicate, length_drop. lia.
Qed.

Lemma getUint32_putUint32 n rest :
  0 <= n < 2 ^ 32 -> getUint32 (putUint32 n ++ rest) = n.
Proof.
  clear metadataChecksum indexChecksum marshalIndexBlock unmarshalIndexBlock.
  intros Hn. unfold putUint32, getUint32. simpl.
  change (2 ^ 32) with 4294967296 in Hn. Z.div_mod_to_equations. lia.
Qed.

Lemma length_zeros n : 0 <= n -> Z.of_nat (length (zeros n)) = n.
Proof. intros. unfold zeros. rewrite length_replicate. lia. Qed.

(** The offset of a block when nothing wraps. *)
Lemma calculateBlockOffset_plain bs id :
  0 <= bs < 2 ^ 31 -> 1 <= id < 2 ^ 32 ->
  calculateBlockOffset bs id = HeaderSize + bs * (id - 1).
Proof.
  intros Hbs Hid. unfold calculateBlockOffset, NullBlockID, HeaderSize.
  destruct (Z.eqb_spec id 0); [lia|].
  rewrite u32_small by lia.
  assert (0 <= bs * (id - 1) <= (2 ^ 31 - 1) * (2 ^ 32 - 1)) by nia.
  rewrite (i64_small (bs * (id - 1))) by lia. rewrite i64_small; lia.
Qed.

Lemma length_blockImage bs payload :
  Z.of_nat (length payload) <= bs - 4 ->
  Z.of_nat (length (blockImage bs payload)) = bs.
Proof.
  intros H. unfold blockImage. rewrite !length_app. simpl.
  pose proof (length_zeros (bs - 4 - Z.of_nat (length payload))). lia.
Qed.

Lemma writeBlock_Ok bs file id payload file' :
  writeBlock bs file id payload = Ok file' ->
  0 <= calculateBlockOffset bs id
  ∧ Z.of_nat (length payload) <= bs - 4
  ∧ file' = write_at file (calculateBlockOffset bs id) (blockImage bs payload).
Proof.
  unfold writeBlock.
  destruct (Z.ltb_spec (calculateBlockOffset bs id) 0); [done|].
  destruct (Z.ltb_spec (bs - 4) (Z.of_nat (length payload))); [done|].
  intros [= <-]. done.
Qed.

(** Reading a block whose bytes are the image of a payload. *)
Lemma readBlock_image bs file id payload :
  bs < 2 ^ 32 ->
  0 <= calculateBlockOffset bs id ->
  Z.of_nat (length payload) <= bs - 4 ->
  read_at file (calculateBlockOffset bs id) bs = blockImage bs payload ->
  readBlock bs file id = Ok payload.
Proof.
  intros Hbs Hoff Hlen Hread. unfold readBlock.
  destruct (Z.ltb_spec (calculateBlockOffset bs id) 0); [lia|].
  rewrite Hread, length_blockImage by done.
  replace (0 <? bs) with true by (symmetry; apply Z.ltb_lt; lia).
  replace (bs =? 0) with false by (symmetry; apply Z.eqb_neq; lia).
  cbn [andb]. replace (bs <? 4) with false by (symmetry; apply Z.ltb_ge; lia).
  assert (Hlen32 : u32 (Z.of_nat (length payload)) = Z.of_nat (length payload))
    by (apply u32_small; lia).
  assert (Hget : getUint32 (blockImage bs payload ++ zeros (bs - bs))
                 = Z.of_nat (length payload)).
  { unfold blockImage. rewrite <- app_assoc, Hlen32.
    apply getUint32_putUint32. lia. }
  rewrite Hget, Hlen32, (u32_small (bs - 4)) by lia.
  replace (bs - 4 <? Z.of_nat (length payload)) with false
    by (symmetry; apply Z.ltb_ge; lia).
  f_equal. unfold blockImage. rewrite <- !app_assoc.
  change (drop 4 (putUint32 ?n ++ ?r)) with r.
  rewrite take_app_length'; [done|lia].
Qed.

Lemma readBlock_after_write bs file id payload file' :
  bs < 2 ^ 32 ->
  writeBlock bs file id payload = Ok file' ->
  readBlock bs file' id = Ok payload.
Proof.
  intros Hbs Hw. apply writeBlock_Ok in Hw as (Hoff & Hlen & ->).
  apply readBlock_image; [done..|].
  pose proof (write_at_read_back file _ (blockImage bs payload) Hoff) as Hback.
  by rewrite length_blockImage in Hback.
Qed.

(** A write to another block leaves a block that lies inside the file
    as it was. *)
Lemma readBlock_other_write bs file id id' payload file' :
  0 <= bs < 2 ^ 31 -> 1 <= id < 2 ^ 32 -> 1 <= id' < 2 ^ 32 -> id ≠ id' ->
  calculateBlockOffset bs id + bs <= Z.of_nat (length file) ->
  writeBlock bs file id' payload = Ok file' ->
  readBlock bs file' id = readBlock bs file id.
Proof.
  intros Hbs Hid Hid' Hne Hin Hw.
  apply writeBlock_Ok in Hw as (Hoff & Hlen & ->).
  unfold readBlock.
  rewrite write_at_read_other; [done| | |lia| |done].
  - done.
  - rewrite calculateBlockOffset_plain by done. unfold HeaderSize. nia.
  - rewrite length_blockImage by done.
    rewrite !calculateBlockOffset_plain by done. unfold HeaderSize. nia.
Qed.

(** ** Paths *)

Lemma append_nil_l (s : string) : (EmptyString +:+ s)%string = s.
Proof. reflexivity. Qed.

Lemma append_cons c (s1 s2 : string) :
  (String c s1 +:+ s2)%string = String c (s1 +:+ s2).
Proof. reflexivity. Qed.

Lemma split_not_nil s : split s ≠ [].
Proof.
  destruct s as [|c s]; simpl; [done|].
  destruct (isSlash c); [done|]. by destruct (split s).
Qed.

Lemma split_noSlash s : Forall noSlash (split s).
Proof.
  induction s as [|c s IH]; simpl.
  - by repeat constructor.
  - destruct (isSlash c) eqn:E; [by constructor|].
    destruct (split s) as [|p ps]; [by repeat constructor|].
    apply Forall_cons in IH as [Hp Hps]. by repeat constructor.
Qed.

Lemma split_one p : noSlash p -> split p = [p].
Proof.
  induction p as [|c p IH]; simpl; [done|].
  intros [Hc Hp]. by rewrite Hc, IH.
Qed.

Lemma split_app_slash p s :
  noSlash p -> split (p +:+ "/" +:+ s) = p :: split s.
Proof.
  induction p as [|c p IH]; [done|].
  intros [Hc Hp]. rewrite append_cons. simpl. by rewrite Hc, IH.
Qed.

Lemma split_join ps : ps ≠ [] -> Forall noSlash ps -> split (join ps) = ps.
Proof.
  induction ps as [|p ps IH]; [done|]. intros _ Hall.
  apply Forall_cons in Hall as [Hp Hps]. simpl.
  destruct ps as [|q ps]; [by apply split_one|].
  rewrite split_app_slash by done. f_equal. by apply IH.
Qed.

Lemma trimRight_noSlash p : noSlash p -> trimRight p = p.
Proof.
  induction p as [|c p IH]; simpl; [done|].
  intros [Hc Hp]. rewrite IH by done. destruct p; [by rewrite Hc|done].
Qed.

Lemma trimRight_app s1 s2 :
  trimRight s2 = s2 -> nonEmpty s2 -> trimRight (s1 +:+ s2) = (s1 +:+ s2)%string.
Proof.
  intros H2 Hne. induction s1 as [|c s1 IH]; [done|].
  rewrite append_cons. simpl.
  rewrite IH. destruct (s1 +:+ s2)%string eqn:E; [|done].
  destruct s1; [by rewrite append_nil_l in E; subst|done].
Qed.

Lemma join_nonEmpty ps :
  ps ≠ [] -> Forall nonEmpty ps -> nonEmpty (join ps).
Proof.
  destruct ps as [|p ps]; [done|]. intros _ Hall.
  apply Forall_cons in Hall as [Hp _]. simpl.
  destruct ps; [done|]. by destruct p.
Qed.

Lemma trimRight_join ps :
  Forall noSlash ps -> Forall nonEmpty ps -> trimRight (join ps) = join ps.
Proof.
  induction ps as [|p ps IH]; [done|]. intros Hs Hn.
  apply Forall_cons in Hs as [Hp Hs]. apply Forall_cons in Hn as [Hpn Hn].
  simpl. destruct ps as [|q ps]; [by apply trimRight_noSlash|].
  pose proof (join_nonEmpty (q :: ps) ltac:(done) Hn) as Hj.
  apply trimRight_app; [|done].
  change ("/" +:+ join (q :: ps))%string with (String "/" (join (q :: ps))).
  cbn [trimRight]. rewrite IH by done. by destruct (join (q :: ps)).
Qed.

Lemma trimLeft_join ps :
  Forall noSlash ps -> Forall nonEmpty ps -> trimLeft (join ps) = join ps.
Proof.
  destruct ps as [|p ps]; [done|]. intros Hs Hn.
  apply Forall_cons in Hs as [Hp _]. apply Forall_cons in Hn as [Hpn _].
  simpl. destruct p as [|c p]; [done|]. destruct Hp as [Hc _].
  destruct ps; simpl; by rewrite Hc.
Qed.

(** A list of proper names survives the round through [Join], [Trim] and
    [Split]. *)
Lemma split_trim_join ps :
  ps ≠ [] -> Forall noSlash ps -> Forall nonEmpty ps ->
  trim (join ps) = join ps ∧ split (trim (join ps)) = ps.
Proof.
  intros Hne Hs Hn. unfold trim.
  rewrite trimLeft_join, trimRight_join by done. split; [done|].
  by apply split_join.
Qed.

Lemma isEmptyString_false s : nonEmpty s -> isEmptyString s = false.
Proof. by destruct s. Qed.

Lemma isEmptyString_true s : isEmptyString s = true -> s = EmptyString.
Proof. by destruct s. Qed.

(** What [Trim] removes are empty components at both ends of the split. *)
Lemma split_trimLeft s :
  ∃ k, split s = replicate k EmptyString ++ split (trimLeft s).
Proof.
  induction s as [|c s [k IH]]; simpl; [by exists 0%nat|].
  destruct (isSlash c) eqn:E.
  - exists (S k). simpl. by rewrite IH.
  - exists 0%nat. simpl. by rewrite E.
Qed.

Lemma split_trimRight s :
  ∃ k, split s =
       match trimRight s with
       | EmptyString => replicate (S k) EmptyString
       | t => split t ++ replicate k EmptyString
       end.
Proof.
  induction s as [|c s [k IH]]; simpl; [by exists 0%nat|].
  destruct (trimRight s) as [|a t] eqn:Et.
  - destruct (isSlash c) eqn:E.
    + exists (S k). by rewrite IH.
    + exists k. rewrite IH. simpl. by rewrite E.
  - exists k. remember (String a t) as t'. simpl.
    destruct (isSlash c) eqn:E; [by rewrite IH|].
    rewrite IH. pose proof (split_not_nil t').
    by destruct (split t').
Qed.

Lemma properNames_replicate k : properNames (replicate k EmptyString) = [].
Proof.
  induction k as [|k IH]; [done|]. unfold properNames in *.
  change (replicate (S k) EmptyString) with (EmptyString :: replicate k EmptyString).
  by rewrite filter_cons_False by (simpl; congruence).
Qed.

Lemma properNames_trim s :
  nonEmpty (trim s) -> properNames (split s) = properNames (split (trim s)).
Proof.
  intros Hne. unfold trim in *.
  destruct (split_trimLeft s) as [k1 ->].
  destruct (split_trimRight (trimLeft s)) as [k2 H2].
  destruct (trimRight (trimLeft s)) as [|a t] eqn:Et; [done|].
  rewrite H2. unfold properNames.
  by rewrite !filter_app, !(properNames_replicate), app_nil_r.
Qed.



(** ** Frames *)

Lemma sameConfig_refl st : sameConfig st st.
Proof. done. Qed.

Lemma sameConfig_trans st1 st2 st3 :
  sameConfig st1 st2 -> sameConfig st2 st3 -> sameConfig st1 st3.
Proof. intros (? & ? & ?) (? & ? & ?). repeat split; congruence. Qed.

Lemma sameDevice_refl st : sameDevice st st.
Proof. done. Qed.

Lemma sameDevice_trans st1 st2 st3 :
  sameDevice st1 st2 -> sameDevice st2 st3 -> sameDevice st1 st3.
Proof.
  intros [? ?] [? ?]. split; [by eapply sameConfig_trans|congruence].
Qed.

Lemma sameDevice_setBitmap st bm : sameDevice st (setBitmap st bm).
Proof. done. Qed.

Lemma sameConfig_setBlocksFile st f : sameConfig st (setBlocksFile st f).
Proof. done. Qed.

Lemma sameDevice_release st ids : sameDevice st (release st ids).
Proof. done. Qed.

Lemma sameDevice_allocate st count : sameDevice st (snd (allocate st count)).
Proof. unfold allocate. by destruct (allocateBlocks _ _). Qed.

Lemma readIndexBlock_sameDevice st st' id :
  sameDevice st st' -> readIndexBlock st' id = readIndexBlock st id.
Proof. intros [(_ & Hb & Hc) Hf]. unfold readIndexBlock. by rewrite Hb, Hc, Hf. Qed.

Lemma sameDevice_releases st (es : list Extent) :
  sameDevice st (fold_left (fun s e => release s (extentBlocks e)) es st).
Proof.
  revert st. induction es as [|e es IH]; intros st; simpl; [done|].
  eapply sameDevice_trans; [|apply IH]. apply sameDevice_release.
Qed.

Lemma sameDevice_freeFileBlocks fuel : ∀ st id,
  sameDevice st (snd (freeFileBlocks fuel st id)).
Proof.
  induction fuel as [|fuel IH]; intros st id; simpl; [done|].
  destruct (id =? NullBlockID); [done|].
  destruct (readIndexBlock st id) as [ib| |]; [|done..].
  eapply sameDevice_trans; [|apply IH].
  eapply sameDevice_trans; [|apply sameDevice_release].
  eapply sameDevice_trans; [|apply sameDevice_releases].
  apply sameDevice_release.
Qed.

Lemma writeIndexBlock_sameConfig st id ib :
  sameConfig st (snd (writeIndexBlock st id ib)).
Proof. unfold writeIndexBlock. by destruct (writeBlock _ _ _ _). Qed.

(** ** The directory tree *)

Lemma dirAt_app l1 l2 d :
  dirAt (l1 ++ l2) d = dirAt l1 d ≫= dirAt l2.
Proof.
  revert d. induction l1 as [|n l1 IH]; intros d; simpl; [done|].
  destruct (Directories d !! n); [apply IH|done].
Qed.

Lemma dirAt_removelast parts d cur :
  parts ≠ [] -> dirAt parts d = Some cur ->
  ∃ cur', dirAt (removelast parts) d = Some cur'
          ∧ Directories cur' !! List.last parts EmptyString = Some cur.
Proof.
  intros Hne. rewrite (app_removelast_last EmptyString Hne) at 1.
  rewrite dirAt_app. destruct (dirAt (removelast parts) d) as [cur'|]; [|done].
  simpl. destruct (Directories cur' !! _) eqn:E; [|done].
  intros [= <-]. eauto.
Qed.

Lemma dirAt_namesOk loc : ∀ d d',
  namesOk d -> dirAt loc d = Some d' -> Forall nonEmpty loc ∧ namesOk d'.
Proof.
  induction loc as [|n loc IH]; intros d d' Hok; simpl.
  - intros [= <-]. by split.
  - destruct (Directories d !! n) as [sub|] eqn:E; [|done]. intros Hat.
    destruct Hok as [d Hempty Hsub].
    destruct (IH _ _ (Hsub _ _ E) Hat) as [Hall Hd']. split; [|done].
    constructor; [|done]. intros ->. congruence.
Qed.

Lemma dirAt_updateDir f loc : ∀ d,
  dirAt loc (updateDir f loc d) = f <$> dirAt loc d.
Proof.
  induction loc as [|n loc IH]; intros d; simpl; [done|].
  destruct (Directories d !! n) as [sub|] eqn:E; simpl.
  - rewrite lookup_insert_eq. apply IH.
  - by rewrite E.
Qed.

Lemma dirAt_setDirMetadata loc d m :
  dirAt loc (setDirMetadata d m)
  = match loc with
    | [] => Some (setDirMetadata d m)
    | _ :: _ => dirAt loc d
    end.
Proof. by destruct loc. Qed.

(** ** Lookup *)

Lemma findEntryUnsafe_not_dir r path target :
  findEntryUnsafe r path = Ok target -> foundIsDir target = false ->
  let parts := split (trim path) in
  nonEmpty (trim path)
  ∧ foundLoc target = removelast parts
  ∧ dirAt (removelast parts) r = Some (foundDir target)
  ∧ Directories (foundDir target) !! List.last parts EmptyString = None
  ∧ foundFile target = Files (foundDir target) !! List.last parts EmptyString.
Proof.
  unfold findEntryUnsafe.
  destruct (isEmptyString (trim path)) eqn:E.
  { intros [= <-]. done. }
  destruct (dirAt _ r) as [cur|]; [|done].
  destruct (Directories cur !! _) eqn:Ed.
  { intros [= <-]. done. }
  intros [= <-] _. simpl. split; [|done]. by destruct (trim path).
Qed.

Lemma findEntryUnsafe_at r path cur :
  nonEmpty (trim path) ->
  let parts := split (trim path) in
  dirAt (removelast parts) r = Some cur ->
  Directories cur !! List.last parts EmptyString = None ->
  findEntryUnsafe r path
  = Ok {| foundLoc := removelast parts; foundDir := cur;
          foundFile := Files cur !! List.last parts EmptyString;
          foundIsDir := false |}.
Proof.
  intros Hne parts Hat Hnone. unfold findEntryUnsafe.
  rewrite isEmptyString_false by done. fold parts. by rewrite Hat, Hnone.
Qed.

(** The parent lookup of [WriteFile]: on a tree with proper names, the
    directories walked by the first lookup are found again. *)
Lemma findEntryUnsafe_parent r ps cur :
  namesOk r -> Forall noSlash ps -> dirAt ps r = Some cur ->
  ∃ parent, findEntryUnsafe r (join ps) = Ok parent ∧ foundLoc parent = ps.
Proof.
  intros Hok Hns Hat.
  destruct (dirAt_namesOk _ _ _ Hok Hat) as [Hne _].
  destruct (decide (ps = [])) as [->|Hnil].
  { eexists. split; [reflexivity|done]. }
  destruct (split_trim_join ps Hnil Hns Hne) as [Htrim Hsplit].
  destruct (dirAt_removelast _ _ _ Hnil Hat) as (cur' & Hat' & Hlast).
  unfold findEntryUnsafe.
  rewrite isEmptyString_false by (rewrite Htrim; by apply join_nonEmpty).
  rewrite Hsplit, Hat', Hlast. eexists. split; [reflexivity|]. simpl.
  symmetry. by apply app_removelast_last.
Qed.

Lemma removelast_Forall {A} (P : A -> Prop) (l : list A) :
  Forall P l -> Forall P (removelast l).
Proof.
  induction l as [|x l IH]; [done|]. intros Hall.
  apply Forall_cons in Hall as [Hx Hl]. simpl.
  destruct l; [constructor|]. constructor; [done|by apply IH].
Qed.

(** ** Index blocks *)

Lemma expectedIndexCrc_setIndexCrc ib c :
  expectedIndexCrc (setIndexCrc ib c) = expectedIndexCrc ib.
Proof. done. Qed.

Lemma expectedCrc_setCrc m c : expectedCrc (setCrc m c) = expectedCrc m.
Proof. done. Qed.

Lemma verify_updated st st' m :
  checksumEnabled st' = checksumEnabled st ->
  verifyMetadataChecksum st' (updateMetadataChecksum st m) = true.
Proof.
  intros He. unfold verifyMetadataChecksum, updateMetadataChecksum. rewrite He.
  destruct (checksumEnabled st); [|done]. simpl. apply Z.eqb_refl.
Qed.

Lemma writeIndexBlock_Ok st id ib st' :
  writeIndexBlock st id ib = (Ok tt, st') ->
  ∃ f, writeBlock (blockSize st) (blocksFile st) id (marshalIndexBlock (stamped st ib))
       = Ok f
       ∧ st' = setBlocksFile st f.
Proof.
  unfold writeIndexBlock. fold (stamped st ib).
  destruct (writeBlock _ _ _ _) as [f| |]; [|done..].
  intros [= <-]. eauto.
Qed.

Lemma typed_stamped st ib :
  typedIndexBlock ib -> typedIndexBlock (stamped st ib).
Proof.
  intros (? & ? & ? & ? & ? & ? & ?). unfold stamped.
  destruct (checksumEnabled st); [|done].
  refine (conj _ (conj _ (conj _ (conj _ (conj _ (conj _ _)))))); try done.
  apply u32_range.
Qed.

Lemma readIndexBlock_of_bytes st id ib :
  codecRoundTrip -> typedIndexBlock ib ->
  readBlock (blockSize st) (blocksFile st) id = Ok (marshalIndexBlock (stamped st ib)) ->
  readIndexBlock st id = Ok (stamped st ib).
Proof.
  intros Hcodec Hty Hread. unfold readIndexBlock.
  rewrite Hread, Hcodec by by apply typed_stamped.
  unfold stamped. destruct (checksumEnabled st) eqn:E; simpl.
  - rewrite Z.eqb_refl. by rewrite andb_false_r.
  - done.
Qed.

(** ** Writing a payload *)

Lemma createIndexBlocks_single st d first st' :
  createIndexBlocks st [d] = (Ok first, st') ->
  ∃ ids bm1 f,
    allocateBlocks (bitmap st) 1 = (Ok ids, bm1)
    ∧ first = List.hd 0 ids
    ∧ writeBlock (blockSize st) (blocksFile st) first
        (marshalIndexBlock
           (stamped st {| BlockIds := [d]; Extents := []; NextIndexBlockId := 0;
                          DataSize := u32 (1 * blockSize st); IndexCrc32 := 0 |}))
      = Ok f
    ∧ st' = setBlocksFile (setBitmap st bm1) f.
Proof.
  unfold createIndexBlocks.
  replace (chunksOf (length [d]) (Z.to_nat MaxBlocksPerIndex) [d]) with [[d]]
    by (by vm_compute).
  cbn [createIndexLoop]. unfold allocate.
  destruct (allocateBlocks (bitmap st) 1) as [[ids| |] bm1] eqn:Ea; [|done..].
  destruct (writeIndexBlock _ _ _) as [[[]| |] st2] eqn:Ew; [|done..].
  cbn [createIndexLoop app linkIndexBlocks List.hd].
  intros [= <- <-].
  apply writeIndexBlock_Ok in Ew as (f & Hw & ->).
  exists ids, bm1, f. done.
Qed.

Lemma freeFileBlocks_ignored fuel st existing (x first : Z) st' :
  match freeFileBlocks fuel st existing with
  | (Abort r, st1) => (Abort r, st1)
  | (_, st1) => (Ok x, st1)
  end = (Ok first, st') ->
  sameDevice st st' ∧ first = x.
Proof.
  pose proof (sameDevice_freeFileBlocks fuel st existing) as Hs.
  destruct (freeFileBlocks fuel st existing) as [[[]| |] st1]; [| |done];
    by intros [= <- <-].
Qed.

Lemma blocksNeeded_fits st payload :
  0 < blockSize st ->
  0 < Z.of_nat (length payload) <= (2 ^ 32 - 1) * blockSize st ->
  u32 (blocksNeeded st payload) ≠ 0.
Proof.
  intros Hbs Hlen. unfold blocksNeeded.
  set (len := Z.of_nat (length payload)) in *. set (bs := blockSize st) in *.
  assert (Hneeded : 1 <= (len + bs - 1) ÷ bs <= 2 ^ 32 - 1).
  { rewrite Z.quot_div_nonneg by lia. split.
    - apply Z.div_le_lower_bound; lia.
    - assert ((len + bs - 1) / bs < 2 ^ 32); [|lia].
      apply Z.div_lt_upper_bound; [lia|]. nia. }
  rewrite u32_small; lia.
Qed.

(** A successful write of a non-empty payload whose block count is not
    truncated to zero: the payload went into one data block, named by one
    index block that ends the chain. *)
Lemma writeFileToBlocks_stored fuel st payload existing first st' :
  codecRoundTrip -> addressable st ->
  0 < Z.of_nat (length payload) ->
  u32 (blocksNeeded st payload) ≠ 0 ->
  writeFileToBlocks fuel st payload existing = (Ok first, st') ->
  sameConfig st st'
  ∧ 1 <= first <= totalBlocks (bitmap st)
  ∧ Z.of_nat (length payload) <= blockSize st - 4
  ∧ ∃ d ib,
      readIndexBlock st' first = Ok ib
      ∧ BlockIds ib = [d] ∧ Extents ib = [] ∧ NextIndexBlockId ib = 0
      ∧ 1 <= d <= totalBlocks (bitmap st)
      ∧ readBlock (blockSize st') (blocksFile st') d = Ok payload.
Proof.
  intros Hcodec [Hbs Htot] Hlen Hcount. unfold writeFileToBlocks.
  destruct (Z.eqb_spec (Z.of_nat (length payload)) 0); [lia|].
  destruct (Z.eqb_spec (blockSize st) 0); [lia|].
  fold (blocksNeeded st payload). unfold blocksNeeded in *.
  set (len := Z.of_nat (length payload)) in *. set (bs := blockSize st) in *.
  pose proof (u32_range ((len + bs - 1) ÷ bs)) as Hcr.
  unfold allocate.
  destruct (allocateBlocks (bitmap st) _) as [[ids| |] bm1] eqn:Ea; [|done..].
  apply allocateBlocks_allocated in Ea as [Hal Hn]; [|done|lia].
  destruct ids as [|d rest]; [simpl in Hn; lia|].
  cbn [writeDataBlocks].
  change (blockSize (setBitmap st bm1)) with bs.
  change (blocksFile (setBitmap st bm1)) with (blocksFile st).
  rewrite Z.mul_0_l, Z.add_0_l, Z.sub_0_r. change (Z.to_nat 0) with 0%nat.
  rewrite drop_0.
  destruct (writeBlock bs (blocksFile st) d _) as [f1| |] eqn:Ew1;
    [|by intros [=]..].
  pose proof (writeBlock_Ok _ _ _ _ _ Ew1) as (Hoff1 & Hchunk & _).
  rewrite length_take in Hchunk. fold len in Hchunk.
  assert (Hfit : len <= bs - 4) by (unfold len in *; lia).
  fold len in Hchunk.
  assert (Hone : (len + bs - 1) ÷ bs = 1).
  { rewrite Z.quot_div_nonneg by lia. symmetry.
    apply (Z.div_unique _ _ _ (len - 1)); lia. }
  rewrite Hone in Hn. change (u32 1) with 1 in Hn.
  destruct rest; [|simpl in Hn; lia]. clear Hn.
  rewrite Z.min_r in Ew1 by (fold len; lia).
  rewrite take_ge in Ew1 by (unfold len; lia).
  cbn [writeDataBlocks].
  destruct (createIndexBlocks _ [d]) as [[x| |] st2] eqn:Ec; [|done..].
  apply createIndexBlocks_single in Ec as (ids & bm2 & f2 & Ea2 & -> & Hw2 & ->).
  cbn [bitmap setBlocksFile setBitmap blockSize blocksFile] in Ea2, Hw2.
  apply allocateBlocks_allocated in Ea2 as [Hal2 Hn2];
    [|destruct Hal as [-> _]; done|lia].
  destruct ids as [|x [|]]; [simpl in Hn2; lia| |simpl in Hn2; lia]. clear Hn2.
  cbn [List.hd] in *.
  (* the two identifiers *)
  destruct Hal as (Ht1 & _ & Hid1 & _). destruct Hal2 as (Ht2 & _ & Hid2 & _).
  destruct (Hid1 d) as (Hd & _ & Hdused); [by left|].
  destruct (Hid2 x) as (Hx & Hxfree & _); [by left|]. rewrite Ht1 in Hx.
  assert (Hdx : d ≠ x) by (intros ->; congruence).
  intros Hres.
  set (st2 := setBlocksFile (setBitmap (setBlocksFile (setBitmap st bm1) f1) bm2) f2)
    in *.
  assert (Hdev : sameDevice st2 st' ∧ first = x).
  { destruct (existing =? NullBlockID).
    - injection Hres as <- <-. split; [apply sameDevice_refl|done].
    - by eapply freeFileBlocks_ignored. }
  destruct Hdev as [Hdev ->]. clear Hres.
  destruct Hdev as [(Hh & Hb & Hc) Hf].
  split; [unfold sameConfig; by rewrite Hh, Hb, Hc|].
  split; [done|]. split; [done|].
  set (ib := {| BlockIds := [d]; Extents := []; NextIndexBlockId := 0;
                DataSize := u32 (1 * bs); IndexCrc32 := 0 |}) in *.
  exists d, (stamped st ib). split; [|split; [|split; [|split; [|split]]]].
  - rewrite (readIndexBlock_sameDevice st2 st') by done.
    change (stamped st ib) with (stamped st2 ib).
    apply readIndexBlock_of_bytes; [done| |].
    + refine (conj _ (conj _ (conj _ (conj _ (conj _ (conj _ _))))));
        simpl; try done; try apply u32_range.
      constructor; [|done]. unfold isU32. lia.
    + eapply readBlock_after_write; [|exact Hw2]. simpl. fold bs. lia.
  - unfold stamped. by destruct (checksumEnabled st).
  - unfold stamped. by destruct (checksumEnabled st).
  - unfold stamped. by destruct (checksumEnabled st).
  - done.
  - rewrite Hb, Hf. change (blockSize st2) with bs. change (blocksFile st2) with f2.
    pose proof (writeBlock_Ok _ _ _ _ _ Ew1) as (_ & _ & Hf1).
    pose proof (write_at_length (blocksFile st) _ (blockImage bs payload) Hoff1) as Hin.
    rewrite length_blockImage, <- Hf1 in Hin by done.
    rewrite (readBlock_other_write bs f1 d x _ f2 ltac:(lia) ltac:(lia) ltac:(lia)
               Hdx Hin Hw2).
    eapply readBlock_after_write; [|exact Ew1]. lia.
Qed.

(** ** Reading what was written *)

Lemma readIndexBlock_ext st st' id :
  blockSize st' = blockSize st -> blocksFile st' = blocksFile st ->
  checksumEnabled st' = checksumEnabled st ->
  readIndexBlock st' id = readIndexBlock st id.
Proof. intros Hb Hf Hc. unfold readIndexBlock. by rewrite Hb, Hc, Hf. Qed.

Lemma readFileFromBlocks_single fuel st first d ib payload :
  (2 <= fuel)%nat -> first ≠ 0 -> payload ≠ [] ->
  readIndexBlock st first = Ok ib ->
  BlockIds ib = [d] -> NextIndexBlockId ib = 0 ->
  readBlock (blockSize st) (blocksFile st) d = Ok payload ->
  readFileFromBlocks fuel st first (Z.of_nat (length payload)) = Ok payload.
Proof.
  intros Hfuel Hfirst Hne Hib Hids Hnext Hd.
  assert (0 < Z.of_nat (length payload)) by (destruct payload; [done|simpl; lia]).
  destruct fuel as [|[|fuel]]; [lia..|].
  unfold readFileFromBlocks, NullBlockID.
  destruct (Z.eqb_spec first 0); [done|].
  destruct (Z.eqb_spec (Z.of_nat (length payload)) 0); [lia|].
  cbn [orb readChain]. unfold NullBlockID.
  destruct (Z.eqb_spec first 0); [done|].
  destruct (Z.leb_spec (Z.of_nat (length payload)) 0); [lia|].
  cbn [orb]. rewrite Hib, Hids. cbn [readDataBlocks].
  destruct (Z.leb_spec (Z.of_nat (length payload)) 0); [lia|].
  rewrite Hd, Z.sub_0_r, Z.min_id, Nat2Z.id, take_ge by done.
  by rewrite Hnext.
Qed.

Lemma writeFileToBlocks_empty fuel st payload existing first st' :
  Z.of_nat (length payload) = 0 ->
  writeFileToBlocks fuel st payload existing = (Ok first, st') ->
  first = 0 ∧ sameDevice st st'.
Proof.
  intros Hlen. unfold writeFileToBlocks. rewrite Hlen. cbn [Z.eqb].
  destruct (existing =? NullBlockID).
  - intros [= <- <-]. done.
  - intros Hres. apply freeFileBlocks_ignored in Hres as [? ->]. done.
Qed.

Lemma findEntryUnsafe_dir_no_file r path target :
  findEntryUnsafe r path = Ok target -> foundIsDir target = true ->
  foundFile target = None.
Proof.
  unfold findEntryUnsafe.
  destruct (isEmptyString (trim path)); [by intros [= <-]|].
  destruct (dirAt _ r) as [cur|]; [|done].
  destruct (Directories cur !! _); by intros [= <-].
Qed.

Lemma WriteFile_Ok fuel now st path payload st' :
  namesOk (root st) ->
  WriteFile fuel now st path payload = (Ok tt, st') ->
  let fileName := List.last (split (trim path)) EmptyString in
  ∃ target first st1,
    findEntryUnsafe (root st) path = Ok target
    ∧ foundIsDir target = false
    ∧ writeFileToBlocks fuel st payload
        (match foundFile target with
         | Some file => FirstIndexBlockId file
         | None => 0
         end) = (Ok first, st1)
    ∧ st' = saveBitmap (saveRoot (setRoot st1
              (updateDir
                 (fun d => setFiles d
                    (<[fileName := writtenEntry now st1 fileName (foundFile target)
                                     first (Z.of_nat (length payload))]> (Files d)))
                 (foundLoc target) (root st1)))).
Proof.
  intros Hok. unfold WriteFile.
  destruct (findEntryUnsafe (root st) path) as [target| |] eqn:Efind; [|done..].
  destruct (foundIsDir target) eqn:Edir.
  { rewrite (findEntryUnsafe_dir_no_file _ _ _ Efind Edir). done. }
  cbn [andb].
  destruct (findEntryUnsafe_not_dir _ _ _ Efind Edir) as (Hne & Hloc & Hat & Hnone & Hfile).
  destruct (findEntryUnsafe_parent (root st) (removelast (split (trim path)))
              (foundDir target) Hok) as (parent & -> & Hploc); [|done|].
  { apply removelast_Forall, split_noSlash. }
  destruct (writeFileToBlocks _ _ _ _) as [[first| |] st1] eqn:Ew; [|done..].
  intros Hres. exists target, first, st1.
  split; [done|]. split; [done|]. split; [done|].
  unfold writtenEntry.
  destruct (foundFile target) as [old|]; injection Hres as <-; [done|].
  by rewrite Hploc, Hloc.
Qed.

Lemma dirAt_setDirMetadata_content loc r m cur :
  dirAt loc r = Some cur ->
  ∃ cur', dirAt loc (setDirMetadata r m) = Some cur'
          ∧ Files cur' = Files cur ∧ Directories cur' = Directories cur.
Proof.
  rewrite dirAt_setDirMetadata. destruct loc; [|by eauto].
  intros [= <-]. by eexists.
Qed.

Lemma root_saved st :
  root (saveBitmap (saveRoot st)) = root st
  ∨ ∃ m, root (saveBitmap (saveRoot st)) = setDirMetadata (root st) m.
Proof.
  unfold saveBitmap, saveRoot.
  destruct (checksumEnabled st); destruct (dirty _); simpl; eauto.
Qed.

Lemma saved_device st :
  blockSize (saveBitmap (saveRoot st)) = blockSize st
  ∧ blocksFile (saveBitmap (saveRoot st)) = blocksFile st
  ∧ checksumEnabled (saveBitmap (saveRoot st)) = checksumEnabled st.
Proof.
  unfold saveBitmap, saveRoot.
  destruct (checksumEnabled st) eqn:E; destruct (dirty _); simpl; by rewrite ?E.
Qed.

(** After the entry was stored, the path leads to it. *)
Lemma findEntryUnsafe_written r path target file st2 :
  findEntryUnsafe r path = Ok target -> foundIsDir target = false ->
  root st2 = updateDir
               (fun d => setFiles d
                  (<[List.last (split (trim path)) EmptyString := file]> (Files d)))
               (foundLoc target) r ->
  ∃ target', findEntryUnsafe (root (saveBitmap (saveRoot st2))) path = Ok target'
             ∧ foundIsDir target' = false ∧ foundFile target' = Some file.
Proof.
  intros Efind Edir Hroot.
  destruct (findEntryUnsafe_not_dir _ _ _ Efind Edir) as (Hne & Hloc & Hat & Hnone & Hfile).
  set (fileName := List.last (split (trim path)) EmptyString) in *.
  set (cur := foundDir target) in *.
  assert (Hat2 : dirAt (removelast (split (trim path))) (root st2)
                 = Some (setFiles cur (<[fileName := file]> (Files cur)))).
  { rewrite Hroot, Hloc, dirAt_updateDir, Hat. done. }
  assert (∃ cur', dirAt (removelast (split (trim path))) (root (saveBitmap (saveRoot st2)))
                  = Some cur'
                  ∧ Files cur' = <[fileName := file]> (Files cur)
                  ∧ Directories cur' = Directories cur) as (cur' & Hat3 & Hf & Hd).
  { destruct (root_saved st2) as [->|[m ->]]; [by eauto|].
    destruct (dirAt_setDirMetadata_content _ _ m _ Hat2) as (cur' & ? & ? & ?). eauto. }
  eexists. split.
  - apply findEntryUnsafe_at; [done|exact Hat3|]. by rewrite Hd.
  - split; [done|]. simpl. fold fileName. by rewrite Hf, lookup_insert_eq.
Qed.

Lemma writeFileToBlocks_config fuel st payload existing first st' :
  addressable st -> codecRoundTrip ->
  Z.of_nat (length payload) <= (2 ^ 32 - 1) * blockSize st ->
  writeFileToBlocks fuel st payload existing = (Ok first, st') ->
  sameConfig st st'.
Proof.
  intros Haddr Hcodec Hlen Hw.
  destruct (Z.eq_dec (Z.of_nat (length payload)) 0) as [H0|H0].
  - by destruct (writeFileToBlocks_empty _ _ _ _ _ _ H0 Hw) as [_ [? _]].
  - assert (Hpos : 0 < Z.of_nat (length payload) <= (2 ^ 32 - 1) * blockSize st) by lia.
    pose proof (blocksNeeded_fits st payload (proj1 (proj1 Haddr)) Hpos) as Hcount.
    by destruct (writeFileToBlocks_stored _ _ _ _ _ _ Hcodec Haddr (proj1 Hpos) Hcount Hw)
      as [? _].
Qed.

(** X4.  Write then read, short of the truncated block count: on an
    addressable volume whose directories have proper names, for every path
    and every payload of at most (2^32 - 1) * blockSize bytes, if [WriteFile]
    returns success, a following [ReadFile] of the same path returns exactly
    the payload (the read loop is given fuel for one index block and the end
    of the chain). *)
Theorem write_then_read fuel fuel' now st path payload st' :
  codecRoundTrip -> addressable st -> namesOk (root st) ->
  Z.of_nat (length payload) <= (2 ^ 32 - 1) * blockSize st ->
  WriteFile fuel now st path payload = (Ok tt, st') ->
  (2 <= fuel')%nat ->
  ReadFile fuel' st' path = Ok payload.
Proof.
  intros Hcodec Haddr Hnames Hlen Hw Hfuel.
  destruct (WriteFile_Ok _ _ _ _ _ _ Hnames Hw) as (target & first & st1 & Efind & Edir & Ewr & ->).
  pose proof (writeFileToBlocks_config _ _ _ _ _ _ Haddr Hcodec Hlen Ewr) as (Hh & Hb & Hc).
  set (file := writtenEntry _ _ _ _ _ _).
  set (st2 := setRoot st1 _).
  destruct (findEntryUnsafe_written (root st1) path target file st2)
    as (target' & Efind' & Edir' & Efile'); [by unfold root; rewrite Hh|done|done|].
  destruct (saved_device st2) as (Hb2 & Hf2 & Hc2).
  unfold ReadFile. fold file st2. rewrite Efind', Edir', Efile'.
  assert (Hmeta : verifyMetadataChecksum (saveBitmap (saveRoot st2)) (Metadata file) = true).
  { unfold file, writtenEntry. destruct (foundFile target); simpl;
      apply verify_updated; by rewrite Hc2. }
  rewrite Hmeta. cbn [negb].
  assert (Hfirst : FirstIndexBlockId file = first)
    by (unfold file, writtenEntry; by destruct (foundFile target)).
  assert (Hsize : Size file = Z.of_nat (length payload))
    by (unfold file, writtenEntry; by destruct (foundFile target)).
  rewrite Hfirst, Hsize.
  destruct (Z.eq_dec (Z.of_nat (length payload)) 0) as [H0|H0].
  - unfold readFileFromBlocks. rewrite H0, orb_true_r.
    destruct payload; [done|simpl in H0; lia].
  - assert (Hpos : 0 < Z.of_nat (length payload) <= (2 ^ 32 - 1) * blockSize st) by lia.
    pose proof (blocksNeeded_fits st payload (proj1 (proj1 Haddr)) Hpos) as Hcount.
    destruct (writeFileToBlocks_stored _ _ _ _ _ _ Hcodec Haddr (proj1 Hpos) Hcount Ewr)
      as (_ & Hrange & _ & d & ib & Hib & Hids & _ & Hnext & _ & Hd).
    apply (readFileFromBlocks_single _ _ _ d ib); try done.
    + lia.
    + intros ->. done.
    + rewrite <- Hib. by apply readIndexBlock_ext.
    + by rewrite Hb2, Hf2.
Qed.

(** ** Moving a file onto itself *)

Lemma writeFileToBlocks_truncated fuel st payload existing first st' :
  Z.of_nat (length payload) ≠ 0 ->
  u32 (blocksNeeded st payload) = 0 ->
  writeFileToBlocks fuel st payload existing = (Ok first, st') ->
  first = 0 ∧ sameDevice st st'.
Proof.
  intros Hlen Hcount. unfold writeFileToBlocks.
  destruct (Z.eqb_spec (Z.of_nat (length payload)) 0); [done|].
  destruct (blockSize st =? 0); [done|].
  fold (blocksNeeded st payload). rewrite Hcount.
  unfold allocate, allocateBlocks. cbn [Z.eqb writeDataBlocks createIndexBlocks].
  destruct (existing =? NullBlockID).
  - intros [= <- <-]. done.
  - intros Hres. apply freeFileBlocks_ignored in Hres as [? ->]. done.
Qed.

(** Whatever the payload, the chain a successful write leaves behind is
    empty or one readable index block that ends it. *)
Lemma writeFileToBlocks_chain fuel st payload existing first st' :
  codecRoundTrip -> addressable st ->
  writeFileToBlocks fuel st payload existing = (Ok first, st') ->
  sameConfig st st'
  ∧ (first = 0 ∨ ∃ ib, readIndexBlock st' first = Ok ib ∧ NextIndexBlockId ib = 0).
Proof.
  intros Hcodec Haddr Hw.
  destruct (Z.eq_dec (Z.of_nat (length payload)) 0) as [H0|H0].
  { destruct (writeFileToBlocks_empty _ _ _ _ _ _ H0 Hw) as [-> [? _]]. eauto. }
  destruct (Z.eq_dec (u32 (blocksNeeded st payload)) 0) as [Hc|Hc].
  { destruct (writeFileToBlocks_truncated _ _ _ _ _ _ H0 Hc Hw) as [-> [? _]]. eauto. }
  assert (Hpos : 0 < Z.of_nat (length payload)) by lia.
  destruct (writeFileToBlocks_stored _ _ _ _ _ _ Hcodec Haddr Hpos Hc Hw)
    as (? & _ & _ & d & ib & Hib & _ & _ & Hnext & _).
  split; [done|]. right. eauto.
Qed.

Lemma freeFileBlocks_short fuel st first :
  (2 <= fuel)%nat ->
  (first = 0 ∨ ∃ ib, readIndexBlock st first = Ok ib ∧ NextIndexBlockId ib = 0) ->
  ∃ st', freeFileBlocks fuel st first = (Ok tt, st') ∧ sameDevice st st'.
Proof.
  intros Hfuel Hchain. destruct fuel as [|[|fuel]]; [lia..|].
  destruct Hchain as [->|(ib & Hib & Hnext)].
  { eexists. split; [reflexivity|done]. }
  cbn [freeFileBlocks].
  destruct (first =? NullBlockID). { eexists. split; [reflexivity|done]. }
  rewrite Hib, Hnext. cbn [Z.eqb NullBlockID].
  eexists. split; [reflexivity|].
  eapply sameDevice_trans; [|apply sameDevice_release].
  eapply sameDevice_trans; [|apply sameDevice_releases].
  apply sameDevice_release.
Qed.

(** After the entry was removed, the path leads to no file. *)
Lemma findEntryUnsafe_deleted r path target st2 :
  findEntryUnsafe r path = Ok target -> foundIsDir target = false ->
  root st2 = updateDir
               (fun d => setFiles d
                  (delete (List.last (split (trim path)) EmptyString) (Files d)))
               (foundLoc target) r ->
  ∃ target', findEntryUnsafe (root (saveBitmap (saveRoot st2))) path = Ok target'
             ∧ foundIsDir target' = false ∧ foundFile target' = None.
Proof.
  intros Efind Edir Hroot.
  destruct (findEntryUnsafe_not_dir _ _ _ Efind Edir) as (Hne & Hloc & Hat & Hnone & Hfile).
  set (fileName := List.last (split (trim path)) EmptyString) in *.
  set (cur := foundDir target) in *.
  assert (Hat2 : dirAt (removelast (split (trim path))) (root st2)
                 = Some (setFiles cur (delete fileName (Files cur)))).
  { rewrite Hroot, Hloc, dirAt_updateDir, Hat. done. }
  assert (∃ cur', dirAt (removelast (split (trim path))) (root (saveBitmap (saveRoot st2)))
                  = Some cur'
                  ∧ Files cur' = delete fileName (Files cur)
                  ∧ Directories cur' = Directories cur) as (cur' & Hat3 & Hf & Hd).
  { destruct (root_saved st2) as [->|[m ->]]; [by eauto|].
    destruct (dirAt_setDirMetadata_content _ _ m _ Hat2) as (cur' & ? & ? & ?). eauto. }
  eexists. split.
  - apply findEntryUnsafe_at; [done|exact Hat3|]. by rewrite Hd.
  - split; [done|]. simpl. fold fileName. by rewrite Hf, lookup_delete_eq.
Qed.

Lemma namesOk_setDirMetadata d m : namesOk d -> namesOk (setDirMetadata d m).
Proof. intros [d' H1 H2]. by constructor. Qed.

(** C9, as amended.  Moving a file onto itself: once the copy half of [MoveFile] has
    succeeded (the source was read and written back over its own entry), the
    delete half succeeds too, so [MoveFile] returns success, and afterwards
    the path names no file: lookup finds none and [ReadFile] answers "file
    not found". *)
Theorem move_onto_itself fuel now st path st1 :
  codecRoundTrip -> addressable st -> namesOk (root st) -> (2 <= fuel)%nat ->
  CopyFile fuel now st path path = (Ok tt, st1) ->
  ∃ st2, MoveFile fuel now st path path = (Ok tt, st2)
         ∧ (∃ target, findEntryUnsafe (root st2) path = Ok target
                      ∧ foundIsDir target = false ∧ foundFile target = None)
         ∧ ∀ fuel', ReadFile fuel' st2 path = Err ErrFileNotFound.
Proof.
  intros Hcodec Haddr Hnames Hfuel Hcopy.
  unfold MoveFile. rewrite Hcopy.
  unfold CopyFile in Hcopy.
  destruct (ReadFile fuel st path) as [payload| |]; [|done..].
  destruct (WriteFile_Ok _ _ _ _ _ _ Hnames Hcopy)
    as (target & first & st0 & Efind & Edir & Ewr & ->).
  destruct (writeFileToBlocks_chain _ _ _ _ _ _ Hcodec Haddr Ewr) as ((Hh & Hb & Hc) & Hchain).
  set (file := writtenEntry _ _ _ _ _ _).
  set (st2 := setRoot st0 _).
  destruct (findEntryUnsafe_written (root st0) path target file st2)
    as (target' & Efind' & Edir' & Efile'); [by unfold root; rewrite Hh|done|done|].
  destruct (saved_device st2) as (Hb2 & Hf2 & Hc2).
  set (st3 := saveBitmap (saveRoot st2)) in *.
  assert (Hfirst : FirstIndexBlockId file = first)
    by (unfold file, writtenEntry; by destruct (foundFile target)).
  destruct (freeFileBlocks_short fuel st3 first Hfuel) as (st4 & Hfree & (Hh4 & _) & _).
  { destruct Hchain as [->|(ib & Hib & Hnext)]; [by left|right].
    exists ib. split; [|done]. rewrite <- Hib. by apply readIndexBlock_ext. }
  unfold DeleteFile. rewrite Efind', Edir', Efile', Hfirst, Hfree.
  eexists. split; [reflexivity|].
  set (st5 := setRoot st4 _).
  destruct (findEntryUnsafe_deleted (root st3) path target' st5 Efind' Edir')
    as (t & Ht & Htd & Htf).
  { unfold st5, root. simpl. by rewrite Hh4. }
  split; [by eauto|]. intros fuel'. unfold ReadFile. by rewrite Ht, Htd, Htf.
Qed.

(** ** Directories *)

Lemma createDirectories_properNames st now parts : ∀ d,
  createDirectories st now parts d = createDirectories st now (properNames parts) d.
Proof.
  unfold properNames.
  induction parts as [|p parts IH]; intros d; [done|]. simpl.
  destruct (isEmptyString p) eqn:E.
  - rewrite filter_cons_False by congruence. apply IH.
  - rewrite filter_cons_True by done. simpl. rewrite E. by rewrite !IH.
Qed.



Lemma root_saveRoot st :
  root (saveRoot st) = root st ∨ ∃ m, root (saveRoot st) = setDirMetadata (root st) m.
Proof. unfold saveRoot. destruct (checksumEnabled st); simpl; eauto. Qed.

Lemma trim_nonEmpty path : nonEmpty (trim path) -> isEmptyString path = false.
Proof. by destruct path. Qed.


(** C8.  [DeleteDirectory] refuses, with "directory not empty", every
    directory that has a file or a subdirectory, and refuses the root also
    when the root is empty ("cannot delete root directory"); in both cases
    the engine state, the namespace with it, is the one before the call. *)
Theorem delete_directory_refusals st path :
  (∀ target,
     findEntryUnsafe (root st) path = Ok target -> foundIsDir target = true ->
     (∃ n file, Files (foundDir target) !! n = Some file)
     ∨ (∃ n sub, Directories (foundDir target) !! n = Some sub) ->
     DeleteDirectory st path = (Err ErrDirectoryNotEmpty, st))
  ∧ (trim path = EmptyString ->
     ∃ e, DeleteDirectory st path = (Err e, st)
          ∧ (Files (root st) = ∅ -> Directories (root st) = ∅ -> e = ErrDeleteRoot)).
Proof.
  split.
  - intros target Efind Edir Hsome. unfold DeleteDirectory. rewrite Efind, Edir.
    cbn [negb].
    assert (Hsize : (0 <? Z.of_nat (size (Files (foundDir target))))
                    || (0 <? Z.of_nat (size (Directories (foundDir target)))) = true).
    { apply orb_true_iff.
      destruct Hsome as [(n & f & Hf)|(n & d & Hd)]; [left|right]; apply Z.ltb_lt.
      - assert (size (Files (foundDir target)) ≠ 0%nat); [|lia].
        apply map_size_ne_0_lookup_2 with n. eauto.
      - assert (size (Directories (foundDir target)) ≠ 0%nat); [|lia].
        apply map_size_ne_0_lookup_2 with n. eauto. }
    by rewrite Hsize.
  - intros Htrim. unfold DeleteDirectory, findEntryUnsafe. rewrite Htrim. simpl.
    destruct ((0 <? Z.of_nat (size (Files (root st))))
              || (0 <? Z.of_nat (size (Directories (root st))))) eqn:E.
    + eexists. split; [done|]. intros Hf Hd. rewrite Hf, Hd in E.
      by rewrite !map_size_empty in E.
    + eexists. split; done.
Qed.

(** ** Allocation *)

(** C7.  Every successful [allocateBlocks bm n] returns exactly [n]
    identifiers, pairwise distinct and each within [1, totalBlocks], on the
    contiguous path and on the scattered one alike.  The bitmap is one
    whose capacity the 32-bit identifiers can address, as every bitmap the
    engine builds is: it has 8192 blocks. *)
Theorem allocate_ids_distinct_in_range bm n ids bm' :
  0 <= totalBlocks bm < 2 ^ 32 -> 0 <= n < 2 ^ 32 ->
  allocateBlocks bm n = (Ok ids, bm') ->
  Z.of_nat (length ids) = n ∧ NoDup ids
  ∧ ∀ id, id ∈ ids -> 1 <= id <= totalBlocks bm'.
Proof.
  intros Ht Hn Ha.
  destruct (allocateBlocks_allocated _ _ _ _ Ht Hn Ha) as [(Htot & Hnd & Hids & _) Hlen].
  split; [done|]. split; [done|]. intros id Hid. rewrite Htot. by apply Hids.
Qed.

(** ** Freeing *)

Lemma fades_refl bm : fades bm bm.
Proof. intros q Hq. by destruct (bitAt bm q). Qed.

Lemma fades_trans bm1 bm2 bm3 : fades bm1 bm2 -> fades bm2 bm3 -> fades bm1 bm3.
Proof.
  intros H12 H23 q Hq. specialize (H12 q Hq). specialize (H23 q Hq).
  destruct (bitAt bm1 q), (bitAt bm2 q), (bitAt bm3 q); try done. auto.
Qed.

Lemma fades_data bm bm1 bm2 : fades bm bm1 -> data bm2 = data bm1 -> fades bm bm2.
Proof. intros H Hd q Hq. specialize (H q Hq). unfold bitAt in *. by rewrite Hd. Qed.

Lemma fades_markBlockFree bm p : 0 <= p -> fades bm (markBlockFree bm p).
Proof.
  intros Hp q Hq. rewrite bitAt_markBlockFree by done.
  destruct (bitAt bm q) as [b|]; simpl; [|done].
  by intros [? _]%andb_true_iff.
Qed.

Lemma fades_freeOne bm id : fades bm (freeOne bm id).
Proof.
  unfold freeOne. destruct (id =? NullBlockID); [apply fades_refl|].
  apply fades_markBlockFree, u32_range.
Qed.

Lemma fades_fold ids : ∀ bm, fades bm (fold_left freeOne ids bm).
Proof.
  induction ids as [|id ids IH]; intros bm; simpl; [apply fades_refl|].
  eapply fades_trans; [apply fades_freeOne|apply IH].
Qed.

Lemma fades_freeBlocks bm ids : fades bm (freeBlocks bm ids).
Proof. eapply fades_data; [apply (fades_fold ids)|done]. Qed.

Lemma fades_free bm bm' q :
  fades bm bm' -> 0 <= q -> isBlockFree bm q = true -> isBlockFree bm' q = true.
Proof.
  intros H Hq. specialize (H q Hq). rewrite !isBlockFree_bitAt.
  destruct (bitAt bm q) as [[]|], (bitAt bm' q) as [[]|]; try done.
Qed.

Lemma fades_inside bm bm' q :
  fades bm bm' -> 0 <= q -> is_Some (bitAt bm q) -> is_Some (bitAt bm' q).
Proof.
  intros H Hq [b Hb]. specialize (H q Hq). rewrite Hb in H.
  destruct (bitAt bm' q); [eauto|done].
Qed.

(** A block that is in the list and inside the bitmap is free afterwards. *)
Lemma freeBlocks_frees bm ids id :
  id ∈ ids -> isU32 id -> id ≠ 0 -> is_Some (bitAt bm (id - 1)) ->
  isBlockFree (freeBlocks bm ids) (id - 1) = true.
Proof.
  intros Hin [Hlo Hhi] Hne. unfold freeBlocks.
  rewrite (isBlockFree_data _ (fold_left freeOne ids bm)) by done.
  revert bm. induction ids as [|x ids IH]; intros bm Hsome; [by apply elem_of_nil in Hin|].
  simpl. apply elem_of_cons in Hin as [<-|Hin].
  - apply (fades_free (freeOne bm id)); [apply fades_fold|lia|].
    unfold freeOne, NullBlockID. destruct (Z.eqb_spec id 0); [done|].
    rewrite u32_small by lia.
    rewrite isBlockFree_bitAt, bitAt_markBlockFree by lia.
    destruct Hsome as [b ->]. simpl. by rewrite Z.eqb_refl, andb_false_r.
  - apply IH; [done|]. eapply fades_inside; [apply fades_freeOne|lia|done].
Qed.

Lemma chain_sameDevice st st' id c :
  sameDevice st st' -> chain st id c -> chain st' id c.
Proof.
  intros Hs. induction 1 as [|id ib rest Hne Hread _ IH]; [constructor|].
  constructor; [done| |done]. by rewrite (readIndexBlock_sameDevice st st').
Qed.

Lemma fades_releases (es : list Extent) : ∀ st,
  fades (bitmap st) (bitmap (fold_left (fun s e => release s (extentBlocks e)) es st)).
Proof.
  induction es as [|e es IH]; intros st; simpl; [apply fades_refl|].
  eapply fades_trans; [|apply IH]. apply fades_freeBlocks.
Qed.

Lemma releases_frees (es : list Extent) id : ∀ st,
  id ∈ concat (map extentBlocks es) -> isU32 id -> id ≠ 0 ->
  is_Some (bitAt (bitmap st) (id - 1)) ->
  isBlockFree (bitmap (fold_left (fun s e => release s (extentBlocks e)) es st))
    (id - 1) = true.
Proof.
  induction es as [|e es IH]; intros st Hin Hty Hne Hsome; simpl in *.
  { by apply elem_of_nil in Hin. }
  apply elem_of_app in Hin as [Hin|Hin].
  - eapply fades_free; [apply fades_releases|unfold isU32 in Hty; lia|].
    by apply freeBlocks_frees.
  - apply IH; try done. eapply fades_inside; [apply fades_freeBlocks| |done].
    unfold isU32 in Hty. lia.
Qed.

(** Freeing a chain: with more fuel than the chain has links the walk
    returns, and every block of the chain that lies inside the bitmap is
    free afterwards. *)
Lemma freeFileBlocks_chain c : ∀ fuel st first,
  chain st first c -> (length c < fuel)%nat ->
  ∃ st', freeFileBlocks fuel st first = (Ok tt, st')
         ∧ sameDevice st st'
         ∧ fades (bitmap st) (bitmap st')
         ∧ ∀ id, id ∈ chainBlocks c -> isU32 id -> id ≠ 0 ->
                 is_Some (bitAt (bitmap st) (id - 1)) ->
                 isBlockFree (bitmap st') (id - 1) = true.
Proof.
  induction c as [|[id0 ib0] c IH]; intros fuel st first Hchain Hfuel.
  - inversion Hchain; subst. destruct fuel; [simpl in Hfuel; lia|].
    exists st. split; [done|]. split; [done|]. split; [apply fades_refl|].
    intros id Hid. by apply elem_of_nil in Hid.
  - inversion Hchain as [|id ib rest Hne Hread Hrest]; subst id ib rest.
    subst id0. destruct fuel as [|fuel]; [simpl in Hfuel; lia|].
    cbn [freeFileBlocks]. unfold NullBlockID.
    destruct (Z.eqb_spec first 0); [done|]. rewrite Hread.
    set (st1 := release st (BlockIds ib0)).
    set (st2 := fold_left _ (Extents ib0) st1).
    set (st3 := release st2 [first]).
    assert (Hd1 : sameDevice st st1) by apply sameDevice_release.
    assert (Hd2 : sameDevice st1 st2) by apply sameDevice_releases.
    assert (Hd3 : sameDevice st2 st3) by apply sameDevice_release.
    assert (Hdev : sameDevice st st3)
      by (eapply sameDevice_trans; [|exact Hd3]; by eapply sameDevice_trans).
    assert (Hf1 : fades (bitmap st) (bitmap st1)) by apply fades_freeBlocks.
    assert (Hf2 : fades (bitmap st1) (bitmap st2)) by apply fades_releases.
    assert (Hf3 : fades (bitmap st2) (bitmap st3)) by apply fades_freeBlocks.
    destruct (IH fuel st3 (NextIndexBlockId ib0)) as (st' & Hrun & Hdev' & Hfade & Hfreed).
    { by apply (chain_sameDevice st). }
    { simpl in Hfuel. lia. }
    exists st'. split; [done|]. split; [by eapply sameDevice_trans|].
    assert (Hf03 : fades (bitmap st) (bitmap st3))
      by (eapply fades_trans; [|exact Hf3]; by eapply fades_trans).
    split; [by eapply fades_trans|].
    intros id Hid Hty Hne0 Hsome.
    assert (0 <= id - 1) by (unfold isU32 in Hty; lia).
    unfold chainBlocks in Hid. simpl in Hid.
    apply elem_of_app in Hid as [Hid|Hid].
    + eapply fades_free; [exact Hfade|done|].
      unfold linkBlocks in Hid. simpl in Hid.
      apply elem_of_app in Hid as [Hid|Hid].
      * eapply fades_free; [eapply fades_trans; [exact Hf2|exact Hf3]|done|].
        by apply freeBlocks_frees.
      * apply elem_of_app in Hid as [Hid|Hid].
        -- eapply fades_free; [exact Hf3|done|].
           apply releases_frees; try done. by eapply fades_inside.
        -- apply freeBlocks_frees; try done.
           eapply fades_inside; [eapply fades_trans; [exact Hf1|exact Hf2]|done|done].
    + apply Hfreed; try done. by eapply fades_inside.
Qed.

(** ** Writing the empty payload *)

Lemma WriteFile_run fuel now st path payload target first st1 :
  namesOk (root st) ->
  findEntryUnsafe (root st) path = Ok target -> foundIsDir target = false ->
  writeFileToBlocks fuel st payload (existingChain target) = (Ok first, st1) ->
  WriteFile fuel now st path payload
  = (Ok tt,
     saveBitmap (saveRoot (setRoot st1
       (updateDir
          (fun d => setFiles d
             (<[List.last (split (trim path)) EmptyString :=
                  writtenEntry now st1 (List.last (split (trim path)) EmptyString)
                    (foundFile target) first (Z.of_nat (length payload))]> (Files d)))
          (foundLoc target) (root st1))))).
Proof.
  intros Hok Efind Edir Ew. unfold WriteFile. rewrite Efind, Edir. cbn [andb].
  destruct (findEntryUnsafe_not_dir _ _ _ Efind Edir) as (Hne & Hloc & Hat & Hnone & Hfile).
  destruct (findEntryUnsafe_parent (root st) (removelast (split (trim path)))
              (foundDir target) Hok) as (parent & -> & Hploc); [|done|].
  { apply removelast_Forall, split_noSlash. }
  unfold existingChain in Ew. rewrite Ew. unfold writtenEntry.
  destruct (foundFile target); [done|]. by rewrite Hploc, Hloc.
Qed.

Lemma bitmap_saved st q :
  isBlockFree (bitmap (saveBitmap (saveRoot st))) q = isBlockFree (bitmap st) q.
Proof.
  apply isBlockFree_data. unfold saveBitmap, saveRoot.
  destruct (checksumEnabled st); simpl; by destruct (dirty (bitmap st)).
Qed.


(** ** Integrity *)

Lemma dirSize_sub d n sub : Directories d !! n = Some sub -> (dirSize sub < dirSize d)%nat.
Proof.
  destruct d as [m fs ds]. simpl. intros Hs.
  rewrite (map_fold_delete_L _ _ n sub); [lia| |done].
  intros. lia.
Qed.

Lemma tree_ind (P : DirectoryEntry -> Prop) :
  (∀ d, (∀ n sub, Directories d !! n = Some sub -> P sub) -> P d) -> ∀ d, P d.
Proof.
  intros Hstep d. remember (dirSize d) as k eqn:Hk. revert d Hk.
  induction k as [k IH] using lt_wf_ind. intros d ->.
  apply Hstep. intros n sub Hs. eapply IH; [by eapply dirSize_sub|done].
Qed.

Lemma andThen_Ok check rest :
  andThen check rest = Ok tt <-> check = Ok tt ∧ rest = Ok tt.
Proof.
  unfold andThen. destruct rest as [[]| |]; split; try done; intros [? ?]; done.
Qed.

Lemma fold_andThen_Ok {A} (g : A -> res unit) (m : gmap string A) :
  map_fold (fun _ x rest => andThen (g x) rest) (Ok tt) m = Ok tt
  <-> ∀ k x, m !! k = Some x -> g x = Ok tt.
Proof.
  apply (map_fold_weak_ind
           (fun r m => r = Ok tt <-> ∀ k x, m !! k = Some x -> g x = Ok tt)).
  - split; [|done]. intros _ k x Hk. by rewrite lookup_empty in Hk.
  - intros i x m' r Hnone IH. rewrite andThen_Ok, IH. split.
    + intros [Hx Hm] k y Hk. apply lookup_insert_Some in Hk as [[<- <-]|[_ Hk]]; eauto.
    + intros H. split.
      * apply (H i). apply lookup_insert_eq.
      * intros k y Hk. apply (H k). rewrite lookup_insert_ne; [done|]. congruence.
Qed.

Lemma verifyDirectoryIntegrity_eq fuel st d :
  verifyDirectoryIntegrity fuel st d
  = if negb (verifyMetadataChecksum st (DirMetadata d)) then Err ErrMetadataChecksum
    else
      match map_fold (fun _ file rest => andThen (verifyFile fuel st file) rest)
                     (Ok tt) (Files d) with
      | Ok _ =>
          map_fold (fun _ subDir rest =>
                      andThen (verifyDirectoryIntegrity fuel st subDir) rest)
                   (Ok tt) (Directories d)
      | other => other
      end.
Proof. by destruct d. Qed.

Lemma verifyDirectoryIntegrity_Ok fuel st d :
  verifyDirectoryIntegrity fuel st d = Ok tt
  <-> verifyMetadataChecksum st (DirMetadata d) = true
      ∧ (∀ n file, Files d !! n = Some file -> verifyFile fuel st file = Ok tt)
      ∧ (∀ n sub, Directories d !! n = Some sub ->
           verifyDirectoryIntegrity fuel st sub = Ok tt).
Proof.
  rewrite verifyDirectoryIntegrity_eq.
  destruct (verifyMetadataChecksum st (DirMetadata d)); simpl.
  - rewrite <- !fold_andThen_Ok.
    destruct (map_fold _ _ (Files d)) as [[]| |].
    + split; [by intros ?|by intros (_ & _ & ?)].
    + split; [done|by intros (_ & ? & _)].
    + split; [done|by intros (_ & ? & _)].
  - split; [done|]. by intros [? _].
Qed.

(** *** Chains *)

Lemma chain_functional st id c1 : ∀ c2, chain st id c1 -> chain st id c2 -> c1 = c2.
Proof.
  intros c2 H1. revert c2.
  induction H1 as [|id ib rest Hne Hread _ IH]; intros c2 H2.
  - inversion H2; [done|congruence].
  - inversion H2 as [|id' ib' rest' Hne' Hread' Hrest']; subst; [done|].
    rewrite Hread in Hread'. injection Hread' as <-. f_equal. by apply IH.
Qed.

Lemma chain_suffix st id c x :
  chain st id c -> x ∈ map fst c ->
  ∃ c', chain st x c' ∧ (length c' <= length c)%nat.
Proof.
  induction 1 as [|id ib rest Hne Hread Hrest IH]; simpl; intros Hx.
  - by apply elem_of_nil in Hx.
  - apply elem_of_cons in Hx as [->|Hx].
    + exists ((id, ib) :: rest). split; [by constructor|done].
    + destruct (IH Hx) as (c' & ? & ?). exists c'. split; [done|]. simpl. lia.
Qed.

(** A chain meets no index block twice. *)
Lemma chain_NoDup st id c : chain st id c -> NoDup (map fst c).
Proof.
  induction 1 as [|id ib rest Hne Hread Hrest IH]; simpl; [constructor|].
  constructor; [|done]. intros Hin.
  destruct (chain_suffix _ _ _ _ Hrest Hin) as (c' & Hc' & Hlen).
  pose proof (chain_functional _ _ _ _ Hc' (chain_step _ _ _ _ Hne Hread Hrest)) as ->.
  simpl in Hlen. lia.
Qed.

Lemma existsb_false_Forall {A} (f : A -> bool) (P : A -> Prop) (l : list A) :
  (∀ x, f x = false <-> P x) -> existsb f l = false <-> Forall P l.
Proof.
  intros Hf. induction l as [|x l IH]; simpl; [by split|].
  rewrite orb_false_iff, IH, Hf, Forall_cons. done.
Qed.

Lemma invalidDataBlockID_false st id :
  invalidDataBlockID st id = false <-> dataBlockInRange st id.
Proof.
  unfold invalidDataBlockID, dataBlockInRange, NullBlockID.
  rewrite orb_false_iff, Z.eqb_neq, Z.ltb_ge. done.
Qed.

Lemma invalidExtent_false st e :
  invalidExtent st e = false <-> extentInRange st e.
Proof.
  unfold invalidExtent, extentInRange, NullBlockID.
  rewrite orb_false_iff, Z.eqb_neq, Z.ltb_ge. done.
Qed.


Lemma verifyChain_complete st c : ∀ fuel id (visited : gset Z),
  chain st id c -> Forall (linkInRange st) c ->
  (∀ x, x ∈ map fst c -> x ∉ visited) ->
  (length c < fuel)%nat ->
  verifyChain fuel st id visited = Ok tt.
Proof.
  induction c as [|[id0 ib0] c IH]; intros fuel id visited Hchain Hall Hfresh Hfuel.
  - inversion Hchain; subst. destruct fuel; [simpl in Hfuel; lia|]. done.
  - pose proof (chain_NoDup _ _ _ Hchain) as Hnd.
    inversion Hchain as [|id' ib rest Hne Hread Hrest]; subst id' ib rest. subst id0.
    destruct fuel as [|fuel]; [simpl in Hfuel; lia|].
    apply Forall_cons in Hall as [[Hids Hexts] Hall]. simpl in Hids, Hexts, Hnd.
    apply NoDup_cons in Hnd as [Hnotin _].
    cbn [verifyChain]. unfold NullBlockID.
    destruct (Z.eqb_spec id 0); [done|].
    destruct (decide (id ∈ visited)) as [Hin|_].
    { exfalso. apply (Hfresh id); [by left|done]. }
    rewrite Hread.
    rewrite (proj2 (existsb_false_Forall _ _ _ (invalidDataBlockID_false st)) Hids).
    rewrite (proj2 (existsb_false_Forall _ _ _ (invalidExtent_false st)) Hexts).
    apply IH; [done|done| |simpl in Hfuel; lia].
    intros x Hx. apply not_elem_of_union. split.
    + apply not_elem_of_singleton. intros ->. done.
    + apply Hfresh. by right.
Qed.








(** ** A block count that is truncated to zero *)

(** [uint32(blocksNeeded)] is 0 for a payload of 2^32 blocks: nothing is
    allocated, nothing is written, and the new entry records the size of the
    payload over an empty chain. *)
Lemma truncated_write_reads_empty fuel now st path payload target :
  namesOk (root st) ->
  findEntryUnsafe (root st) path = Ok target -> foundIsDir target = false ->
  foundFile target = None ->
  Z.of_nat (length payload) ≠ 0 -> blockSize st ≠ 0 ->
  u32 (blocksNeeded st payload) = 0 ->
  ∃ st', WriteFile fuel now st path payload = (Ok tt, st')
         ∧ ∀ fuel', ReadFile fuel' st' path = Ok [].
Proof.
  intros Hok Efind Edir Enone Hlen Hbs Hcount.
  assert (Hw : ∃ st1, writeFileToBlocks fuel st payload (existingChain target) = (Ok 0, st1)
                      ∧ header st1 = header st
                      ∧ checksumEnabled st1 = checksumEnabled st).
  { unfold writeFileToBlocks, existingChain. rewrite Enone.
    destruct (Z.eqb_spec (Z.of_nat (length payload)) 0); [done|].
    destruct (Z.eqb_spec (blockSize st) 0); [done|].
    fold (blocksNeeded st payload). rewrite Hcount.
    unfold allocate, allocateBlocks. cbn [Z.eqb writeDataBlocks createIndexBlocks].
    eexists. split; [reflexivity|done]. }
  destruct Hw as (st1 & Hw & Hh & Hc).
  rewrite (WriteFile_run _ _ _ _ _ _ _ _ Hok Efind Edir Hw).
  set (file := writtenEntry _ _ _ _ _ _). set (st2 := setRoot st1 _).
  exists (saveBitmap (saveRoot st2)). split; [done|]. intros fuel'.
  destruct (findEntryUnsafe_written (root st1) path target file st2)
    as (target' & Efind' & Edir' & Efile'); [by unfold root; rewrite Hh|done|done|].
  destruct (saved_device st2) as (_ & _ & Hc2).
  unfold ReadFile. rewrite Efind', Edir', Efile'.
  assert (Hmeta : verifyMetadataChecksum (saveBitmap (saveRoot st2)) (Metadata file) = true).
  { unfold file, writtenEntry. rewrite Enone. simpl. apply verify_updated. by rewrite Hc2. }
  rewrite Hmeta. cbn [negb].
  unfold file, writtenEntry. rewrite Enone. reflexivity.
Qed.

(** ** Further properties of the operations *)

(** X1.  [WriteFile] creates no missing parent: for a path "/dir/name" whose
    [dir] is no directory of the root, it returns "directory not found" (the
    first lookup fails before [createDirectoryChain] is reached) and leaves
    the engine state as it was. *)
Theorem write_under_missing_parent fuel now st dir name payload :
  noSlash dir -> nonEmpty dir -> noSlash name -> nonEmpty name ->
  Directories (root st) !! dir = None ->
  WriteFile fuel now st (String "/" (join [dir; name])) payload
  = (Err ErrDirectoryNotFound, st).
Proof.
  intros Hd Hdn Hn Hnn Hmiss.
  assert (Hs : Forall noSlash [dir; name]) by (by repeat constructor).
  assert (Hne : Forall nonEmpty [dir; name]) by (by repeat constructor).
  destruct (split_trim_join [dir; name]) as [Htrim Hsplit]; [done..|].
  assert (Hpath : trim (String "/" (join [dir; name])) = trim (join [dir; name]))
    by reflexivity.
  unfold WriteFile, findEntryUnsafe. rewrite Hpath, Hsplit, Htrim.
  rewrite isEmptyString_false by (by apply join_nonEmpty).
  cbn [removelast dirAt]. by rewrite Hmiss.
Qed.

(** X2.  A successful [WriteFile] leaves the two block counts of the entry
    as they were: those of the entry it replaces, 0 and 0 for a new file. *)
Theorem write_keeps_block_counts fuel now st path payload st' :
  codecRoundTrip -> addressable st -> namesOk (root st) ->
  WriteFile fuel now st path payload = (Ok tt, st') ->
  ∃ target target' file,
    findEntryUnsafe (root st) path = Ok target
    ∧ findEntryUnsafe (root st') path = Ok target'
    ∧ foundIsDir target' = false ∧ foundFile target' = Some file
    ∧ DataBlockCount file = from_option DataBlockCount 0 (foundFile target)
    ∧ IndexBlockCount file = from_option IndexBlockCount 0 (foundFile target).
Proof.
  intros Hcodec Haddr Hnames Hw.
  destruct (WriteFile_Ok _ _ _ _ _ _ Hnames Hw)
    as (target & first & st1 & Efind & Edir & Ewr & ->).
  set (file := writtenEntry _ _ _ _ _ _). set (st2 := setRoot st1 _).
  destruct (writeFileToBlocks_chain _ _ _ _ _ _ Hcodec Haddr Ewr) as [(Hh & _) _].
  destruct (findEntryUnsafe_written (root st1) path target file st2)
    as (target' & Efind' & Edir' & Efile'); [by unfold root; rewrite Hh|done|done|].
  exists target, target', file. repeat (split; [done|]).
  unfold file, writtenEntry. by destruct (foundFile target).
Qed.


(** ** What the volumes the engine builds have in common *)

(** The allocator never changes the capacity: it marks positions it has
    found free, and these lie inside the bitmap. *)
Lemma markBlockUsed_capacity bm p :
  (Z.to_nat (p / 8) < length (data bm))%nat ->
  totalBlocks (markBlockUsed bm p) = totalBlocks bm
  ∧ length (data (markBlockUsed bm p)) = length (data bm).
Proof.
  intros Hin. unfold markBlockUsed.
  assert (He : expandBitmap (Z.to_nat (p / 8 + 1)) bm (p / 8) = bm).
  { destruct (Z.to_nat (p / 8 + 1)); [done|]. simpl.
    destruct (Z.leb_spec (Z.of_nat (length (data bm))) (p / 8)); [lia|done]. }
  rewrite He. simpl. by rewrite length_alter.
Qed.

Lemma isBlockFree_length bm p :
  isBlockFree bm p = true -> (Z.to_nat (p / 8) < length (data bm))%nat.
Proof.
  unfold isBlockFree. destruct (data bm !! Z.to_nat (p / 8)) eqn:E; [|done].
  intros _. by apply lookup_lt_Some in E.
Qed.

Lemma markRun_capacity pos js : ∀ bm acc,
  (∀ j, j ∈ js -> (Z.to_nat (u64 (pos + j) / 8) < length (data bm))%nat) ->
  let r := fold_left
             (fun a j => (markBlockUsed (fst a) (u64 (pos + j)),
                          snd a ++ [u32 (u64 (pos + j) + 1)])) js (bm, acc) in
  totalBlocks (fst r) = totalBlocks bm ∧ length (data (fst r)) = length (data bm).
Proof.
  induction js as [|j js IH]; intros bm acc Hin; simpl; [done|].
  destruct (markBlockUsed_capacity bm (u64 (pos + j))) as [Ht Hl];
    [apply Hin; left|].
  destruct (IH (markBlockUsed bm (u64 (pos + j))) (acc ++ [u32 (u64 (pos + j) + 1)]))
    as [Ht' Hl'].
  { intros j' Hj'. rewrite Hl. apply Hin. by right. }
  simpl in *. split; congruence.
Qed.

Lemma allocateOne_capacity acc :
  totalBlocks (fst (allocateOne acc)) = totalBlocks (fst acc)
  ∧ length (data (fst (allocateOne acc))) = length (data (fst acc)).
Proof.
  unfold allocateOne. destruct (find _ _) as [i|] eqn:E; [|done].
  apply find_some in E as [_ Hfree]. apply isBlockFree_length in Hfree.
  by destruct (markBlockUsed_capacity _ _ Hfree).
Qed.

Lemma markBlockFree_capacity bm p : totalBlocks (markBlockFree bm p) = totalBlocks bm.
Proof. unfold markBlockFree. by destruct (_ <? _). Qed.

Lemma freeBlocks_capacity bm ids : totalBlocks (freeBlocks bm ids) = totalBlocks bm.
Proof.
  unfold freeBlocks. simpl. revert bm.
  induction ids as [|id ids IH]; intros bm; simpl; [done|].
  rewrite IH. unfold freeOne. destruct (id =? NullBlockID); [done|].
  apply markBlockFree_capacity.
Qed.

Lemma allocateBlocksIndividual_capacity bm count :
  totalBlocks (snd (allocateBlocksIndividual bm count)) = totalBlocks bm.
Proof.
  unfold allocateBlocksIndividual.
  assert (Hfold : ∀ (rounds : list Z) acc,
            totalBlocks (fst (fold_left (fun a _ => allocateOne a) rounds acc))
            = totalBlocks (fst acc)).
  { induction rounds as [|r rounds IH]; intros acc; simpl; [done|].
    rewrite IH. apply allocateOne_capacity. }
  specialize (Hfold (seqZ 0 count) (bm, [])).
  destruct (fold_left _ _ _) as [bm1 ids]. simpl in Hfold.
  destruct (_ =? _); simpl; [done|]. rewrite <- Hfold. clear Hfold.
  revert bm1. induction ids as [|id ids IH]; intros bm1; simpl; [done|].
  rewrite IH. apply markBlockFree_capacity.
Qed.

Lemma allocateBlocks_capacity bm count :
  totalBlocks (snd (allocateBlocks bm count)) = totalBlocks bm.
Proof.
  unfold allocateBlocks. destruct (count =? 0); [done|].
  destruct (find _ _) as [i|] eqn:E.
  - apply find_some in E as [_ Hfree].
    apply andb_true_iff in Hfree as [_ Hcan].
    set (pos := u64 (searchPos bm + i) mod totalBlocks bm) in *.
    pose proof (markRun_capacity pos (seqZ 0 count) bm []) as Hrun.
    unfold markRun. destruct (fold_left _ _ _) as [bm1 ids]. simpl in *.
    apply Hrun. intros j Hj. apply isBlockFree_length.
    unfold canAllocate in Hcan. rewrite forallb_forall in Hcan.
    specialize (Hcan j). rewrite <- list_elem_of_In in Hcan.
    by apply Hcan, andb_true_iff in Hj as [_ ?].
  - destruct (1 <? count); [apply allocateBlocksIndividual_capacity|done].
Qed.

(** The operations on blocks keep the configuration and the capacity. *)
Lemma steady_refl st : steady st st.
Proof. done. Qed.

Lemma steady_trans st1 st2 st3 : steady st1 st2 -> steady st2 st3 -> steady st1 st3.
Proof.
  intros [? ?] [? ?]. split; [by eapply sameConfig_trans|congruence].
Qed.

Lemma steady_allocate st count : steady st (snd (allocate st count)).
Proof.
  unfold allocate. pose proof (allocateBlocks_capacity (bitmap st) count) as H.
  by destruct (allocateBlocks _ _).
Qed.

Lemma steady_release st ids : steady st (release st ids).
Proof. split; [done|]. apply freeBlocks_capacity. Qed.

Lemma steady_setBlocksFile st f : steady st (setBlocksFile st f).
Proof. done. Qed.

Lemma steady_writeIndexBlock st id ib : steady st (snd (writeIndexBlock st id ib)).
Proof. unfold writeIndexBlock. by destruct (writeBlock _ _ _ _). Qed.

Lemma steady_releases st (es : list Extent) :
  steady st (fold_left (fun s e => release s (extentBlocks e)) es st).
Proof.
  revert st. induction es as [|e es IH]; intros st; simpl; [done|].
  eapply steady_trans; [|apply IH]. apply steady_release.
Qed.

Lemma steady_freeFileBlocks fuel : ∀ st id, steady st (snd (freeFileBlocks fuel st id)).
Proof.
  induction fuel as [|fuel IH]; intros st id; simpl; [done|].
  destruct (id =? NullBlockID); [done|].
  destruct (readIndexBlock st id) as [ib| |]; [|done..].
  eapply steady_trans; [|apply IH].
  eapply steady_trans; [|apply steady_release].
  eapply steady_trans; [|apply steady_releases].
  apply steady_release.
Qed.

Lemma steady_createIndexLoop chunks : ∀ st acc,
  steady st (snd (createIndexLoop chunks st acc)).
Proof.
  induction chunks as [|ids chunks IH]; intros st acc; simpl; [done|].
  pose proof (steady_allocate st 1) as Ha.
  destruct (allocate st 1) as [[new| |] st1]; simpl in Ha.
  - set (ib := {| BlockIds := ids |}).
    pose proof (steady_writeIndexBlock st1 (List.hd 0 new) ib) as Hw.
    destruct (writeIndexBlock st1 _ ib) as [[[]| |] st2]; simpl in Hw.
    + eapply steady_trans; [|apply IH]. by eapply steady_trans.
    + simpl. eapply steady_trans; [|apply steady_release]. by eapply steady_trans.
    + simpl. by eapply steady_trans.
  - simpl. eapply steady_trans; [done|apply steady_release].
  - done.
Qed.

Lemma steady_linkIndexBlocks ids : ∀ st, steady st (snd (linkIndexBlocks ids st)).
Proof.
  induction ids as [|cur rest IH]; intros st; [done|].
  destruct rest as [|next rest]; [done|].
  change (linkIndexBlocks (cur :: next :: rest) st)
    with (match readIndexBlock st cur with
          | Err e => (Err e, st)
          | Abort r => (Abort r, st)
          | Ok indexBlock =>
              match writeIndexBlock st cur (setNext indexBlock next) with
              | (Ok _, st1) => linkIndexBlocks (next :: rest) st1
              | other => other
              end
          end).
  destruct (readIndexBlock st cur) as [ib| |]; [|done..].
  pose proof (steady_writeIndexBlock st cur (setNext ib next)) as Hw.
  destruct (writeIndexBlock st cur _) as [[[]| |] st1]; simpl in Hw; [|done..].
  eapply steady_trans; [done|apply IH].
Qed.

Lemma steady_createIndexBlocks st dataBlocks :
  steady st (snd (createIndexBlocks st dataBlocks)).
Proof.
  unfold createIndexBlocks. destruct dataBlocks as [|d ds]; [done|].
  pose proof (steady_createIndexLoop
                (chunksOf (length (d :: ds)) (Z.to_nat MaxBlocksPerIndex) (d :: ds))
                st []) as Hl.
  destruct (createIndexLoop _ st []) as [[ids| |] st1]; [|done..].
  pose proof (steady_linkIndexBlocks ids st1) as Hk.
  destruct (linkIndexBlocks ids st1) as [[[]| |] st2]; simpl in *;
    by eapply steady_trans.
Qed.

Lemma steady_writeFileToBlocks fuel st payload existing :
  steady st (snd (writeFileToBlocks fuel st payload existing)).
Proof.
  unfold writeFileToBlocks.
  destruct (Z.of_nat (length payload) =? 0).
  { destruct (existing =? NullBlockID); [done|].
    pose proof (steady_freeFileBlocks fuel st existing) as Hf.
    by destruct (freeFileBlocks fuel st existing) as [[[]| |] st1]. }
  destruct (blockSize st =? 0); [done|].
  pose proof (steady_allocate st (u32 ((Z.of_nat (length payload) + blockSize st - 1)
                                      ÷ blockSize st))) as Ha.
  destruct (allocate st _) as [[dataBlocks| |] st1]; [|done..]. simpl in Ha.
  destruct (writeDataBlocks st1 (blocksFile st1) 0 dataBlocks payload) as [[[]| |] file1].
  - pose proof (steady_createIndexBlocks (setBlocksFile st1 file1) dataBlocks) as Hc.
    destruct (createIndexBlocks _ dataBlocks) as [[first| |] st2]; simpl in Hc.
    + assert (Hst2 : steady st st2).
      { eapply steady_trans; [done|]. eapply steady_trans; [|done].
        apply steady_setBlocksFile. }
      destruct (existing =? NullBlockID); [done|].
      pose proof (steady_freeFileBlocks fuel st2 existing) as Hf.
      destruct (freeFileBlocks fuel st2 existing) as [[[]| |] st3]; simpl in *;
        by eapply steady_trans.
    + simpl. eapply steady_trans; [done|].
      eapply steady_trans; [apply (steady_setBlocksFile st1 file1)|].
      eapply steady_trans; [done|apply steady_release].
    + simpl. eapply steady_trans; [done|].
      eapply steady_trans; [apply (steady_setBlocksFile st1 file1)|done].
  - simpl. eapply steady_trans; [done|].
    eapply steady_trans; [apply (steady_setBlocksFile st1 file1)|apply steady_release].
  - simpl. by eapply steady_trans.
Qed.

(** The operations on the tree keep the names proper. *)
Lemma namesOk_updateDir f loc : ∀ d,
  (∀ d', namesOk d' -> namesOk (f d')) ->
  namesOk d -> namesOk (updateDir f loc d).
Proof.
  induction loc as [|n loc IH]; intros d Hf Hok; simpl; [by apply Hf|].
  destruct (Directories d !! n) as [sub|] eqn:E; [|done].
  destruct Hok as [d Hempty Hsub].
  assert (Hn : n ≠ EmptyString) by (intros ->; congruence).
  constructor; simpl.
  - by rewrite lookup_insert_ne.
  - intros m sub' Hm. destruct (decide (n = m)) as [<-|Hne].
    + rewrite lookup_insert_eq in Hm. injection Hm as <-. apply IH; eauto.
    + rewrite lookup_insert_ne in Hm by done. eauto.
Qed.

Lemma namesOk_setFiles d fs : namesOk d -> namesOk (setFiles d fs).
Proof. intros [d' H1 H2]. by constructor. Qed.

Lemma namesOk_newDirectory st now part : namesOk (newDirectory st now part).
Proof.
  constructor; simpl; [apply lookup_empty|].
  intros n sub H. by rewrite lookup_empty in H.
Qed.

Lemma namesOk_createDirectories st now parts : ∀ d,
  namesOk d -> namesOk (createDirectories st now parts d).
Proof.
  induction parts as [|part parts IH]; intros d Hok; simpl; [done|].
  destruct (isEmptyString part) eqn:Epart; [by apply IH|].
  assert (Hpart : part ≠ EmptyString) by (by destruct part).
  destruct Hok as [d Hempty Hsub].
  constructor; simpl.
  - by rewrite lookup_insert_ne.
  - intros m sub' Hm. destruct (decide (part = m)) as [<-|Hne].
    + rewrite lookup_insert_eq in Hm. injection Hm as <-. apply IH.
      destruct (Directories d !! part) eqn:E; [eauto|apply namesOk_newDirectory].
    + rewrite lookup_insert_ne in Hm by done. eauto.
Qed.

Lemma wellFormed_steady st st' :
  steady st st' -> wellFormed st -> wellFormed st'.
Proof.
  intros [(Hh & Hb & _) Ht] (Hbs & Htot & Hok). unfold wellFormed, root.
  by rewrite Hh, Hb, Ht.
Qed.

Lemma wellFormed_setRoot st r : wellFormed st -> namesOk r -> wellFormed (setRoot st r).
Proof. intros (? & ? & _) ?. split; [done|]. split; done. Qed.

Lemma wellFormed_saveRoot st : wellFormed st -> wellFormed (saveRoot st).
Proof.
  intros (Hbs & Htot & Hok). unfold saveRoot.
  destruct (checksumEnabled st); [|done].
  apply wellFormed_setRoot; [done|]. by apply namesOk_setDirMetadata.
Qed.

Lemma wellFormed_saveBitmap st : wellFormed st -> wellFormed (saveBitmap st).
Proof. unfold saveBitmap. by destruct (dirty (bitmap st)). Qed.

Lemma wellFormed_createDirectoryChain st now path :
  wellFormed st -> wellFormed (createDirectoryChain st now path).
Proof.
  intros Hwf. unfold createDirectoryChain. destruct (isEmptyString path); [done|].
  apply wellFormed_setRoot; [done|]. apply namesOk_createDirectories. apply Hwf.
Qed.

Lemma wellFormed_entry st loc (f : gmap string FileEntry -> gmap string FileEntry) :
  wellFormed st ->
  wellFormed (saveBitmap (saveRoot (setRoot st
    (updateDir (fun d => setFiles d (f (Files d))) loc (root st))))).
Proof.
  intros Hwf. apply wellFormed_saveBitmap, wellFormed_saveRoot.
  apply wellFormed_setRoot; [done|].
  apply namesOk_updateDir; [|apply Hwf]. intros d'. apply namesOk_setFiles.
Qed.

Lemma wellFormed_WriteFile fuel now st path payload :
  wellFormed st -> wellFormed (snd (WriteFile fuel now st path payload)).
Proof.
  intros Hwf. unfold WriteFile.
  destruct (findEntryUnsafe (root st) path) as [target| |]; [|done..].
  destruct (foundIsDir target && isNil (foundFile target)); [done|].
  set (parentPath := join _).
  assert (Hparent : ∃ parentDir st0,
            match findEntryUnsafe (root st) parentPath with
            | Ok parent => (Some (foundLoc parent), st)
            | _ =>
                match findEntryUnsafe (root (createDirectoryChain st now parentPath))
                        parentPath with
                | Ok parent => (Some (foundLoc parent), createDirectoryChain st now parentPath)
                | _ => (None, createDirectoryChain st now parentPath)
                end
            end = (parentDir, st0) ∧ wellFormed st0).
  { pose proof (wellFormed_createDirectoryChain st now parentPath Hwf) as Hc.
    destruct (findEntryUnsafe (root st) parentPath); [by eauto|..];
      destruct (findEntryUnsafe _ parentPath); by eauto. }
  destruct Hparent as (parentDir & st0 & -> & Hwf0).
  pose proof (steady_writeFileToBlocks fuel st0 payload
                match foundFile target with
                | Some file => FirstIndexBlockId file
                | None => 0
                end) as Hs.
  destruct (writeFileToBlocks fuel st0 payload _) as [[first| |] st1]; simpl in Hs;
    [|by eapply wellFormed_steady..].
  pose proof (wellFormed_steady _ _ Hs Hwf0) as Hwf1.
  destruct (foundFile target) as [old|].
  - apply (wellFormed_entry st1 _ (fun fs => <[_ := _]> fs) Hwf1).
  - destruct parentDir as [loc|]; [|done].
    apply (wellFormed_entry st1 _ (fun fs => <[_ := _]> fs) Hwf1).
Qed.

Lemma wellFormed_DeleteFile fuel st path :
  wellFormed st -> wellFormed (snd (DeleteFile fuel st path)).
Proof.
  intros Hwf. unfold DeleteFile.
  destruct (findEntryUnsafe (root st) path) as [target| |]; [|done..].
  destruct (foundIsDir target); [done|].
  destruct (foundFile target) as [file|]; [|done].
  pose proof (steady_freeFileBlocks fuel st (FirstIndexBlockId file)) as Hs.
  destruct (freeFileBlocks fuel st _) as [[[]| |] st1]; simpl in Hs;
    [|by eapply wellFormed_steady..].
  pose proof (wellFormed_steady _ _ Hs Hwf) as Hwf1.
  apply (wellFormed_entry st1 _ (fun fs => delete _ fs) Hwf1).
Qed.

Lemma wellFormed_CreateDirectory now st path :
  wellFormed st -> wellFormed (snd (CreateDirectory now st path)).
Proof.
  intros Hwf. unfold CreateDirectory.
  pose proof (wellFormed_saveRoot _ (wellFormed_createDirectoryChain st now path Hwf)).
  destruct (findEntryUnsafe (root st) path) as [target| |]; [|done..].
  by destruct (foundIsDir target).
Qed.

Lemma wellFormed_fresh now : wellFormed (createFileSystem now).
Proof.
  split; [done|]. split; [done|].
  constructor; simpl; [apply lookup_empty|].
  intros n sub H. by rewrite lookup_empty in H.
Qed.

Lemma wellFormed_addressable st : wellFormed st -> addressable st.
Proof.
  intros (Hbs & Htot & _). unfold addressable. rewrite Hbs, Htot.
  unfold DefaultBlockSize. lia.
Qed.

(** X5.  Every volume reached from a fresh one by [WriteFile], [DeleteFile]
    and [CreateDirectory], whatever these return, has 4096-byte blocks and a
    bitmap of 8192 blocks, so it is addressable, and stores no directory
    under the empty name. *)
Theorem reachable_wellFormed st :
  reachable st -> wellFormed st ∧ addressable st.
Proof.
  intros Hr. assert (Hwf : wellFormed st); [|by eauto using wellFormed_addressable].
  induction Hr.
  - apply wellFormed_fresh.
  - by apply wellFormed_WriteFile.
  - by apply wellFormed_DeleteFile.
  - by apply wellFormed_CreateDirectory.
Qed.

(** ** Directories made and files deleted *)








Lemma sameDevice_sym st st' : sameDevice st st' -> sameDevice st' st.
Proof. intros [(? & ? & ?) ?]. by repeat split. Qed.

(** A walk of [freeFileBlocks] that returns has read a chain to its end. *)
Lemma freeFileBlocks_Ok_chain fuel : ∀ st first st',
  freeFileBlocks fuel st first = (Ok tt, st') ->
  ∃ c, chain st first c ∧ (length c < fuel)%nat.
Proof.
  induction fuel as [|fuel IH]; intros st first st'; simpl; [done|].
  unfold NullBlockID. destruct (Z.eqb_spec first 0) as [->|Hne].
  { intros _. exists []. split; [constructor|simpl; lia]. }
  destruct (readIndexBlock st first) as [ib| |] eqn:Hread; [|done..].
  set (st3 := release _ [first]). intros Hfree.
  destruct (IH _ _ _ Hfree) as (c & Hc & Hlen).
  assert (Hs : sameDevice st st3).
  { eapply sameDevice_trans; [|apply sameDevice_release].
    eapply sameDevice_trans; [|apply sameDevice_releases].
    apply sameDevice_release. }
  exists ((first, ib) :: c). split; [|simpl; lia].
  constructor; [done..|]. apply (chain_sameDevice st3 st); [by apply sameDevice_sym|done].
Qed.

(** X8.  A successful [DeleteFile] had a file at the path and read its
    chain to the end; afterwards the path names no file ([ReadFile] and a
    second [DeleteFile] answer "file not found" and change nothing) and
    every block of the chain that lies inside the bitmap is free. *)
Theorem delete_file_removes_and_frees fuel st path st' :
  namesOk (root st) ->
  DeleteFile fuel st path = (Ok tt, st') ->
  ∃ target file c,
    findEntryUnsafe (root st) path = Ok target
    ∧ foundIsDir target = false ∧ foundFile target = Some file
    ∧ chain st (FirstIndexBlockId file) c
    ∧ (∀ fuel', ReadFile fuel' st' path = Err ErrFileNotFound)
    ∧ (∀ fuel', DeleteFile fuel' st' path = (Err ErrFileNotFound, st'))
    ∧ ∀ id, id ∈ chainBlocks c -> isU32 id -> id ≠ 0 ->
            is_Some (bitAt (bitmap st) (id - 1)) ->
            isBlockFree (bitmap st') (id - 1) = true.
Proof.
  intros Hnames Hdel. unfold DeleteFile in Hdel.
  destruct (findEntryUnsafe (root st) path) as [target| |] eqn:Efind; [|done..].
  destruct (foundIsDir target) eqn:Edir; [done|].
  destruct (foundFile target) as [file|] eqn:Efile; [|done].
  destruct (freeFileBlocks fuel st (FirstIndexBlockId file)) as [[[]| |] st1] eqn:Hfree;
    [|done..].
  injection Hdel as <-.
  destruct (freeFileBlocks_Ok_chain _ _ _ _ Hfree) as (c & Hchain & Hlen).
  destruct (freeFileBlocks_chain c fuel st _ Hchain Hlen)
    as (st1' & Hfree' & ((Hh & _) & _) & _ & Hfreed).
  rewrite Hfree in Hfree'. injection Hfree' as <-.
  set (st2 := setRoot st1 _).
  destruct (findEntryUnsafe_deleted (root st1) path target st2)
    as (target' & Efind' & Edir' & Efile'); [by unfold root; rewrite Hh|done|done|].
  exists target, file, c. repeat (split; [done|]).
  split; [|split].
  - intros fuel'. unfold ReadFile. by rewrite Efind', Edir', Efile'.
  - intros fuel'. unfold DeleteFile. by rewrite Efind', Edir', Efile'.
  - intros id Hid Hu Hne Hin. rewrite bitmap_saved. by apply Hfreed.
Qed.

(** X9.  The operations see a path through [strings.Trim(path, "/")] only:
    two paths that differ in leading and trailing slashes are the same path
    to each of them. *)
Theorem paths_up_to_outer_slashes p q :
  trim p = trim q ->
  (∀ fuel st, ReadFile fuel st p = ReadFile fuel st q)
  ∧ (∀ fuel now st payload, WriteFile fuel now st p payload = WriteFile fuel now st q payload)
  ∧ (∀ fuel st, DeleteFile fuel st p = DeleteFile fuel st q)
  ∧ (∀ now st, CreateDirectory now st p = CreateDirectory now st q)
  ∧ (∀ st, DeleteDirectory st p = DeleteDirectory st q)
  ∧ (∀ st, Ls st p = Ls st q).
Proof.
  intros Htrim.
  assert (Hfind : ∀ r, findEntryUnsafe r p = findEntryUnsafe r q)
    by (intros r; unfold findEntryUnsafe; by rewrite Htrim).
  split; [|split; [|split; [|split; [|split]]]].
  - intros fuel st. unfold ReadFile. by rewrite Hfind.
  - intros fuel now st payload. unfold WriteFile. by rewrite Hfind, Htrim.
  - intros fuel st. unfold DeleteFile. by rewrite Hfind, Htrim.
  - intros now st. unfold CreateDirectory. rewrite Hfind.
    destruct (decide (trim q = EmptyString)) as [Eq|Hq].
    { unfold findEntryUnsafe. by rewrite Eq. }
    assert (Hp : nonEmpty (trim p)) by (by rewrite Htrim).
    assert (Hchain : createDirectoryChain st now p = createDirectoryChain st now q).
    { unfold createDirectoryChain. rewrite !trim_nonEmpty by done.
      rewrite (createDirectories_properNames _ _ (split p)),
        (createDirectories_properNames _ _ (split q)).
      rewrite (properNames_trim p), (properNames_trim q) by done. by rewrite Htrim. }
    by rewrite Hchain.
  - intros st. unfold DeleteDirectory. by rewrite Hfind, Htrim.
  - intros st. unfold Ls. by rewrite Hfind.
Qed.

(** ** Listing and maintenance *)

(** X10.  [Ls] on a path that resolves to no directory answers "path is
    not a directory".  On a directory it returns one entry for each
    subdirectory and one for each file, and nothing else: as many entries
    as the directory has subdirectories and files, a directory entry for
    every name of the first map and a file entry, with its size and block
    count, for every name of the second. *)
Theorem ls_lists_the_directory st path target :
  findEntryUnsafe (root st) path = Ok target ->
  (foundIsDir target = false -> Ls st path = Err ErrNotADirectory)
  ∧ (foundIsDir target = true ->
     ∃ entries,
       Ls st path = Ok entries
       ∧ length entries = (size (Directories (foundDir target))
                           + size (Files (foundDir target)))%nat
       ∧ ∀ info, info ∈ entries
           <-> (∃ name sub, Directories (foundDir target) !! name = Some sub
                            ∧ info = directoryInfo name sub)
               ∨ (∃ name file, Files (foundDir target) !! name = Some file
                               ∧ info = fileInfo name file)).
Proof.
  intros Efind. unfold Ls. rewrite Efind. split; intros ->; [done|].
  eexists. split; [reflexivity|]. split.
  - by rewrite length_app, !length_map, !length_map_to_list.
  - intros info. rewrite elem_of_app, !list_elem_of_In, !in_map_iff. split.
    + intros [([name sub] & <- & Hin)|([name file] & <- & Hin)]; [left|right];
        apply list_elem_of_In, elem_of_map_to_list in Hin; eauto.
    + intros [(name & sub & Hin & ->)|(name & file & Hin & ->)]; [left|right].
      * exists (name, sub). split; [done|].
        by apply list_elem_of_In, elem_of_map_to_list.
      * exists (name, file). split; [done|].
        by apply list_elem_of_In, elem_of_map_to_list.
Qed.

(** X11.  After a successful [WriteFile], [GetFileInfo] of the path
    reports a file of the size of the payload, modified at the time of the
    write; its name is the last component of the path when the file is new,
    and its block count is the one the entry had before, 0 when the file is
    new, whatever the payload. *)
Theorem stat_after_write base fuel now st path payload st' :
  codecRoundTrip -> addressable st -> namesOk (root st) ->
  WriteFile fuel now st path payload = (Ok tt, st') ->
  ∃ target info,
    findEntryUnsafe (root st) path = Ok target
    ∧ GetFileInfo base st' path = Ok info
    ∧ IsDirectory info = false
    ∧ InfoSize info = Z.of_nat (length payload)
    ∧ InfoModTime info = now
    ∧ InfoBlockCount info = from_option DataBlockCount 0 (foundFile target)
    ∧ (foundFile target = None ->
       InfoName info = List.last (split (trim path)) EmptyString
       ∧ InfoCreateTime info = now).
Proof.
  intros Hcodec Haddr Hnames Hw.
  destruct (WriteFile_Ok _ _ _ _ _ _ Hnames Hw)
    as (target & first & st1 & Efind & Edir & Ewr & ->).
  destruct (writeFileToBlocks_chain _ _ _ _ _ _ Hcodec Haddr Ewr) as [(Hh & _) _].
  set (file := writtenEntry _ _ _ _ _ _). set (st2 := setRoot st1 _).
  destruct (findEntryUnsafe_written (root st1) path target file st2)
    as (target' & Efind' & Edir' & Efile'); [by unfold root; rewrite Hh|done|done|].
  exists target, (fileInfo (Name (Metadata file)) file).
  split; [done|]. split; [unfold GetFileInfo; by rewrite Efind', Edir', Efile'|].
  unfold file, writtenEntry, updateMetadataChecksum.
  destruct (foundFile target) as [old|]; destruct (checksumEnabled st1); simpl;
    repeat (split; [done|]); done.
Qed.

Lemma saveRoot_saveRoot st : saveRoot (saveRoot st) = saveRoot st.
Proof.
  unfold saveRoot. destruct st as [bs [v hbs r tb ce] bm f c]. simpl.
  destruct c; [|done]. simpl. unfold updateMetadataChecksum. simpl. done.
Qed.

Lemma saveRoot_saveBitmap st : saveRoot (saveBitmap st) = saveBitmap (saveRoot st).
Proof.
  unfold saveRoot, saveBitmap. destruct (checksumEnabled st) eqn:Ec;
    destruct (dirty (bitmap st)) eqn:Ed; simpl; by rewrite ?Ec, ?Ed.
Qed.

Lemma saveBitmap_saveBitmap st : saveBitmap (saveBitmap st) = saveBitmap st.
Proof.
  unfold saveBitmap. destruct (dirty (bitmap st)) eqn:Ed; simpl; [done|by rewrite Ed].
Qed.

Lemma readFileFromBlocks_ext st st' :
  blockSize st' = blockSize st -> blocksFile st' = blocksFile st ->
  checksumEnabled st' = checksumEnabled st ->
  ∀ fuel first size,
    readFileFromBlocks fuel st' first size = readFileFromBlocks fuel st first size.
Proof.
  intros Hb Hf Hc fuel first size.
  unfold readFileFromBlocks. destruct (_ || _); [done|].
  generalize (@nil Z) 0 first.
  induction fuel as [|fuel IH]; intros result bytesRead id; [done|]. simpl.
  destruct (_ || _); [done|].
  rewrite (readIndexBlock_ext st st') by done.
  destruct (readIndexBlock st id) as [ib| |]; [|done..].
  assert (Hdata : ∀ ids res n,
            readDataBlocks st' ids size res n = readDataBlocks st ids size res n).
  { induction ids as [|d ids IHd]; intros res n; simpl; [done|].
    destruct (_ <=? _); [done|]. rewrite Hb, Hf.
    destruct (readBlock _ _ d); [apply IHd|done..]. }
  rewrite Hdata. destruct (readDataBlocks _ _ _ _ _) as [[r n]| |]; [apply IH|done..].
Qed.

Lemma ReadFile_ext st st' :
  root st' = root st -> blockSize st' = blockSize st ->
  blocksFile st' = blocksFile st -> checksumEnabled st' = checksumEnabled st ->
  ∀ fuel path, ReadFile fuel st' path = ReadFile fuel st path.
Proof.
  intros Hr Hb Hf Hc fuel path. unfold ReadFile. rewrite Hr.
  destruct (findEntryUnsafe (root st) path) as [target| |]; [|done..].
  destruct (foundIsDir target); [done|]. destruct (foundFile target) as [file|]; [|done].
  unfold verifyMetadataChecksum. rewrite Hc.
  by rewrite (readFileFromBlocks_ext st st').
Qed.

(** Saving the root changes the checksum of the root and nothing a lookup
    returns but the directory pointer. *)
Lemma findEntryUnsafe_setDirMetadata r m path :
  match findEntryUnsafe r path, findEntryUnsafe (setDirMetadata r m) path with
  | Ok t, Ok t' => foundIsDir t' = foundIsDir t ∧ foundFile t' = foundFile t
  | Err e, Err e' => e' = e
  | Abort a, Abort a' => a' = a
  | _, _ => False
  end.
Proof.
  unfold findEntryUnsafe. destruct (isEmptyString (trim path)); [done|].
  rewrite dirAt_setDirMetadata.
  destruct (removelast (split (trim path))) as [|n loc]; simpl.
  - by destruct (Directories r !! _).
  - destruct (Directories r !! n) as [sub|]; [|done].
    destruct (dirAt loc sub) as [cur|]; [|done]. by destruct (Directories cur !! _).
Qed.

Lemma ReadFile_Sync st fuel path : ReadFile fuel (Sync st) path = ReadFile fuel st path.
Proof.
  destruct (saved_device st) as (Hb & Hf & Hc).
  destruct (root_saved st) as [Hr|[m Hr]].
  { by apply ReadFile_ext. }
  pose proof (findEntryUnsafe_setDirMetadata (root st) m path) as Hfind.
  transitivity (ReadFile fuel (setRoot st (setDirMetadata (root st) m)) path).
  { apply ReadFile_ext; done. }
  unfold ReadFile. change (root (setRoot st ?r)) with r.
  destruct (findEntryUnsafe (root st) path) as [t| |],
    (findEntryUnsafe (setDirMetadata (root st) m) path) as [t'| |]; try done;
    [|by subst..].
  destruct Hfind as [-> ->]. destruct (foundIsDir t); [done|].
  destruct (foundFile t) as [file|]; [|done].
  by rewrite (readFileFromBlocks_ext st (setRoot st (setDirMetadata (root st) m))).
Qed.

(** X13.  [Sync] (and [Close], which is [Sync]) is idempotent, changes no
    answer of [ReadFile], and leaves a root whose checksum verifies; and the
    volume a successful [WriteFile] or [DeleteFile] leaves is already
    synced. *)
Theorem sync_settles st :
  Sync (Sync st) = Sync st
  ∧ Close st = Sync st
  ∧ (∀ fuel path, ReadFile fuel (Sync st) path = ReadFile fuel st path)
  ∧ verifyMetadataChecksum (Sync st) (DirMetadata (root (Sync st))) = true
  ∧ (∀ fuel now path payload st',
       namesOk (root st) -> WriteFile fuel now st path payload = (Ok tt, st') ->
       Sync st' = st')
  ∧ (∀ fuel path st', DeleteFile fuel st path = (Ok tt, st') -> Sync st' = st').
Proof.
  assert (Hidem : ∀ s, Sync (Sync s) = Sync s).
  { intros s. unfold Sync.
    by rewrite saveRoot_saveBitmap, saveRoot_saveRoot, saveBitmap_saveBitmap. }
  split; [apply Hidem|]. split; [done|]. split; [intros; apply ReadFile_Sync|].
  split; [|split].
  - destruct (saved_device st) as (_ & _ & Hc). fold (Sync st) in Hc.
    destruct (checksumEnabled st) eqn:Ec.
    + assert (Hm : DirMetadata (root (Sync st))
                   = updateMetadataChecksum st (DirMetadata (root st))).
      { unfold Sync, saveBitmap, saveRoot. rewrite Ec. simpl.
        by destruct (dirty (bitmap st)). }
      rewrite Hm. apply verify_updated. by rewrite Hc.
    + unfold verifyMetadataChecksum. by rewrite Hc.
  - intros fuel now path payload st' Hnames Hw.
    destruct (WriteFile_Ok _ _ _ _ _ _ Hnames Hw) as (? & ? & ? & _ & _ & _ & ->).
    apply Hidem.
  - intros fuel path st'. unfold DeleteFile.
    destruct (findEntryUnsafe (root st) path) as [target| |]; [|done..].
    destruct (foundIsDir target); [done|]. destruct (foundFile target); [|done].
    destruct (freeFileBlocks _ _ _) as [[[]| |] st1]; [|done..].
    intros [= <-]. apply Hidem.
Qed.

Lemma find_after (f : Z -> bool) l1 l2 :
  (∀ x, x ∈ l1 -> f x = false) -> find f (l1 ++ l2) = find f l2.
Proof.
  induction l1 as [|x l1 IH]; intros Hall; simpl; [done|].
  rewrite Hall by left. apply IH. intros y Hy. apply Hall. by right.
Qed.

Lemma find_seqZ_least (f : Z -> bool) n p :
  0 <= p < n -> f p = true -> (∀ q, 0 <= q < p -> f q = false) ->
  find f (seqZ 0 n) = Some p.
Proof.
  intros Hp Htrue Hbelow.
  replace n with (p + (n - p)) by lia. rewrite seqZ_app by lia.
  rewrite find_after by (intros x Hx; apply elem_of_seqZ in Hx; apply Hbelow; lia).
  change (0 + p) with p. rewrite seqZ_cons by lia. cbn [find]. by rewrite Htrue.
Qed.

(** X14.  [Defragment] moves no block: the free map, the capacity and every
    answer of [ReadFile] are as before; it resets the search position, so
    that the next request for one block is given the lowest free block. *)
Theorem defragment_only_resets_the_search st :
  (∀ q, isBlockFree (bitmap (Defragment st)) q = isBlockFree (bitmap st) q)
  ∧ totalBlocks (bitmap (Defragment st)) = totalBlocks (bitmap st)
  ∧ searchPos (bitmap (Defragment st)) = 0
  ∧ (∀ fuel path, ReadFile fuel (Defragment st) path = ReadFile fuel st path)
  ∧ ∀ p, 0 <= p < totalBlocks (bitmap st) -> totalBlocks (bitmap st) < 2 ^ 32 ->
         isBlockFree (bitmap st) p = true ->
         (∀ q, 0 <= q < p -> isBlockFree (bitmap st) q = false) ->
         fst (allocate (Defragment st) 1) = Ok [p + 1].
Proof.
  assert (Hfree : ∀ q, isBlockFree (bitmap (Defragment st)) q = isBlockFree (bitmap st) q)
    by (intros q; by apply isBlockFree_data).
  split; [done|]. split; [done|]. split; [done|]. split.
  { intros fuel path. by apply ReadFile_ext. }
  intros p Hp Htot Hp_free Hbelow.
  set (bm := bitmap (Defragment st)).
  assert (Hpos : ∀ i, 0 <= i < totalBlocks (bitmap st) ->
                      u64 (searchPos bm + i) mod totalBlocks bm = i).
  { intros i Hi. change (searchPos bm) with 0. change (totalBlocks bm)
      with (totalBlocks (bitmap st)).
    rewrite u64_small by lia. apply Z.mod_small. lia. }
  unfold allocate, allocateBlocks. fold bm. cbn [Z.eqb].
  rewrite (find_seqZ_least _ (totalBlocks bm) p); [| done | |].
  - rewrite (Hpos p Hp). unfold markRun. change (seqZ 0 1) with [0]. simpl.
    rewrite Z.add_0_r, u64_small, u32_small by lia. done.
  - rewrite (Hpos p Hp). unfold canAllocate. change (seqZ 0 1) with [0]. simpl.
    rewrite Z.add_0_r, u64_small by lia. fold bm. rewrite !Hfree, Hp_free.
    change (totalBlocks bm) with (totalBlocks (bitmap st)).
    destruct (Z.leb_spec (totalBlocks (bitmap st)) p); [lia|done].
  - intros q Hq. rewrite (Hpos q) by lia. fold bm. rewrite Hfree, Hbelow; done.
Qed.

(** ** Allocation undone *)

Lemma markBlockFree_length bm p : length (data (markBlockFree bm p)) = length (data bm).
Proof. unfold markBlockFree. destruct (_ <? _); [simpl; apply length_alter|done]. Qed.

Lemma allocateRounds_length (rounds : list Z) : ∀ acc,
  length (data (fst (fold_left (fun a _ => allocateOne a) rounds acc)))
  = length (data (fst acc)).
Proof.
  induction rounds as [|r rounds IH]; intros acc; simpl; [done|].
  rewrite IH. apply allocateOne_capacity.
Qed.

Lemma allocateBlocksIndividual_length bm count :
  length (data (snd (allocateBlocksIndividual bm count))) = length (data bm).
Proof.
  unfold allocateBlocksIndividual.
  pose proof (allocateRounds_length (seqZ 0 count) (bm, [])) as Hfold.
  destruct (fold_left _ _ _) as [bm1 ids]. simpl in Hfold.
  destruct (_ =? _); simpl; [done|]. rewrite <- Hfold. clear Hfold.
  revert bm1. induction ids as [|id ids IH]; intros bm1; simpl; [done|].
  rewrite IH. apply markBlockFree_length.
Qed.

Lemma allocateBlocks_length bm count :
  length (data (snd (allocateBlocks bm count))) = length (data bm).
Proof.
  unfold allocateBlocks. destruct (count =? 0); [done|].
  destruct (find _ _) as [i|] eqn:E.
  - apply find_some in E as [_ Hfree].
    apply andb_true_iff in Hfree as [_ Hcan].
    set (pos := u64 (searchPos bm + i) mod totalBlocks bm) in *.
    pose proof (markRun_capacity pos (seqZ 0 count) bm []) as Hrun.
    unfold markRun. destruct (fold_left _ _ _) as [bm1 ids]. simpl in *.
    apply Hrun. intros j Hj. apply isBlockFree_length.
    unfold canAllocate in Hcan. rewrite forallb_forall in Hcan.
    specialize (Hcan j). rewrite <- list_elem_of_In in Hcan.
    by apply Hcan, andb_true_iff in Hj as [_ ?].
  - destruct (1 <? count); [apply allocateBlocksIndividual_length|done].
Qed.

Lemma bitAt_inside_length bm bm' q :
  length (data bm') = length (data bm) -> is_Some (bitAt bm q) -> is_Some (bitAt bm' q).
Proof.
  unfold bitAt. intros Hlen [b Hb].
  destruct (data bm !! Z.to_nat (q / 8)) as [x|] eqn:E; [|done].
  apply lookup_lt_Some in E. rewrite <- Hlen in E.
  apply lookup_lt_is_Some in E as [y ->]. by eexists.
Qed.

(** Freeing touches the positions of the identifiers freed and no other. *)
Lemma bitAt_fold_free ids : ∀ bm q,
  0 <= q -> (∀ id, id ∈ ids -> id ≠ 0 -> u32 (id - 1) ≠ q) ->
  bitAt (fold_left freeOne ids bm) q = bitAt bm q.
Proof.
  induction ids as [|id ids IH]; intros bm q Hq Hids; simpl; [done|].
  rewrite IH; [|done|intros id' Hid' Hne'; apply Hids; [by right|done]].
  unfold freeOne, NullBlockID. destruct (Z.eqb_spec id 0) as [|Hne]; [done|].
  pose proof (u32_range (id - 1)).
  rewrite bitAt_markBlockFree by lia.
  destruct (bitAt bm q) as [b|]; [|done]. simpl.
  destruct (Z.eqb_spec q (u32 (id - 1))) as [->|]; [|by rewrite andb_true_r].
  exfalso. by apply (Hids id); [left|..].
Qed.

(** The loop that undoes a failed scattered allocation is the loop of
    [freeBlocks], the identifiers being none of them 0. *)
Lemma rollback_is_free ids : ∀ bm,
  (∀ id, id ∈ ids -> id ≠ 0) ->
  fold_left (fun b blockID => markBlockFree b (u32 (blockID - 1))) ids bm
  = fold_left freeOne ids bm.
Proof.
  induction ids as [|id ids IH]; intros bm Hids; simpl; [done|].
  unfold freeOne at 2, NullBlockID.
  rewrite (proj2 (Z.eqb_neq id 0)) by (apply Hids; by left).
  apply IH. intros id' Hid'. apply Hids. by right.
Qed.

(** Freeing what an allocation handed out gives back the free map from
    before the allocation. *)
Lemma free_allocated bm ids bm1 :
  totalBlocks bm < 2 ^ 32 -> allocated bm ids bm1 ->
  length (data bm1) = length (data bm) ->
  ∀ q, 0 <= q -> isBlockFree (fold_left freeOne ids bm1) q = isBlockFree bm q.
Proof.
  intros Hlt (Htot & Hnd & Hids & Hothers) Hlen q Hq.
  destruct (decide (q + 1 ∈ ids)) as [Hin|Hout].
  - destruct (Hids _ Hin) as (Hrange & Hfree & _).
    replace (q + 1 - 1) with q in Hfree by lia. rewrite Hfree.
    pose proof (freeBlocks_frees bm1 ids (q + 1) Hin) as Hf.
    replace (q + 1 - 1) with q in Hf by lia.
    rewrite <- Hf; [by apply isBlockFree_data|unfold isU32; lia|lia|].
    eapply bitAt_inside_length; [done|]. by apply isBlockFree_inside.
  - rewrite isBlockFree_bitAt, bitAt_fold_free, <- isBlockFree_bitAt;
      [by apply Hothers|done|].
    intros id Hid Hne Heq. destruct (Hids _ Hid) as (Hrange & _).
    rewrite u32_small in Heq by lia. apply Hout. by replace (q + 1) with id by lia.
Qed.

(** X16.  Freeing the blocks a successful allocation returned undoes it:
    every position is free afterwards exactly if it was free before the
    allocation, and the capacity is the same. *)
Theorem allocate_then_free bm n ids bm' :
  0 <= totalBlocks bm < 2 ^ 32 -> 0 <= n < 2 ^ 32 ->
  allocateBlocks bm n = (Ok ids, bm') ->
  totalBlocks (freeBlocks bm' ids) = totalBlocks bm
  ∧ ∀ q, 0 <= q -> isBlockFree (freeBlocks bm' ids) q = isBlockFree bm q.
Proof.
  intros Ht Hn Ha.
  destruct (allocateBlocks_allocated _ _ _ _ Ht Hn Ha) as [Hpost _].
  pose proof (allocateBlocks_length bm n) as Hlen. rewrite Ha in Hlen.
  split.
  - rewrite freeBlocks_capacity. apply Hpost.
  - intros q Hq. unfold freeBlocks.
    rewrite (isBlockFree_data _ (fold_left freeOne ids bm')) by done.
    apply (free_allocated bm); [lia|done..].
Qed.

(** The positions the search of [allocateBlocks] visits are all the
    positions of the capacity. *)
Lemma search_covers bm q :
  0 <= searchPos bm <= totalBlocks bm -> totalBlocks bm < 2 ^ 32 ->
  0 <= q < totalBlocks bm ->
  ∃ i, i ∈ seqZ 0 (totalBlocks bm) ∧ u64 (searchPos bm + i) mod totalBlocks bm = q.
Proof.
  intros Hsp Hlt Hq. exists ((q - searchPos bm) mod totalBlocks bm).
  pose proof (Z.mod_pos_bound (q - searchPos bm) (totalBlocks bm)) as Hi.
  split; [apply elem_of_seqZ; lia|].
  rewrite u64_small by lia.
  rewrite Z.add_mod_idemp_r by lia.
  replace (searchPos bm + (q - searchPos bm)) with q by lia.
  apply Z.mod_small. lia.
Qed.

Lemma canAllocate_one bm p :
  0 <= p < totalBlocks bm -> totalBlocks bm < 2 ^ 32 ->
  canAllocate bm p 1 = isBlockFree bm p.
Proof.
  intros Hp Hlt. unfold canAllocate. change (seqZ 0 1) with [0]. cbn [forallb].
  rewrite Z.add_0_r, u64_small, andb_true_r by lia.
  destruct (Z.leb_spec (totalBlocks bm) p); [lia|done].
Qed.

(** A failed allocation leaves the free map as it was. *)
Lemma allocateBlocks_refused bm n e bm' :
  0 <= totalBlocks bm < 2 ^ 32 ->
  allocateBlocks bm n = (Err e, bm') ->
  (e = ErrNoFreeBlocks ∨ e = ErrCouldNotAllocate)
  ∧ totalBlocks bm' = totalBlocks bm
  ∧ (∀ q, 0 <= q -> isBlockFree bm' q = isBlockFree bm q).
Proof.
  intros Ht Ha.
  pose proof (allocateBlocks_capacity bm n) as Hcap. rewrite Ha in Hcap.
  unfold allocateBlocks in Ha.
  destruct (n =? 0); [done|].
  destruct (find _ _) as [i|] eqn:E.
  { by destruct (markRun _ _ _). }
  destruct (Z.ltb_spec 1 n) as [Hn|Hn].
  - unfold allocateBlocksIndividual in Ha.
    pose proof (allocateRounds_allocated bm (seqZ 0 n) bm [] (proj2 Ht)
                  (allocated_nil bm)) as Hrun.
    pose proof (allocateRounds_length (seqZ 0 n) (bm, [])) as Hlen.
    simpl in Hrun, Hlen.
    destruct (fold_left _ _ _) as [bm1 ids1].
    destruct (_ =? _); [done|]. injection Ha as <- <-.
    split; [by right|]. split; [done|].
    intros q Hq. rewrite rollback_is_free.
    + apply (free_allocated bm); [lia|done..].
    + intros id Hid. destruct Hrun as (_ & _ & Hids & _).
      destruct (Hids id Hid) as [? _]. lia.
  - injection Ha as <- <-. split; [by left|]. done.
Qed.

(** X17.  An allocation that fails has no effect on the free map: it
    returns "no free blocks available" or "could not allocate", the
    capacity is the same and every position is free exactly if it was, the
    scattered path having freed what it had taken; and a request for one
    block fails only when no position of the capacity is free. *)
Theorem failed_allocation_changes_nothing bm n e bm' :
  0 <= totalBlocks bm < 2 ^ 32 ->
  allocateBlocks bm n = (Err e, bm') ->
  (e = ErrNoFreeBlocks ∨ e = ErrCouldNotAllocate)
  ∧ totalBlocks bm' = totalBlocks bm
  ∧ (∀ q, 0 <= q -> isBlockFree bm' q = isBlockFree bm q)
  ∧ (n = 1 -> 0 <= searchPos bm <= totalBlocks bm ->
     ∀ q, 0 <= q < totalBlocks bm -> isBlockFree bm q = false).
Proof.
  intros Ht Ha.
  destruct (allocateBlocks_refused _ _ _ _ Ht Ha) as (He & Hcap & Hsame).
  split; [done|]. split; [done|]. split; [done|].
  intros -> Hsp q Hq. unfold allocateBlocks in Ha. cbn [Z.eqb] in Ha.
  destruct (find _ _) as [i|] eqn:E.
  { by destruct (markRun _ _ _). }
  destruct (search_covers bm q Hsp (proj2 Ht) Hq) as (i & Hi & Hpos).
  apply list_elem_of_In in Hi.
  pose proof (find_none _ _ E i Hi) as Hnone. cbv beta zeta in Hnone.
  rewrite Hpos, canAllocate_one, andb_diag in Hnone by lia. done.
Qed.

Lemma find_all_false {A} (f : A -> bool) (l : list A) :
  (∀ x, x ∈ l -> f x = false) -> find f l = None.
Proof.
  induction l as [|x l IH]; intros Hall; simpl; [done|].
  rewrite Hall by left. apply IH. intros y Hy. apply Hall. by right.
Qed.

(** A round of the scattered path on a bitmap without a free position
    changes nothing. *)
Lemma allocateOne_stuck bm ids :
  0 < totalBlocks bm ->
  (∀ q, 0 <= q < totalBlocks bm -> isBlockFree bm q = false) ->
  allocateOne (bm, ids) = (bm, ids).
Proof.
  intros Htot Hfull. unfold allocateOne. cbn [fst snd].
  rewrite find_all_false; [done|].
  intros i _. apply Hfull. apply Z.mod_pos_bound. lia.
Qed.

(** The rounds of the scattered path: each takes a block, until none is
    free. *)
Lemma allocateRounds_progress bm0 (rounds : list Z) : ∀ bm ids,
  0 < totalBlocks bm0 < 2 ^ 32 ->
  allocated bm0 ids bm -> 0 <= searchPos bm <= totalBlocks bm0 ->
  let r := fold_left (fun acc _ => allocateOne acc) rounds (bm, ids) in
  (length (snd r) <= length ids + length rounds)%nat
  ∧ (length (snd r) = (length ids + length rounds)%nat
     ∨ ∀ q, 0 <= q < totalBlocks bm0 -> isBlockFree (fst r) q = false).
Proof.
  induction rounds as [|x rounds IH]; intros bm ids Ht Hpost Hsp; cbn [fold_left].
  { simpl. split; [lia|left; lia]. }
  assert (Htot : totalBlocks bm = totalBlocks bm0) by apply Hpost.
  destruct (find (fun i => isBlockFree bm (u64 (searchPos bm + i) mod totalBlocks bm))
                 (seqZ 0 (totalBlocks bm))) as [i|] eqn:E.
  - pose proof (allocateOne_allocated _ _ _ (proj2 Ht) Hpost) as Hstep.
    unfold allocateOne in *. cbn [fst snd] in *. rewrite E in *. cbn [fst snd] in *.
    set (pos := u64 (searchPos bm + i) mod totalBlocks bm) in *.
    assert (Hpos : 0 <= pos < totalBlocks bm) by (apply Z.mod_pos_bound; lia).
    destruct (IH _ _ Ht Hstep) as [Hle Hor].
    { cbn [searchPos setSearchPos]. rewrite u64_small by lia. lia. }
    rewrite length_app in Hle, Hor. simpl in *. split; [lia|].
    destruct Hor as [Heq|Hfull]; [left; lia|by right].
  - assert (Hfull : ∀ q, 0 <= q < totalBlocks bm -> isBlockFree bm q = false).
    { intros q Hq.
      destruct (search_covers bm q) as (i & Hi & Hpos); [lia..|].
      apply list_elem_of_In in Hi.
      pose proof (find_none _ _ E i Hi) as Hnone. cbv beta in Hnone.
      by rewrite Hpos in Hnone. }
    assert (Hstuck : ∀ (l : list Z),
              fold_left (fun acc _ => allocateOne acc) l (bm, ids) = (bm, ids)).
    { induction l as [|y l IHl]; [done|]. cbn [fold_left].
      rewrite allocateOne_stuck by (done || lia). apply IHl. }
    rewrite allocateOne_stuck by (done || lia). rewrite Hstuck. cbn [fst snd].
    split; [simpl; lia|]. right. by rewrite <- Htot.
Qed.

(** X18.  The allocator finds room when there is room: on a bitmap with
    [n] free positions inside its capacity, a request for [n] blocks
    succeeds, on the contiguous path or on the scattered one. *)
Theorem allocation_succeeds_when_room bm n ps :
  0 <= totalBlocks bm < 2 ^ 32 -> 0 <= searchPos bm <= totalBlocks bm ->
  0 < n < 2 ^ 32 ->
  NoDup ps -> Z.of_nat (length ps) = n ->
  (∀ p, p ∈ ps -> 0 <= p < totalBlocks bm ∧ isBlockFree bm p = true) ->
  ∃ ids bm', allocateBlocks bm n = (Ok ids, bm').
Proof.
  intros Ht Hsp Hn Hnd Hlen Hfree.
  assert (Hp : ∃ p, p ∈ ps).
  { destruct ps as [|p ps]; [simpl in Hlen; lia|]. exists p. by left. }
  destruct Hp as (p0 & Hp0). destruct (Hfree p0 Hp0) as [Hp0r Hp0f].
  unfold allocateBlocks. destruct (Z.eqb_spec n 0); [lia|].
  destruct (find _ _) as [i|] eqn:E.
  { destruct (markRun _ _ _). eauto. }
  destruct (Z.ltb_spec 1 n) as [Hgt|Hone].
  - unfold allocateBlocksIndividual.
    pose proof (allocateRounds_allocated bm (seqZ 0 n) bm [] (proj2 Ht)
                  (allocated_nil bm)) as Hpost.
    destruct (allocateRounds_progress bm (seqZ 0 n) bm []) as [Hle Hor];
      [lia|apply allocated_nil|done|].
    cbv zeta in Hpost. rewrite length_seqZ in Hle, Hor. simpl in Hle, Hor.
    destruct (fold_left _ _ _) as [bm1 ids1]. cbn [fst snd] in *.
    assert (Hall : Z.of_nat (length ids1) = n).
    { destruct Hor as [Heq|Hfull]; [lia|].
      destruct Hpost as (_ & _ & _ & Hothers).
      assert (Hsub : map (fun p => p + 1) ps ⊆+ ids1).
      { apply NoDup_submseteq.
        - apply NoDup_fmap_2; [|done]. intros x y. lia.
        - intros id Hid. apply list_elem_of_fmap in Hid as (p & -> & Hp).
          destruct (Hfree p Hp) as [Hpr Hpf].
          destruct (decide (p + 1 ∈ ids1)) as [|Hout]; [done|].
          rewrite <- (Hothers p) in Hpf by (lia || done).
          by rewrite Hfull in Hpf. }
      apply submseteq_length in Hsub. rewrite length_map in Hsub. lia. }
    rewrite (proj2 (Z.eqb_eq _ _) Hall). eauto.
  - exfalso. assert (n = 1) as -> by lia.
    destruct (search_covers bm p0 Hsp (proj2 Ht) Hp0r) as (i & Hi & Hpos).
    apply list_elem_of_In in Hi.
    pose proof (find_none _ _ E i Hi) as Hnone. cbv beta zeta in Hnone.
    rewrite Hpos, canAllocate_one, andb_diag in Hnone by lia. congruence.
Qed.

(** ** Counting blocks *)

(** The counting loop of [GetStats] counts the positions that are not
    free. *)
Lemma usedBlocks_fold bm (l : list Z) : ∀ acc,
  0 <= acc -> acc + Z.of_nat (length l) < 2 ^ 64 ->
  fold_left (fun used i => if isBlockFree bm i then used else u64 (used + 1)) l acc
  = acc + Z.of_nat (length (filter (fun i => isBlockFree bm i = false) l)).
Proof.
  induction l as [|x l IH]; intros acc Hacc Hlt; simpl in *; [lia|].
  destruct (isBlockFree bm x) eqn:E.
  - rewrite filter_cons_False by congruence. apply IH; lia.
  - rewrite filter_cons_True by done. rewrite u64_small by lia.
    rewrite IH by lia. simpl. lia.
Qed.

Lemma usedBlocks_count bm :
  0 <= totalBlocks bm < 2 ^ 64 ->
  usedBlocks bm
  = Z.of_nat (length (filter (fun i => isBlockFree bm i = false)
                             (seqZ 0 (totalBlocks bm)))).
Proof.
  intros Ht. unfold usedBlocks. rewrite usedBlocks_fold; [lia|lia|].
  rewrite length_seqZ. lia.
Qed.

Lemma usedBlocks_range bm :
  0 <= totalBlocks bm < 2 ^ 64 -> 0 <= usedBlocks bm <= totalBlocks bm.
Proof.
  intros Ht. rewrite usedBlocks_count by done.
  pose proof (length_filter (fun i => isBlockFree bm i = false) (seqZ 0 (totalBlocks bm))) as H.
  rewrite length_seqZ in H. lia.
Qed.

(** Two tests that differ on the positions [ps] of a list without
    repetition, where the first holds and the second fails. *)
Lemma count_flipped (g g' : Z -> bool) (l : list Z) : ∀ ps,
  NoDup l -> NoDup ps ->
  (∀ p, p ∈ ps -> p ∈ l ∧ g p = true ∧ g' p = false) ->
  (∀ q, q ∈ l -> q ∉ ps -> g' q = g q) ->
  length (filter (fun i => g' i = false) l)
  = (length (filter (fun i => g i = false) l) + length ps)%nat.
Proof.
  induction l as [|x l IH]; intros ps Hl Hps Hin Hout.
  { destruct ps as [|p ps]; [done|]. destruct (Hin p) as [H _]; [by left|].
    by apply elem_of_nil in H. }
  apply NoDup_cons in Hl as [Hx Hl].
  destruct (decide (x ∈ ps)) as [Hxps|Hxps].
  - destruct (Hin x Hxps) as (_ & Hg & Hg').
    apply elem_of_Permutation in Hxps as [ps' Hperm].
    rewrite Hperm in Hps. apply NoDup_cons in Hps as [Hxps' Hps'].
    rewrite filter_cons_True by done. rewrite filter_cons_False by congruence.
    rewrite (Permutation_length Hperm). simpl.
    rewrite (IH ps'); [lia|done..| |].
    + intros p Hp. destruct (Hin p) as (Hpl & ? & ?); [rewrite Hperm; by right|].
      split; [|done]. apply elem_of_cons in Hpl as [->|]; done.
    + intros q Hq Hqps. apply Hout; [by right|]. rewrite Hperm.
      intros [->|]%elem_of_cons; done.
  - assert (Hgx : g' x = g x) by (apply Hout; [by left|done]).
    assert (Hrest : length (filter (fun i => g' i = false) l)
                    = (length (filter (fun i => g i = false) l) + length ps)%nat).
    { apply IH; [done..| |].
      - intros p Hp. destruct (Hin p Hp) as (Hpl & ? & ?).
        split; [|done]. apply elem_of_cons in Hpl as [->|]; done.
      - intros q Hq Hqps. apply Hout; [by right|done]. }
    destruct (g x) eqn:Eg.
    + rewrite !filter_cons_False by congruence. done.
    + rewrite !filter_cons_True by congruence. simpl. lia.
Qed.

Lemma usedBlocks_allocated bm ids bm' :
  0 <= totalBlocks bm < 2 ^ 32 -> allocated bm ids bm' ->
  usedBlocks bm' = usedBlocks bm + Z.of_nat (length ids).
Proof.
  intros Ht (Htot & Hnd & Hids & Hothers).
  rewrite !usedBlocks_count by lia. rewrite Htot.
  rewrite (count_flipped (isBlockFree bm) (isBlockFree bm') _ (map (fun id => id - 1) ids)).
  - rewrite length_map. lia.
  - apply NoDup_seqZ.
  - apply NoDup_fmap_2; [|done]. intros x y. lia.
  - intros p Hp. apply list_elem_of_fmap in Hp as (id & -> & Hid).
    destruct (Hids id Hid) as (Hr & ? & ?). split; [|done].
    apply elem_of_seqZ. lia.
  - intros q Hq Hnot. apply elem_of_seqZ in Hq. apply Hothers; [lia|].
    intros Hin. apply Hnot. apply list_elem_of_fmap. exists (q + 1). split; [lia|done].
Qed.

(** X15.  [GetStats] counts blocks: [used_blocks] and [free_blocks] add up
    to [total_blocks]; a successful allocation of [n] blocks raises
    [used_blocks] by [n] and lowers [free_blocks] by [n]; and on a volume
    whose block size is 0 the call panics in its division. *)
Theorem stats_count_blocks st :
  0 <= totalBlocks (bitmap st) < 2 ^ 32 ->
  (blockSize st = 0 -> GetStats st = Abort Panics)
  ∧ (blockSize st ≠ 0 ->
     ∃ stats,
       GetStats st = Ok stats
       ∧ 0 <= stat_used_blocks stats <= stat_total_blocks stats
       ∧ stat_used_blocks stats + stat_free_blocks stats = stat_total_blocks stats
       ∧ ∀ n ids st',
           0 <= n < 2 ^ 32 -> allocate st n = (Ok ids, st') ->
           ∃ stats',
             GetStats st' = Ok stats'
             ∧ stat_total_blocks stats' = stat_total_blocks stats
             ∧ stat_used_blocks stats' = stat_used_blocks stats + n
             ∧ stat_free_blocks stats' = stat_free_blocks stats - n).
Proof.
  intros Ht. split.
  { intros Hbs. unfold GetStats. by rewrite Hbs. }
  intros Hbs. unfold GetStats at 1. rewrite (proj2 (Z.eqb_neq _ _) Hbs).
  eexists. split; [reflexivity|]. cbn [stat_used_blocks stat_total_blocks stat_free_blocks].
  pose proof (usedBlocks_range (bitmap st)) as Hused.
  assert (Hfree : u64 (totalBlocks (bitmap st) - usedBlocks (bitmap st))
                  = totalBlocks (bitmap st) - usedBlocks (bitmap st))
    by (apply u64_small; lia).
  split; [lia|]. split; [lia|].
  intros n ids st' Hn Ha. unfold allocate in Ha.
  destruct (allocateBlocks (bitmap st) n) as [r bm'] eqn:Eb.
  injection Ha as -> <-.
  destruct (allocateBlocks_allocated _ _ _ _ Ht Hn Eb) as [Hpost Hlen].
  pose proof (usedBlocks_allocated _ _ _ Ht Hpost) as Hused'.
  assert (Htot : totalBlocks bm' = totalBlocks (bitmap st)) by apply Hpost.
  unfold GetStats. cbn [blockSize setBitmap bitmap]. rewrite (proj2 (Z.eqb_neq _ _) Hbs).
  eexists. split; [reflexivity|].
  cbn [stat_used_blocks stat_total_blocks stat_free_blocks].
  pose proof (usedBlocks_range bm') as Hused2. rewrite Htot in *.
  rewrite (u64_small (_ - usedBlocks bm')) by lia. lia.
Qed.

(** ** Payloads longer than a block's payload area *)

(** The first slice of a payload that is longer than the payload area of a
    block is refused by [writeBlock], and the file is untouched. *)
Lemma writeDataBlocks_refused st file id ids payload :
  0 < blockSize st < 2 ^ 31 -> 1 <= id < 2 ^ 32 ->
  blockSize st - 4 < Z.of_nat (length payload) ->
  writeDataBlocks st file 0 (id :: ids) payload = (Err ErrDataExceedsBlock, file).
Proof.
  intros Hbs Hid Hlen. cbn [writeDataBlocks]. cbv zeta.
  unfold writeBlock.
  rewrite calculateBlockOffset_plain by lia.
  destruct (Z.ltb_spec (HeaderSize + blockSize st * (id - 1)) 0) as [Hneg|_].
  { unfold HeaderSize in Hneg. nia. }
  rewrite length_take, length_drop.
  match goal with
  | |- context [blockSize st - 4 <? ?n] =>
      destruct (Z.ltb_spec (blockSize st - 4) n) as [_|Hfits]; [done|]
  end.
  exfalso. lia.
Qed.

Lemma writeFileToBlocks_refused fuel st payload existing :
  addressable st -> payload ≠ [] ->
  blockSize st - 4 < Z.of_nat (length payload) <= (2 ^ 32 - 1) * blockSize st ->
  ∃ e st', writeFileToBlocks fuel st payload existing = (Err e, st')
           ∧ (e = ErrDataExceedsBlock ∨ e = ErrNoFreeBlocks ∨ e = ErrCouldNotAllocate)
           ∧ sameDevice st st' ∧ root st' = root st
           ∧ totalBlocks (bitmap st') = totalBlocks (bitmap st)
           ∧ ∀ q, 0 <= q -> isBlockFree (bitmap st') q = isBlockFree (bitmap st) q.
Proof.
  intros [Hbs Htot] Hne Hlen. unfold writeFileToBlocks.
  assert (0 < Z.of_nat (length payload)) by (destruct payload; [done|simpl; lia]).
  destruct (Z.eqb_spec (Z.of_nat (length payload)) 0); [lia|].
  destruct (Z.eqb_spec (blockSize st) 0); [lia|].
  fold (blocksNeeded st payload).
  assert (Hcount : u32 (blocksNeeded st payload) ≠ 0) by (apply blocksNeeded_fits; lia).
  pose proof (u32_range (blocksNeeded st payload)) as Hcr.
  unfold allocate.
  destruct (allocateBlocks (bitmap st) _) as [[ids|e|r] bm1] eqn:Ea.
  - pose proof (allocateBlocks_length (bitmap st) (u32 (blocksNeeded st payload))) as Hcap.
    rewrite Ea in Hcap. cbn [snd] in Hcap.
    apply allocateBlocks_allocated in Ea as [Hal Hn]; [|done|lia].
    destruct ids as [|id ids]; [simpl in Hn; lia|].
    assert (Hid : 1 <= id < 2 ^ 32).
    { destruct Hal as (_ & _ & Hids & _). destruct (Hids id) as [? _]; [by left|]. lia. }
    rewrite writeDataBlocks_refused; [|exact Hbs|done|exact (proj1 Hlen)].
    eexists _, _. split; [reflexivity|]. split; [by left|].
    split; [done|]. split; [done|]. split.
    + unfold release. cbn [bitmap setBitmap setBlocksFile].
      rewrite freeBlocks_capacity. apply Hal.
    + intros q Hq. unfold release. cbn [bitmap setBitmap setBlocksFile].
      rewrite (isBlockFree_data _ (fold_left freeOne (id :: ids) bm1)) by done.
      apply (free_allocated (bitmap st)); [lia|done..].
  - destruct (allocateBlocks_refused _ _ _ _ Htot Ea) as (He & Hcap & Hsame).
    eexists _, _. split; [reflexivity|]. split; [tauto|]. done.
  - exfalso. unfold allocateBlocks in Ea.
    destruct (_ =? 0); [done|]. destruct (find _ _).
    + by destruct (markRun _ _ _).
    + destruct (_ <? _); [|done]. unfold allocateBlocksIndividual in Ea.
      destruct (fold_left _ _ _). by destruct (_ =? _).
Qed.

(** X22.  No payload longer than the payload area of one block is stored:
    on an addressable volume with proper directory names, [WriteFile] of a
    non-empty payload of more than blockSize - 4 (and at most
    (2^32 - 1) * blockSize) bytes returns an error for every path, and the
    volume is as before: the same namespace, the same block file, the same
    free positions, the allocated blocks having been released. *)
Theorem large_payload_is_refused fuel now st path payload :
  addressable st -> namesOk (root st) -> payload ≠ [] ->
  blockSize st - 4 < Z.of_nat (length payload) <= (2 ^ 32 - 1) * blockSize st ->
  ∃ e st',
    WriteFile fuel now st path payload = (Err e, st')
    ∧ root st' = root st
    ∧ blocksFile st' = blocksFile st
    ∧ totalBlocks (bitmap st') = totalBlocks (bitmap st)
    ∧ ∀ q, 0 <= q -> isBlockFree (bitmap st') q = isBlockFree (bitmap st) q.
Proof.
  intros Haddr Hok Hne0 Hlen. unfold WriteFile.
  destruct (findEntryUnsafe (root st) path) as [target|e|r] eqn:Efind.
  - destruct (foundIsDir target) eqn:Edir.
    { rewrite (findEntryUnsafe_dir_no_file _ _ _ Efind Edir). cbn.
      by eexists _, _. }
    cbn [andb].
    destruct (findEntryUnsafe_not_dir _ _ _ Efind Edir) as (Hne & Hloc & Hat & _).
    destruct (findEntryUnsafe_parent (root st) (removelast (split (trim path)))
                (foundDir target) Hok) as (parent & -> & _); [|done|].
    { apply removelast_Forall, split_noSlash. }
    destruct (writeFileToBlocks_refused fuel st payload
                (match foundFile target with
                 | Some file => FirstIndexBlockId file
                 | None => 0
                 end) Haddr Hne0 Hlen)
      as (e & st1 & -> & _ & [_ Hfile] & Hroot & Hcap & Hfree).
    by exists e, st1.
  - by exists e, st.
  - exfalso. unfold findEntryUnsafe in Efind.
    destruct (isEmptyString _); [done|]. destruct (dirAt _ _); [|done].
    by destruct (_ !! _).
Qed.

(** ** Entries of the tree *)

(** An update of the files of one directory leaves the directories of the
    tree where they were. *)
Lemma dirAt_updateDir_frame g loc : ∀ r l,
  (∀ d, Directories (g d) = Directories d) ->
  match dirAt l r with
  | None => dirAt l (updateDir g loc r) = None
  | Some x =>
      ∃ x', dirAt l (updateDir g loc r) = Some x'
            ∧ (∀ n, Directories x' !! n = None <-> Directories x !! n = None)
            ∧ Files x' = if decide (l = loc) then Files (g x) else Files x
  end.
Proof.
  induction loc as [|n loc IH]; intros r l Hg.
  - cbn [updateDir]. destruct l as [|m l]; cbn [dirAt].
    + exists (g r). split; [done|]. split; [by rewrite Hg|]. by rewrite decide_True.
    + rewrite Hg. destruct (Directories r !! m) as [s|]; [|done].
      destruct (dirAt l s) as [x|]; [|done].
      exists x. split; [done|]. split; [done|]. by rewrite decide_False.
  - cbn [updateDir]. destruct (Directories r !! n) as [sub|] eqn:En.
    + destruct l as [|m l]; cbn [dirAt].
      * eexists. split; [done|]. split; [|by rewrite decide_False].
        intros k. simpl. destruct (decide (k = n)) as [->|Hk].
        -- rewrite lookup_insert_eq, En. done.
        -- by rewrite lookup_insert_ne.
      * simpl. destruct (decide (m = n)) as [->|Hm].
        -- rewrite lookup_insert_eq, En. specialize (IH sub l Hg).
           destruct (dirAt l sub) as [x|]; [|done].
           destruct IH as (x' & Hx' & Hd & Hf). exists x'.
           split; [done|]. split; [done|]. rewrite Hf.
           destruct (decide (l = loc)) as [->|Hl].
           ++ by rewrite decide_True.
           ++ rewrite decide_False; [done|]. intros [= ?]. done.
        -- rewrite lookup_insert_ne by done.
           destruct (Directories r !! m) as [s|]; [|done].
           destruct (dirAt l s) as [x|]; [|done].
           exists x. split; [done|]. split; [done|].
           rewrite decide_False; [done|]. intros [= ? ?]. done.
    + destruct (dirAt l r) as [x|] eqn:El; [|done].
      exists x. split; [done|]. split; [done|].
      rewrite decide_False; [done|]. intros ->. simpl in El. by rewrite En in El.
Qed.

Lemma entryAt_found r path target :
  findEntryUnsafe r path = Ok target -> foundIsDir target = false ->
  foundFile target
  = entryAt r (foundLoc target) (List.last (split (trim path)) EmptyString).
Proof.
  intros Efind Edir.
  destruct (findEntryUnsafe_not_dir _ _ _ Efind Edir) as (_ & Hloc & Hat & _ & Hfile).
  unfold entryAt. by rewrite Hloc, Hat.
Qed.

Lemma sameDirs_refl r : sameDirs r r.
Proof.
  intros path. destruct (findEntryUnsafe r path) as [t| |] eqn:E; [|done..].
  split; [done|]. split; [done|]. intros Edir. by apply entryAt_found.
Qed.

Lemma sameDirs_trans r1 r2 r3 : sameDirs r1 r2 -> sameDirs r2 r3 -> sameDirs r1 r3.
Proof.
  intros H12 H23 path. specialize (H12 path). specialize (H23 path).
  destruct (findEntryUnsafe r1 path) as [t1| |], (findEntryUnsafe r2 path) as [t2| |],
    (findEntryUnsafe r3 path) as [t3| |]; try done; try congruence.
  destruct H12 as (Hd12 & Hl12 & _), H23 as (Hd23 & Hl23 & Hf23).
  split; [congruence|]. split; [congruence|].
  intros Hd. rewrite <- Hl12. apply Hf23. congruence.
Qed.

Lemma sameDirs_updateDir g loc r :
  (∀ d, Directories (g d) = Directories d) -> sameDirs r (updateDir g loc r).
Proof.
  intros Hg path. unfold findEntryUnsafe.
  destruct (isEmptyString (trim path)); [done|].
  pose proof (dirAt_updateDir_frame g loc r (removelast (split (trim path))) Hg) as H.
  destruct (dirAt _ r) as [cur|]; [|by rewrite H].
  destruct H as (cur' & Hcur' & Hd & _). rewrite Hcur'.
  destruct (Directories cur !! _) as [sub|] eqn:E.
  - destruct (Directories cur' !! _) as [sub'|] eqn:E'; [done|].
    apply Hd in E'. congruence.
  - rewrite (proj2 (Hd _) E). split; [done|]. split; [done|]. intros _. simpl.
    unfold entryAt. by rewrite Hcur'.
Qed.

Lemma sameDirs_setDirMetadata r m : sameDirs r (setDirMetadata r m).
Proof.
  intros path. unfold findEntryUnsafe. destruct (isEmptyString (trim path)); [done|].
  rewrite dirAt_setDirMetadata.
  destruct (removelast (split (trim path))) as [|n loc] eqn:El; simpl.
  - by destruct (Directories r !! _).
  - destruct (Directories r !! n) as [sub|] eqn:En; [|done].
    destruct (dirAt loc sub) as [cur|] eqn:Ecur; [|done].
    destruct (Directories cur !! _); [done|].
    split; [done|]. split; [done|]. intros _. simpl.
    unfold entryAt. simpl. by rewrite En, Ecur.
Qed.

(** The entries after a file was stored under [name] in the directory at
    [loc], and after it was removed. *)
Lemma entryAt_insert r loc name f x l n :
  dirAt loc r = Some x ->
  entryAt (updateDir (fun d => setFiles d (<[name := f]> (Files d))) loc r) l n
  = if decide (l = loc ∧ n = name) then Some f else entryAt r l n.
Proof.
  intros Hat.
  pose proof (dirAt_updateDir_frame
                (fun d => setFiles d (<[name := f]> (Files d))) loc r l
                (fun d => eq_refl)) as H.
  unfold entryAt. destruct (decide (l = loc)) as [->|Hl].
  - rewrite Hat in *. destruct H as (x' & -> & _ & ->). simpl.
    destruct (decide (n = name)) as [->|Hn].
    + by rewrite decide_True, lookup_insert_eq.
    + rewrite decide_False by tauto. by rewrite lookup_insert_ne.
  - rewrite decide_False by tauto.
    destruct (dirAt l r) as [y|]; [|by rewrite H].
    by destruct H as (x' & -> & _ & ->).
Qed.

Lemma entryAt_delete r loc name x l n :
  dirAt loc r = Some x ->
  entryAt (updateDir (fun d => setFiles d (delete name (Files d))) loc r) l n
  = if decide (l = loc ∧ n = name) then None else entryAt r l n.
Proof.
  intros Hat.
  pose proof (dirAt_updateDir_frame
                (fun d => setFiles d (delete name (Files d))) loc r l
                (fun d => eq_refl)) as H.
  unfold entryAt. destruct (decide (l = loc)) as [->|Hl].
  - rewrite Hat in *. destruct H as (x' & -> & _ & ->). simpl.
    destruct (decide (n = name)) as [->|Hn].
    + by rewrite decide_True, lookup_delete_eq.
    + rewrite decide_False by tauto. by rewrite lookup_delete_ne.
  - rewrite decide_False by tauto.
    destruct (dirAt l r) as [y|]; [|by rewrite H].
    by destruct H as (x' & -> & _ & ->).
Qed.

Lemma entryAt_setDirMetadata r m l n :
  entryAt (setDirMetadata r m) l n = entryAt r l n.
Proof. unfold entryAt. rewrite dirAt_setDirMetadata. by destruct l. Qed.

(** [createDirectories] adds directories without files: an entry of the
    tree it leaves was an entry before. *)
Lemma entryAt_createDirectories st now parts : ∀ r l n f,
  entryAt (createDirectories st now parts r) l n = Some f -> entryAt r l n = Some f.
Proof.
  induction parts as [|part parts IH]; intros r l n f; simpl; [done|].
  destruct (isEmptyString part); [apply IH|].
  unfold entryAt. destruct l as [|m l]; simpl; [done|].
  destruct (decide (part = m)) as [->|Hne].
  - rewrite lookup_insert_eq.
    destruct (Directories r !! m) as [sub|] eqn:E.
    + apply IH.
    + intros H. apply IH in H. unfold entryAt in H.
      destruct l as [|k l]; simpl in H; [by rewrite lookup_empty in H|].
      by rewrite lookup_empty in H.
  - by rewrite lookup_insert_ne.
Qed.

(** ** Blocks left alone *)

Lemma apart_refl F st : apart F st st.
Proof. unfold apart. by repeat split. Qed.

Lemma apart_weaken F F' st st' :
  (∀ id, id ∈ F -> id ∈ F') -> apart F st st' -> apart F' st st'.
Proof.
  intros Hsub (Hbs & Hc & Ht & Hlen & Hread & Hfree).
  split; [done|]. split; [done|]. split; [done|]. split; [done|]. split.
  - intros id Hid Hout. apply Hread; [done|]. intros Hin. by apply Hout, Hsub.
  - intros id Hid Hout. apply Hfree; [done|]. intros Hin. by apply Hout, Hsub.
Qed.

Lemma inFile_mono st st' id :
  blockSize st' = blockSize st ->
  (length (blocksFile st) <= length (blocksFile st'))%nat ->
  inFile st id -> inFile st' id.
Proof. unfold inFile. intros -> Hlen Hin. lia. Qed.

Lemma apart_trans F1 F2 st st1 st2 :
  apart F1 st st1 -> apart F2 st1 st2 -> apart (F1 ++ F2) st st2.
Proof.
  intros (Hbs & Hc & Ht & Hlen & Hread & Hfree) (Hbs' & Hc' & Ht' & Hlen' & Hread' & Hfree').
  split; [congruence|]. split; [congruence|]. split; [congruence|]. split; [lia|].
  split.
  - intros id Hid Hout Hin. rewrite not_elem_of_app in Hout. destruct Hout as [H1 H2].
    rewrite <- Hread by done. rewrite <- Hbs. apply Hread'; [by rewrite Ht|done|].
    by apply (inFile_mono st).
  - intros id Hid Hout. rewrite not_elem_of_app in Hout. destruct Hout as [H1 H2].
    rewrite <- Hfree by done. apply Hfree'; [by rewrite Ht|done].
Qed.

Lemma apart_bitmap st bm F :
  totalBlocks bm = totalBlocks (bitmap st) ->
  (∀ id, 1 <= id <= totalBlocks (bitmap st) -> id ∉ F ->
     isBlockFree bm (id - 1) = isBlockFree (bitmap st) (id - 1)) ->
  apart F st (setBitmap st bm).
Proof. intros Ht Hfree. unfold apart. by repeat split. Qed.

Lemma apart_release st ids :
  totalBlocks (bitmap st) < 2 ^ 32 ->
  (∀ id, id ∈ ids -> 1 <= id <= totalBlocks (bitmap st)) ->
  apart ids st (release st ids).
Proof.
  intros Hlt Hids. apply apart_bitmap; [apply freeBlocks_capacity|].
  intros id Hid Hout. unfold freeBlocks.
  rewrite (isBlockFree_data _ (fold_left freeOne ids (bitmap st))) by done.
  rewrite !isBlockFree_bitAt, bitAt_fold_free; [done|lia|].
  intros id' Hid' _ Heq. specialize (Hids _ Hid').
  rewrite u32_small in Heq by lia.
  apply Hout. by replace id with id' by lia.
Qed.

Lemma apart_allocated st ids bm :
  allocated (bitmap st) ids bm -> apart ids st (setBitmap st bm).
Proof.
  intros (Ht & _ & _ & Hothers). apply apart_bitmap; [done|].
  intros id Hid Hout. apply Hothers; [lia|]. by replace (id - 1 + 1) with id by lia.
Qed.

Lemma apart_writeBlock st id payload f :
  0 < blockSize st < 2 ^ 31 -> totalBlocks (bitmap st) < 2 ^ 32 ->
  1 <= id < 2 ^ 32 ->
  writeBlock (blockSize st) (blocksFile st) id payload = Ok f ->
  apart [id] st (setBlocksFile st f) ∧ inFile (setBlocksFile st f) id.
Proof.
  intros Hbs Ht Hid Hw.
  pose proof (writeBlock_Ok _ _ _ _ _ Hw) as (Hoff & Hlen & Hf).
  split.
  - split; [done|]. split; [done|]. split; [done|]. split; [|split; [|done]].
    + simpl. rewrite Hf. apply write_at_length_mono.
    + intros id' Hid' Hout Hin. simpl.
      apply (readBlock_other_write _ _ id' id payload); try done; try lia.
      intros ->. apply Hout. by left.
  - unfold inFile. simpl. rewrite Hf.
    pose proof (write_at_length (blocksFile st) _ (blockImage (blockSize st) payload) Hoff)
      as Hin.
    by rewrite length_blockImage in Hin.
Qed.

Lemma apart_saved st : apart [] st (saveBitmap (saveRoot st)).
Proof.
  destruct (saved_device st) as (Hb & Hf & Hc).
  split; [done|]. split; [done|]. split.
  { unfold saveBitmap, saveRoot.
    destruct (checksumEnabled st); simpl; by destruct (dirty (bitmap st)). }
  split; [by rewrite Hf|]. split.
  - intros id _ _ _. by rewrite Hf.
  - intros id _ _. apply bitmap_saved.
Qed.

Lemma apart_setRoot st r : apart [] st (setRoot st r).
Proof. unfold apart. by repeat split. Qed.

Lemma apart_saveRoot st : apart [] st (saveRoot st).
Proof. unfold saveRoot. destruct (checksumEnabled st); [|apply apart_refl]. apply apart_setRoot. Qed.

(** A chain of the one-block layout whose blocks were left alone is as it
    was. *)
Lemma held_apart F st st' id : apart F st st' -> id ∉ F -> held st id -> held st' id.
Proof.
  intros (Hbs & Hc & Ht & Hlen & Hread & Hfree) Hout (Hid & Hused & Hin).
  split; [by rewrite Ht|]. split; [by rewrite Hfree|]. by apply (inFile_mono st).
Qed.

Lemma readIndexBlock_apart F st st' id :
  apart F st st' -> id ∉ F -> held st id ->
  readIndexBlock st' id = readIndexBlock st id.
Proof.
  intros (Hbs & Hc & Ht & Hlen & Hread & Hfree) Hout (Hid & Hused & Hin).
  unfold readIndexBlock. by rewrite Hbs, Hc, Hread.
Qed.

Lemma stored_apart F st st' first d content :
  apart F st st' -> first ∉ F -> d ∉ F ->
  stored st first d content -> stored st' first d content.
Proof.
  intros Hap Hf Hd (ib & Hib & Hids & Hex & Hnext & Hread & Hh1 & Hh2 & Hne).
  exists ib.
  split; [by rewrite (readIndexBlock_apart F st st')|].
  split; [done|]. split; [done|]. split; [done|]. split.
  - destruct Hap as (Hbs & _ & _ & _ & Hr & _). rewrite Hbs.
    rewrite Hr; [done| |done|]; apply Hh2.
  - split; [by apply (held_apart F st)|]. split; [by apply (held_apart F st)|done].
Qed.

(** The blocks of a chain of the one-block layout. *)
Lemma holds_stored st first d content b :
  stored st first d content -> holds st first b <-> b = first ∨ b = d.
Proof.
  intros (ib & Hib & Hids & _ & _ & _ & (Hf & _) & _).
  unfold holds. rewrite Hib. split.
  - intros [_ [->|(ib' & [= <-] & Hin)]]; [by left|].
    rewrite Hids in Hin. apply list_elem_of_singleton in Hin. by right.
  - intros [-> | ->]; (split; [lia|]); [by left|].
    right. exists ib. split; [done|]. rewrite Hids. by left.
Qed.

Lemma holds_held st first d content b :
  stored st first d content -> holds st first b -> held st b.
Proof.
  intros Hst Hb. apply (holds_stored _ _ _ _ _ Hst) in Hb.
  destruct Hst as (ib & _ & _ & _ & _ & _ & Hh1 & Hh2 & _).
  by destruct Hb as [-> | ->].
Qed.

Lemma holds_apart F st st' first d content b :
  apart F st st' -> first ∉ F -> stored st first d content ->
  holds st' first b <-> holds st first b.
Proof.
  intros Hap Hf (ib & Hib & _ & _ & _ & _ & Hh1 & _).
  unfold holds. by rewrite (readIndexBlock_apart F st st').
Qed.

(** What is read along a chain of the one-block layout depends on its two
    blocks only. *)
Lemma readFileFromBlocks_stored fuel st st' first d content size :
  stored st first d content ->
  blockSize st' = blockSize st ->
  readIndexBlock st' first = readIndexBlock st first ->
  readBlock (blockSize st) (blocksFile st') d = readBlock (blockSize st) (blocksFile st) d ->
  readFileFromBlocks fuel st' first size = readFileFromBlocks fuel st first size.
Proof.
  intros (ib & Hib & Hids & _ & Hnext & _) Hbs Hri Hrd.
  unfold readFileFromBlocks. destruct (_ || _); [done|].
  destruct fuel as [|fuel]; [done|]. cbn [readChain].
  destruct (_ || _); [done|]. rewrite Hri, Hib, Hids. cbn [readDataBlocks].
  rewrite Hbs, Hrd, Hnext.
  assert (Hend : ∀ result bytesRead,
            readChain fuel st' 0 size result bytesRead
            = readChain fuel st 0 size result bytesRead)
    by (intros; by destruct fuel).
  destruct (size <=? 0); [apply Hend|].
  destruct (readBlock (blockSize st) (blocksFile st) d) as [bytes| |];
    [apply Hend|done..].
Qed.

Lemma readFileFromBlocks_apart F fuel st st' first d content size :
  apart F st st' -> first ∉ F -> d ∉ F -> stored st first d content ->
  readFileFromBlocks fuel st' first size = readFileFromBlocks fuel st first size.
Proof.
  intros Hap Hf Hd Hst. apply (readFileFromBlocks_stored _ _ _ _ d content); [done|..].
  - apply Hap.
  - destruct Hst as (ib & _ & _ & _ & _ & _ & Hh1 & _).
    by apply (readIndexBlock_apart F).
  - destruct Hst as (ib & _ & _ & _ & _ & _ & _ & (? & ? & ?) & _).
    destruct Hap as (_ & _ & _ & _ & Hr & _). by apply Hr.
Qed.

(** ** What a write touches *)

Lemma allocateBlocks_returns bm n r bm' : allocateBlocks bm n ≠ (Abort r, bm').
Proof.
  unfold allocateBlocks. destruct (n =? 0); [done|]. destruct (find _ _).
  - by destruct (markRun _ _ _).
  - destruct (1 <? n); [|done]. unfold allocateBlocksIndividual.
    destruct (fold_left _ _ _). by destruct (_ =? _).
Qed.

Lemma writeBlock_returns bs file id payload r : writeBlock bs file id payload ≠ Abort r.
Proof. unfold writeBlock. destruct (_ <? 0); [done|]. by destruct (_ <? _). Qed.

(** [writeFileToBlocks] writes the new chain, then frees the old one. *)
Lemma writeFileToBlocks_split fuel st payload existing :
  writeFileToBlocks fuel st payload existing
  = match writeFileToBlocks fuel st payload 0 with
    | (Ok first, st2) =>
        if existing =? NullBlockID then (Ok first, st2)
        else
          match freeFileBlocks fuel st2 existing with
          | (Abort r, st3) => (Abort r, st3)
          | (_, st3) => (Ok first, st3)
          end
    | other => other
    end.
Proof.
  unfold writeFileToBlocks. change (0 =? NullBlockID) with true. cbv iota.
  destruct (Z.of_nat (length payload) =? 0); [done|].
  destruct (blockSize st =? 0); [done|].
  destruct (allocate st _) as [[ids|e|r] st1]; [|done..].
  destruct (writeDataBlocks _ _ _ _ _) as [[[]|e|r] f1]; [|done..].
  by destruct (createIndexBlocks _ _) as [[x|e|r] st2].
Qed.

Lemma apart_nil_trans F st st1 st2 :
  apart F st st1 -> apart [] st1 st2 -> apart F st st2.
Proof.
  intros H1 H2. pose proof (apart_trans _ _ _ _ _ H1 H2) as H.
  by rewrite app_nil_r in H.
Qed.

(** The new chain is made of blocks that were free, and no other block is
    touched: whatever the outcome, every block that was in use reads as
    before and is still in use. *)
Lemma writeFileToBlocks_fresh fuel st payload r st2 :
  codecRoundTrip -> addressable st ->
  writeFileToBlocks fuel st payload 0 = (r, st2) ->
  header st2 = header st
  ∧ ∃ F,
      apart F st st2
      ∧ (∀ b, b ∈ F ->
           1 <= b <= totalBlocks (bitmap st) ∧ isBlockFree (bitmap st) (b - 1) = true)
      ∧ match r with
        | Ok first =>
            (first = 0
             ∧ (Z.of_nat (length payload) <= (2 ^ 32 - 1) * blockSize st -> payload = []))
            ∨ ∃ d, first ∈ F ∧ d ∈ F ∧ stored st2 first d payload
        | Err _ => True
        | Abort _ => False
        end.
Proof.
  intros Hcodec [Hbs Htot]. unfold writeFileToBlocks.
  change (0 =? NullBlockID) with true. cbv iota.
  destruct (Z.eqb_spec (Z.of_nat (length payload)) 0) as [|Hlen0].
  { intros [= <- <-]. split; [done|]. exists []. split; [apply apart_refl|].
    split; [intros b Hb; by apply elem_of_nil in Hb|].
    left. split; [done|]. intros _. destruct payload; [done|simpl in *; lia]. }
  destruct (Z.eqb_spec (blockSize st) 0); [lia|].
  fold (blocksNeeded st payload).
  pose proof (u32_range (blocksNeeded st payload)) as Hcr.
  unfold allocate.
  destruct (allocateBlocks (bitmap st) _) as [[ids|e|ra] bm1] eqn:Ea.
  3: { by apply allocateBlocks_returns in Ea. }
  2: { intros [= <- <-]. split; [done|].
       destruct (allocateBlocks_refused _ _ _ _ Htot Ea) as (_ & Ht1 & Hsame).
       exists []. split; [|split; [|done]].
       - apply apart_bitmap; [done|]. intros id Hid _. apply Hsame. lia.
       - intros b Hb. by apply elem_of_nil in Hb. }
  apply allocateBlocks_allocated in Ea as [Hal Hn]; [|done|lia].
  pose proof (apart_allocated st ids bm1 Hal) as Hap1.
  assert (Hids : ∀ b, b ∈ ids ->
            1 <= b <= totalBlocks (bitmap st) ∧ isBlockFree (bitmap st) (b - 1) = true).
  { intros b Hb. destruct Hal as (_ & _ & Hi & _). destruct (Hi b Hb) as (? & ? & _). done. }
  assert (Ht1 : totalBlocks bm1 = totalBlocks (bitmap st)) by apply Hal.
  set (st1 := setBitmap st bm1) in *.
  destruct ids as [|d rest].
  { cbn [writeDataBlocks createIndexBlocks]. intros [= <- <-]. split; [done|].
    exists []. split; [exact Hap1|]. split; [done|]. left. split; [done|].
    intros Hle. exfalso. apply (blocksNeeded_fits st payload); [lia|lia|].
    simpl in Hn. lia. }
  destruct (Hids d) as [Hd Hdfree]; [by left|].
  destruct (Z.lt_ge_cases (blockSize st - 4) (Z.of_nat (length payload))) as [Hbig|Hfit].
  { rewrite writeDataBlocks_refused; [|exact Hbs|lia|exact Hbig].
    intros [= <- <-]. split; [done|]. exists (d :: rest). split; [|done].
    apply (apart_weaken ((d :: rest) ++ (d :: rest))).
    { intros id Hid. apply elem_of_app in Hid. tauto. }
    apply (apart_trans _ _ _ st1); [done|].
    apply (apart_release (setBlocksFile st1 (blocksFile st1))); [simpl; lia|].
    intros id Hid. destruct (Hids id Hid) as [? _]. simpl. lia. }
  assert (Hone : blocksNeeded st payload = 1).
  { unfold blocksNeeded. rewrite Z.quot_div_nonneg by lia. symmetry.
    apply (Z.div_unique _ _ _ (Z.of_nat (length payload) - 1)); lia. }
  rewrite Hone in Hn. change (u32 1) with 1 in Hn.
  destruct rest; [|simpl in Hn; lia]. clear Hn.
  cbn [writeDataBlocks].
  change (blockSize st1) with (blockSize st).
  rewrite Z.mul_0_l, Z.add_0_l, Z.sub_0_r. change (Z.to_nat 0) with 0%nat.
  rewrite drop_0, Z.min_r, take_ge by lia.
  destruct (writeBlock (blockSize st) (blocksFile st1) d _) as [f1|e|ra] eqn:Ew1.
  3: { by apply writeBlock_returns in Ew1. }
  2: { intros [= <- <-]. split; [done|]. exists [d]. split; [|done].
       apply (apart_weaken ([d] ++ [d])).
       { intros id Hid. apply elem_of_app in Hid. tauto. }
       apply (apart_trans _ _ _ st1); [done|].
       apply (apart_release (setBlocksFile st1 (blocksFile st1))); [simpl; lia|].
       intros id Hid. apply list_elem_of_singleton in Hid as ->. simpl. lia. }
  destruct (apart_writeBlock st1 d _ f1 Hbs ltac:(simpl; lia) ltac:(lia) Ew1)
    as [Hap2 Hin_d].
  set (st1f := setBlocksFile st1 f1) in *.
  assert (Hap12 : apart [d] st st1f).
  { apply (apart_weaken ([d] ++ [d])).
    { intros id Hid. apply elem_of_app in Hid. tauto. }
    by apply (apart_trans _ _ _ st1). }
  unfold createIndexBlocks.
  replace (chunksOf (length [d]) (Z.to_nat MaxBlocksPerIndex) [d]) with [[d]]
    by (by vm_compute).
  cbn [createIndexLoop]. unfold allocate.
  destruct (allocateBlocks (bitmap st1f) 1) as [[ids2|e|ra] bm2] eqn:Ea2.
  3: { by apply allocateBlocks_returns in Ea2. }
  2: { intros [= <- <-]. split; [done|].
       destruct (allocateBlocks_refused (bitmap st1f) _ _ _ ltac:(simpl; lia) Ea2)
         as (_ & Ht2 & Hsame).
       change (bitmap st1f) with bm1 in Ht2, Hsame.
       exists [d]. split; [|done].
       apply (apart_weaken ([d] ++ [d])).
       { intros id Hid. apply elem_of_app in Hid. tauto. }
       apply (apart_trans _ _ _ st1f); [done|].
       set (st2a := release (setBitmap st1f bm2) []).
       assert (Ha : apart [] st1f st2a).
       { apply (apart_nil_trans _ _ (setBitmap st1f bm2)).
         - apply apart_bitmap; [done|]. intros id Hid _. apply Hsame. lia.
         - apply apart_release; [simpl; lia|].
           intros id Hid. by apply elem_of_nil in Hid. }
       apply (apart_weaken ([] ++ [d])); [done|].
       apply (apart_trans _ _ _ st2a); [done|].
       apply apart_release.
       - destruct Ha as (_ & _ & -> & _). simpl. lia.
       - intros id Hid. apply list_elem_of_singleton in Hid as ->.
         destruct Ha as (_ & _ & -> & _). simpl. lia. }
  apply allocateBlocks_allocated in Ea2 as [Hal2 Hn2]; [|simpl; lia|lia].
  destruct ids2 as [|x [|]]; [simpl in Hn2; lia| |simpl in Hn2; lia]. clear Hn2.
  cbn [List.hd app].
  pose proof (apart_allocated st1f [x] bm2 Hal2) as Hap3.
  destruct Hal as (_ & _ & Hi1 & Ho1). destruct Hal2 as (Ht2 & _ & Hi2 & Ho2).
  destruct (Hi1 d) as (_ & _ & Hdused); [by left|].
  destruct (Hi2 x) as (Hx & Hxfree & Hxused); [by left|].
  change (bitmap st1f) with bm1 in *.
  assert (Hdx : d ≠ x) by (intros ->; congruence).
  assert (Hxfree0 : isBlockFree (bitmap st) (x - 1) = true).
  { rewrite <- (Ho1 (x - 1)); [done|lia|].
    replace (x - 1 + 1) with x by lia. intros Hin.
    apply list_elem_of_singleton in Hin. congruence. }
  assert (Hdused2 : isBlockFree bm2 (d - 1) = false).
  { rewrite (Ho2 (d - 1)); [done|lia|].
    replace (d - 1 + 1) with d by lia. intros Hin.
    apply list_elem_of_singleton in Hin. congruence. }
  assert (HF : ∀ b, b ∈ [d; x] ->
            1 <= b <= totalBlocks (bitmap st) ∧ isBlockFree (bitmap st) (b - 1) = true).
  { intros b Hb. apply elem_of_cons in Hb as [->|Hb]; [done|].
    apply list_elem_of_singleton in Hb as ->. split; [|done].
    rewrite <- Ht1. exact Hx. }
  set (st1a := setBitmap st1f bm2) in *.
  assert (Hap123 : apart [d; x] st st1a).
  { apply (apart_trans [d] [x] _ st1f); done. }
  set (ib := {| BlockIds := [d]; Extents := []; NextIndexBlockId := 0;
                DataSize := u32 (Z.of_nat (length [d]) * blockSize st1f);
                IndexCrc32 := 0 |}).
  destruct (writeIndexBlock st1a x ib) as [[[]|e|ra] st2a] eqn:Ewi.
  3: { unfold writeIndexBlock in Ewi.
       destruct (writeBlock _ _ x _) eqn:Ewb; [discriminate Ewi..|].
       by apply writeBlock_returns in Ewb. }
  2: { unfold writeIndexBlock in Ewi.
       destruct (writeBlock _ _ x _) eqn:Ewb; [discriminate Ewi| |discriminate Ewi].
       injection Ewi as <- <-.
       intros [= <- <-]. split; [done|]. exists [d; x]. split; [|done].
       apply (apart_weaken ([d; x] ++ ([x] ++ [d]))).
       { intros id Hid. rewrite !elem_of_app in Hid.
         destruct Hid as [?|[Hid|Hid]]; [done|..];
           apply list_elem_of_singleton in Hid as ->; rewrite ?elem_of_cons; auto. }
       apply (apart_trans _ _ _ st1a); [done|].
       apply (apart_trans _ _ _ (release st1a [x])).
       - apply apart_release; [simpl; lia|].
         intros id Hid. apply list_elem_of_singleton in Hid as ->. simpl. lia.
       - assert (Hcap : totalBlocks (bitmap (release st1a [x])) = totalBlocks bm2)
           by apply freeBlocks_capacity.
         apply apart_release; [lia|].
         intros id Hid. apply list_elem_of_singleton in Hid as ->. lia. }
  apply writeIndexBlock_Ok in Ewi as (f2 & Hw2 & ->).
  cbn [createIndexLoop linkIndexBlocks List.hd].
  intros [= <- <-]. split; [done|].
  destruct (apart_writeBlock st1a x _ f2 Hbs ltac:(simpl; lia) ltac:(simpl in Hx; lia) Hw2)
    as [Hap4 Hin_x].
  set (st2 := setBlocksFile st1a f2) in *.
  exists [d; x]. split; [|split; [done|]].
  { apply (apart_weaken ([d; x] ++ [x])).
    { intros id Hid. rewrite elem_of_app in Hid. destruct Hid as [?|Hid]; [done|].
      apply list_elem_of_singleton in Hid as ->. rewrite ?elem_of_cons. auto. }
    by apply (apart_trans _ _ _ st1a). }
  right. exists d. split; [rewrite ?elem_of_cons; auto|].
  split; [rewrite ?elem_of_cons; auto|].
  exists (stamped st ib).
  split; [|split; [|split; [|split; [|split; [|split; [|split]]]]]].
  - change (stamped st ib) with (stamped st2 ib).
    apply readIndexBlock_of_bytes; [done| |].
    + refine (conj _ (conj _ (conj _ (conj _ (conj _ (conj _ _))))));
        simpl; try done; try apply u32_range.
      constructor; [|done]. unfold isU32. lia.
    + eapply readBlock_after_write; [|exact Hw2]. simpl. lia.
  - unfold stamped. by destruct (checksumEnabled st).
  - unfold stamped. by destruct (checksumEnabled st).
  - unfold stamped. by destruct (checksumEnabled st).
  - change (blockSize st2) with (blockSize st). change (blocksFile st2) with f2.
    rewrite (readBlock_other_write (blockSize st) f1 d x _ f2 ltac:(lia) ltac:(lia)
               ltac:(simpl in Hx; lia) Hdx Hin_d Hw2).
    eapply readBlock_after_write; [|exact Ew1]. lia.
  - split; [simpl in *; lia|]. split; [done|exact Hin_x].
  - split; [simpl; lia|]. split; [done|].
    apply (inFile_mono st1f); [done| |done].
    destruct Hap4 as (_ & _ & _ & Hlen & _). exact Hlen.
  - congruence.
Qed.

(** ** The effect of the operations on files *)

Lemma findEntryUnsafe_returns r path a : findEntryUnsafe r path ≠ Abort a.
Proof.
  unfold findEntryUnsafe. destruct (isEmptyString _); [done|].
  destruct (dirAt _ _); [|done]. by destruct (_ !! _).
Qed.

Lemma changes_refl st key : changes st st key [].
Proof.
  split; [apply apart_refl|]. split; [apply sameDirs_refl|].
  split; [intros b Hb; by apply elem_of_nil in Hb|]. split; [done|].
  intros f' Hf'. left. split; [done|]. intros b _. apply not_elem_of_nil.
Qed.

(** A block a sound volume stores a file in is in use. *)
Lemma sound_holds_used st loc name f b :
  sound st -> entryAt (root st) loc name = Some f ->
  holds st (FirstIndexBlockId f) b -> held st b.
Proof.
  intros (_ & Hfiles & _) Hf Hb.
  destruct (Hfiles _ _ _ Hf) as [_ [H0|(d & content & Hst)]].
  - destruct Hb as [Hne _]. done.
  - by apply (holds_held st (FirstIndexBlockId f) d content b).
Qed.

Lemma freeFileBlocks_stored fuel st first d content :
  totalBlocks (bitmap st) < 2 ^ 32 -> stored st first d content -> (2 <= fuel)%nat ->
  ∃ st', freeFileBlocks fuel st first = (Ok tt, st')
         ∧ header st' = header st ∧ apart [d; first] st st'.
Proof.
  intros Hlt (ib & Hib & Hids & Hex & Hnext & _ & Hh1 & Hh2 & _) Hfuel.
  destruct fuel as [|[|fuel]]; [lia..|].
  cbn [freeFileBlocks]. unfold NullBlockID.
  destruct (Z.eqb_spec first 0); [destruct Hh1; lia|].
  rewrite Hib, Hids, Hex, Hnext. cbn [fold_left Z.eqb].
  eexists. split; [reflexivity|]. split; [done|].
  apply (apart_trans [d] [first] _ (release st [d])).
  - apply apart_release; [done|].
    intros id Hid. apply list_elem_of_singleton in Hid as ->. apply Hh2.
  - assert (Hcap : totalBlocks (bitmap (release st [d])) = totalBlocks (bitmap st))
      by apply freeBlocks_capacity.
    apply apart_release; [lia|].
    intros id Hid. apply list_elem_of_singleton in Hid as ->. rewrite Hcap. apply Hh1.
Qed.

(** The three ways [WriteFile] ends once the path has resolved. *)
Lemma WriteFile_run_any fuel now st path payload target r st1 :
  namesOk (root st) ->
  findEntryUnsafe (root st) path = Ok target -> foundIsDir target = false ->
  writeFileToBlocks fuel st payload (existingChain target) = (r, st1) ->
  WriteFile fuel now st path payload
  = match r with
    | Ok first =>
        (Ok tt,
         saveBitmap (saveRoot (setRoot st1
           (updateDir
              (fun d => setFiles d
                 (<[List.last (split (trim path)) EmptyString :=
                      writtenEntry now st1 (List.last (split (trim path)) EmptyString)
                        (foundFile target) first (Z.of_nat (length payload))]> (Files d)))
              (foundLoc target) (root st1)))))
    | Err e => (Err e, st1)
    | Abort a => (Abort a, st1)
    end.
Proof.
  intros Hok Efind Edir Ew. destruct r as [first|e|a].
  { by apply WriteFile_run. }
  all: unfold WriteFile; rewrite Efind, Edir; cbn [andb];
    destruct (findEntryUnsafe_not_dir _ _ _ Efind Edir) as (Hne & Hloc & Hat & Hnone & Hfile);
    destruct (findEntryUnsafe_parent (root st) (removelast (split (trim path)))
                (foundDir target) Hok) as (parent & -> & Hploc);
    [apply removelast_Forall, split_noSlash|done|];
    unfold existingChain in Ew; by rewrite Ew.
Qed.

(** The blocks [writeFileToBlocks] touches: those of the new chain, which
    were free, and those of the chain it replaces. *)
Lemma writeFileToBlocks_effect fuel st payload loc name old :
  codecRoundTrip -> sound st -> (2 <= fuel)%nat ->
  entryAt (root st) loc name = old ->
  let existing := match old with Some f => FirstIndexBlockId f | None => 0 end in
  ∃ r st1 F,
    writeFileToBlocks fuel st payload existing = (r, st1)
    ∧ header st1 = header st
    ∧ apart F st st1
    ∧ (∀ b, b ∈ F ->
         1 <= b <= totalBlocks (bitmap st)
         ∧ (isBlockFree (bitmap st) (b - 1) = true
            ∨ ∃ f, old = Some f ∧ holds st (FirstIndexBlockId f) b))
    ∧ match r with
      | Ok first =>
          (first = 0
           ∧ (Z.of_nat (length payload) <= (2 ^ 32 - 1) * blockSize st -> payload = []))
          ∨ ∃ d, isBlockFree (bitmap st) (first - 1) = true
                 ∧ isBlockFree (bitmap st) (d - 1) = true
                 ∧ stored st1 first d payload
      | Err _ =>
          ∀ b, b ∈ F -> isBlockFree (bitmap st) (b - 1) = true
      | Abort _ => False
      end.
Proof.
  intros Hcodec Hsound Hfuel Hold existing.
  pose proof Hsound as (Hwf & Hfiles & Hdisj).
  pose proof (wellFormed_addressable _ Hwf) as Haddr.
  rewrite writeFileToBlocks_split.
  destruct (writeFileToBlocks fuel st payload 0) as [r0 st2] eqn:Ecore.
  destruct (writeFileToBlocks_fresh _ _ _ _ _ Hcodec Haddr Ecore)
    as (Hh & F & Hap & HF & Hr).
  destruct r0 as [first|e|a]; [|exists (Err e), st2, F|done].
  2: { split; [done|]. split; [done|]. split; [done|]. split.
       - intros b Hb. destruct (HF b Hb). split; [done|by left].
       - intros b Hb. by destruct (HF b Hb). }
  assert (Hnew : (first = 0
                  ∧ (Z.of_nat (length payload) <= (2 ^ 32 - 1) * blockSize st
                     -> payload = []))
                 ∨ ∃ d, first ∈ F ∧ d ∈ F
                        ∧ isBlockFree (bitmap st) (first - 1) = true
                        ∧ isBlockFree (bitmap st) (d - 1) = true
                        ∧ stored st2 first d payload).
  { destruct Hr as [?|(d & Hf & Hd & Hst)]; [by left|]. right. exists d.
    destruct (HF _ Hf) as [_ ?], (HF _ Hd) as [_ ?]. done. }
  clear Hr.
  destruct (Z.eqb_spec existing NullBlockID) as [Hnone|Hsome].
  { exists (Ok first), st2, F. split; [done|]. split; [done|]. split; [done|]. split.
    - intros b Hb. destruct (HF b Hb). split; [done|by left].
    - destruct Hnew as [?|(d & _ & _ & ? & ? & ?)]; [by left|]. right. by exists d. }
  destruct old as [f|]; [|done]. subst existing. unfold NullBlockID in Hsome.
  destruct (Hfiles _ _ _ Hold) as [_ [H0|(d0 & c0 & Hst0)]]; [done|].
  assert (Hused : ∀ b, holds st (FirstIndexBlockId f) b -> b ∉ F).
  { intros b Hb Hin. destruct (HF b Hin) as [_ Hfree].
    destruct (holds_held _ _ _ _ _ Hst0 Hb) as (_ & Hu & _). congruence. }
  assert (Hst2 : stored st2 (FirstIndexBlockId f) d0 c0).
  { apply (stored_apart F st); [done| | |done]; apply Hused;
      apply (holds_stored _ _ _ _ _ Hst0); auto. }
  destruct (freeFileBlocks_stored fuel st2 _ _ _ ltac:(destruct Hap as (_ & _ & -> & _);
              destruct Haddr; lia) Hst2 Hfuel) as (st3 & -> & Hh3 & Hap3).
  exists (Ok first), st3, (F ++ [d0; FirstIndexBlockId f]).
  split; [done|]. split; [congruence|]. split; [by apply (apart_trans _ _ _ st2)|].
  split.
  - intros b Hb. apply elem_of_app in Hb as [Hb|Hb].
    + destruct (HF b Hb). split; [done|by left].
    + assert (Hb' : holds st (FirstIndexBlockId f) b).
      { apply (holds_stored _ _ _ _ _ Hst0). rewrite !elem_of_cons in Hb.
        destruct Hb as [->|[->|Hb]]; auto. by apply elem_of_nil in Hb. }
      split; [apply (holds_held _ _ _ _ _ Hst0 Hb')|]. right. by exists f.
  - destruct Hnew as [?|(d & Hf & Hd & Hff & Hdf & Hst)]; [by left|]. right.
    exists d. split; [done|]. split; [done|].
    apply (stored_apart [d0; FirstIndexBlockId f] st2); [done| | |done].
    + intros Hin. apply (Hused first); [|done].
      apply (holds_stored _ _ _ _ _ Hst0). rewrite !elem_of_cons in Hin.
      destruct Hin as [->|[->|Hin]]; auto. by apply elem_of_nil in Hin.
    + intros Hin. apply (Hused d); [|done].
      apply (holds_stored _ _ _ _ _ Hst0). rewrite !elem_of_cons in Hin.
      destruct Hin as [->|[->|Hin]]; auto. by apply elem_of_nil in Hin.
Qed.

Lemma entryAt_saved st l n :
  entryAt (root (saveBitmap (saveRoot st))) l n = entryAt (root st) l n.
Proof.
  destruct (root_saved st) as [->|[m ->]]; [done|]. apply entryAt_setDirMetadata.
Qed.

Lemma sameDirs_saved st : sameDirs (root st) (root (saveBitmap (saveRoot st))).
Proof.
  destruct (root_saved st) as [->|[m ->]]; [apply sameDirs_refl|].
  apply sameDirs_setDirMetadata.
Qed.

Lemma writtenEntry_fields now st1 name old first len :
  FirstIndexBlockId (writtenEntry now st1 name old first len) = first
  ∧ Size (writtenEntry now st1 name old first len) = len
  ∧ ∃ m, Metadata (writtenEntry now st1 name old first len)
         = updateMetadataChecksum st1 m.
Proof. unfold writtenEntry. destruct old; simpl; eauto. Qed.

(** [WriteFile] in a sound volume, whatever it returns. *)
Lemma WriteFile_changes fuel now st path payload :
  codecRoundTrip -> sound st -> (2 <= fuel)%nat ->
  let key := split (trim path) in
  let st' := snd (WriteFile fuel now st path payload) in
  ∃ F,
    changes st st' key F
    ∧ match fst (WriteFile fuel now st path payload) with
      | Ok _ =>
          ∃ target f',
            findEntryUnsafe (root st) path = Ok target ∧ foundIsDir target = false
            ∧ entryAt (root st') (removelast key) (List.last key EmptyString) = Some f'
            ∧ Size f' = Z.of_nat (length payload)
            ∧ ((FirstIndexBlockId f' = 0
                ∧ (Z.of_nat (length payload) <= (2 ^ 32 - 1) * blockSize st
                   -> payload = []))
               ∨ ∃ d, stored st' (FirstIndexBlockId f') d payload)
      | Err _ => True
      | Abort _ => False
      end.
Proof.
  intros Hcodec Hsound Hfuel key st'. subst st'.
  pose proof Hsound as (Hwf & Hfiles & Hdisj).
  destruct (findEntryUnsafe (root st) path) as [target|e|a] eqn:Efind.
  3: { by apply findEntryUnsafe_returns in Efind. }
  2: { unfold WriteFile. rewrite Efind. exists []. split; [apply changes_refl|done]. }
  destruct (foundIsDir target) eqn:Edir.
  { unfold WriteFile.
    rewrite Efind, Edir, (findEntryUnsafe_dir_no_file _ _ _ Efind Edir).
    exists []. split; [apply changes_refl|done]. }
  destruct (findEntryUnsafe_not_dir _ _ _ Efind Edir) as (Hne & Hloc & Hat & Hnone & Hfile).
  fold key in Hloc, Hat, Hnone, Hfile.
  set (name := List.last key EmptyString) in *.
  set (loc := removelast key) in *.
  assert (Hold : entryAt (root st) loc name = foundFile target).
  { unfold entryAt. by rewrite Hat. }
  destruct (writeFileToBlocks_effect fuel st payload loc name (foundFile target)
              Hcodec Hsound Hfuel Hold) as (r & st1 & F & Ew & Hh & Hap & HF & Hr).
  rewrite (WriteFile_run_any fuel now st path payload target r st1 (proj2 (proj2 Hwf))
             Efind Edir Ew).
  assert (Hroot1 : root st1 = root st) by (unfold root; by rewrite Hh).
  destruct r as [first|e|a]; [|exists F|done].
  2: { split; [|done]. cbn [snd].
       split; [done|]. split; [rewrite Hroot1; apply sameDirs_refl|].
       fold loc name. split.
       - intros b Hb. destruct (HF b Hb) as [? [?|(f & Hf & ?)]]; split; try done;
           [by left|]. right. exists f. by rewrite Hold.
       - split; [by rewrite Hroot1|]. rewrite Hroot1. intros f' Hf'. left.
         split; [done|]. intros b Hb Hin.
         destruct (sound_holds_used _ _ _ _ _ Hsound Hf' Hb) as (_ & Hu & _).
         rewrite (Hr b Hin) in Hu. done. }
  cbn [fst snd]. fold key name. rewrite Hloc, Hroot1.
  set (fnew := writtenEntry now st1 name (foundFile target) first
                 (Z.of_nat (length payload))).
  set (g := fun d => setFiles d (<[name := fnew]> (Files d))).
  set (st2 := setRoot st1 (updateDir g loc (root st))).
  assert (Hap2 : apart [] st1 (saveBitmap (saveRoot st2))).
  { apply (apart_nil_trans _ _ st2); [apply apart_setRoot|apply apart_saved]. }
  assert (Hentries : ∀ l n, entryAt (root (saveBitmap (saveRoot st2))) l n
                            = if decide (l = loc ∧ n = name) then Some fnew
                              else entryAt (root st) l n).
  { intros l n. rewrite entryAt_saved. unfold st2, root at 1. simpl.
    by apply (entryAt_insert _ _ _ _ (foundDir target)). }
  destruct (writtenEntry_fields now st1 name (foundFile target) first
              (Z.of_nat (length payload))) as (Hfirst & Hsize & m & Hmeta).
  fold fnew in Hfirst, Hsize, Hmeta.
  assert (Hstored : (first = 0
                     ∧ (Z.of_nat (length payload) <= (2 ^ 32 - 1) * blockSize st
                        -> payload = []))
                    ∨ ∃ d, isBlockFree (bitmap st) (first - 1) = true
                           ∧ isBlockFree (bitmap st) (d - 1) = true
                           ∧ stored (saveBitmap (saveRoot st2)) first d payload).
  { destruct Hr as [?|(d & ? & ? & Hst)]; [by left|]. right. exists d.
    split; [done|]. split; [done|].
    apply (stored_apart [] st1); [done|apply not_elem_of_nil..|done]. }
  exists F. split.
  - split; [by apply (apart_nil_trans _ _ st1)|]. split.
    { apply (sameDirs_trans _ (root st2)); [|apply sameDirs_saved].
      unfold st2, root at 2. simpl. by apply sameDirs_updateDir. }
    fold loc name. split.
    { intros b Hb. destruct (HF b Hb) as [? [?|(f & Hf & ?)]]; split; try done;
        [by left|]. right. exists f. by rewrite Hold. }
    split.
    { intros l n Hln. rewrite Hentries, decide_False; [done|]. tauto. }
    intros f'. rewrite Hentries, decide_True by done. intros [= <-]. right.
    split.
    { rewrite Hmeta. apply verify_updated. apply Hap2. }
    rewrite Hfirst. destruct Hstored as [[? _]|(d & ? & ? & ?)]; [by left|].
    right. by exists d, payload.
  - exists target, fnew. split; [done|]. split; [done|].
    split; [by rewrite Hentries, decide_True|]. split; [done|].
    rewrite Hfirst. destruct Hstored as [?|(d & _ & _ & ?)]; [by left|].
    right. by exists d.
Qed.

(** [DeleteFile] in a sound volume, whatever it returns. *)
Lemma DeleteFile_changes fuel st path :
  sound st -> (2 <= fuel)%nat ->
  let key := split (trim path) in
  let st' := snd (DeleteFile fuel st path) in
  ∃ F,
    changes st st' key F
    ∧ match fst (DeleteFile fuel st path) with
      | Ok _ =>
          entryAt (root st') (removelast key) (List.last key EmptyString) = None
          ∧ ∃ target f, findEntryUnsafe (root st) path = Ok target
                        ∧ foundIsDir target = false ∧ foundFile target = Some f
      | Err _ => st' = st
      | Abort _ => False
      end.
Proof.
  intros Hsound Hfuel key st'. subst st'.
  pose proof Hsound as (Hwf & Hfiles & Hdisj).
  pose proof (wellFormed_addressable _ Hwf) as [_ Htot].
  unfold DeleteFile.
  destruct (findEntryUnsafe (root st) path) as [target|e|a] eqn:Efind.
  3: { by apply findEntryUnsafe_returns in Efind. }
  2: { exists []. split; [apply changes_refl|done]. }
  destruct (foundIsDir target) eqn:Edir.
  { exists []. split; [apply changes_refl|done]. }
  destruct (foundFile target) as [f|] eqn:Efile.
  2: { exists []. split; [apply changes_refl|done]. }
  destruct (findEntryUnsafe_not_dir _ _ _ Efind Edir) as (Hne & Hloc & Hat & Hnone & Hfile).
  fold key in Hloc, Hat, Hnone, Hfile.
  set (name := List.last key EmptyString) in *.
  set (loc := removelast key) in *.
  assert (Hold : entryAt (root st) loc name = Some f).
  { unfold entryAt. by rewrite Hat, <- Hfile. }
  assert (Hfree : ∃ st1 F,
            freeFileBlocks fuel st (FirstIndexBlockId f) = (Ok tt, st1)
            ∧ header st1 = header st ∧ apart F st st1
            ∧ ∀ b, b ∈ F -> held st b ∧ holds st (FirstIndexBlockId f) b).
  { destruct (Hfiles _ _ _ Hold) as [_ [H0|(d & c & Hst)]].
    - exists st, []. rewrite H0. destruct fuel; [lia|].
      split; [done|]. split; [done|]. split; [apply apart_refl|].
      intros b Hb. by apply elem_of_nil in Hb.
    - destruct (freeFileBlocks_stored fuel st _ _ _ ltac:(lia) Hst Hfuel)
        as (st1 & Hrun & Hh & Hap).
      exists st1, [d; FirstIndexBlockId f]. split; [done|]. split; [done|].
      split; [done|]. intros b Hb.
      assert (Hb' : holds st (FirstIndexBlockId f) b).
      { apply (holds_stored _ _ _ _ _ Hst). rewrite !elem_of_cons in Hb.
        destruct Hb as [->|[->|Hb]]; auto. by apply elem_of_nil in Hb. }
      split; [|done]. by apply (holds_held _ _ _ _ _ Hst). }
  destruct Hfree as (st1 & F & -> & Hh & Hap & HF).
  assert (Hroot1 : root st1 = root st) by (unfold root; by rewrite Hh).
  cbn [fst snd]. fold key name. rewrite Hloc, Hroot1.
  set (g := fun d => setFiles d (delete name (Files d))).
  set (st2 := setRoot st1 (updateDir g loc (root st))).
  assert (Hentries : ∀ l n, entryAt (root (saveBitmap (saveRoot st2))) l n
                            = if decide (l = loc ∧ n = name) then None
                              else entryAt (root st) l n).
  { intros l n. rewrite entryAt_saved. unfold st2, root at 1. simpl.
    by apply (entryAt_delete _ _ _ (foundDir target)). }
  exists F. split.
  - split.
    { apply (apart_nil_trans _ _ st1); [done|].
      apply (apart_nil_trans _ _ st2); [apply apart_setRoot|apply apart_saved]. }
    split.
    { apply (sameDirs_trans _ (root st2)); [|apply sameDirs_saved].
      unfold st2, root at 2. simpl. by apply sameDirs_updateDir. }
    fold loc name. split.
    { intros b Hb. destruct (HF b Hb) as [(? & _) ?]. split; [done|].
      right. by exists f. }
    split.
    { intros l n Hln. rewrite Hentries, decide_False; [done|]. tauto. }
    intros f'. by rewrite Hentries, decide_True.
  - split; [by rewrite Hentries, decide_True|]. by exists target, f.
Qed.

(** An entry that an operation on another file finds is left alone. *)
Lemma changes_other st st' key F l n f :
  sound st -> changes st st' key F ->
  entryAt (root st) l n = Some f ->
  l ≠ removelast key ∨ n ≠ List.last key EmptyString ->
  ∀ b, holds st (FirstIndexBlockId f) b -> b ∉ F.
Proof.
  intros Hsound (_ & _ & HF & _) Hf Hln b Hb Hin.
  destruct (HF b Hin) as [_ [Hfree|(f0 & Hf0 & Hb0)]].
  - destruct (sound_holds_used _ _ _ _ _ Hsound Hf Hb) as (_ & Hu & _). congruence.
  - destruct Hsound as (_ & _ & Hdisj).
    destruct (Hdisj _ _ _ _ _ _ _ Hf Hf0 Hb Hb0). tauto.
Qed.

(** After an operation, an entry is one from before whose blocks were left
    alone, or the new entry at the key, made of blocks that were free. *)
Lemma changes_entries st st' key F l n f' :
  sound st -> changes st st' key F ->
  entryAt (root st') l n = Some f' ->
  (entryAt (root st) l n = Some f'
   ∧ ∀ b, holds st (FirstIndexBlockId f') b -> b ∉ F)
  ∨ (l = removelast key ∧ n = List.last key EmptyString
     ∧ verifyMetadataChecksum st' (Metadata f') = true
     ∧ (FirstIndexBlockId f' = 0
        ∨ ∃ d content,
            isBlockFree (bitmap st) (FirstIndexBlockId f' - 1) = true
            ∧ isBlockFree (bitmap st) (d - 1) = true
            ∧ stored st' (FirstIndexBlockId f') d content)).
Proof.
  intros Hsound Hch Hf'. pose proof Hch as (_ & _ & _ & Hother & Hkey).
  destruct (decide (l = removelast key ∧ n = List.last key EmptyString)) as [[-> ->]|Hne].
  - destruct (Hkey f' Hf') as [?|[? ?]]; [by left|by right].
  - assert (Hln : l ≠ removelast key ∨ n ≠ List.last key EmptyString).
    { destruct (decide (l = removelast key)); [right|by left]. intros ->. tauto. }
    rewrite Hother in Hf' by done. left. split; [done|].
    by apply (changes_other st st' key F l n).
Qed.

Lemma changes_kept st st' F l n f :
  sound st -> apart F st st' ->
  entryAt (root st) l n = Some f ->
  (∀ b, holds st (FirstIndexBlockId f) b -> b ∉ F) ->
  verifyMetadataChecksum st' (Metadata f) = true
  ∧ (FirstIndexBlockId f = 0 ∨ ∃ d content, stored st' (FirstIndexBlockId f) d content)
  ∧ ∀ b, holds st' (FirstIndexBlockId f) b <-> holds st (FirstIndexBlockId f) b.
Proof.
  intros (_ & Hfiles & _) Hap Hf Hout.
  destruct (Hfiles _ _ _ Hf) as [Hv Hst].
  split.
  { unfold verifyMetadataChecksum in *. destruct Hap as (_ & -> & _). done. }
  destruct Hst as [H0|(d & c & Hst)].
  - split; [by left|]. intros b. unfold holds. rewrite H0. tauto.
  - assert (H1 : FirstIndexBlockId f ∉ F)
      by (apply Hout, (holds_stored _ _ _ _ _ Hst); auto).
    assert (H2 : d ∉ F) by (apply Hout, (holds_stored _ _ _ _ _ Hst); auto).
    split.
    + right. exists d, c. by apply (stored_apart F st).
    + intros b. by apply (holds_apart F _ _ _ d c).
Qed.

(** Soundness goes through every such operation. *)
Lemma sound_changes st st' key F :
  sound st -> wellFormed st' -> changes st st' key F -> sound st'.
Proof.
  intros Hsound Hwf Hch. pose proof Hch as (Hap & _).
  split; [done|]. split.
  - intros l n f' Hf'.
    destruct (changes_entries _ _ _ _ _ _ _ Hsound Hch Hf')
      as [[Hold Hout]|(_ & _ & Hv & Hnew)].
    + destruct (changes_kept st st' F l n f' Hsound Hap Hold Hout) as (? & ? & _).
      done.
    + split; [done|]. destruct Hnew as [?|(d & c & _ & _ & ?)]; [by left|].
      right. by exists d, c.
  - intros l n f l' n' f' b Hf Hf' Hb Hb'.
    destruct (changes_entries _ _ _ _ _ _ _ Hsound Hch Hf)
      as [[Hold Hout]|(-> & -> & _ & Hnew)],
       (changes_entries _ _ _ _ _ _ _ Hsound Hch Hf')
      as [[Hold' Hout']|(-> & -> & _ & Hnew')]; [| | |done].
    + destruct (changes_kept st st' F l n f Hsound Hap Hold Hout) as (_ & _ & Hh).
      destruct (changes_kept st st' F l' n' f' Hsound Hap Hold' Hout') as (_ & _ & Hh').
      apply Hh in Hb. apply Hh' in Hb'.
      destruct Hsound as (_ & _ & Hdisj). by apply (Hdisj _ _ f _ _ f' b).
    + exfalso.
      destruct (changes_kept st st' F l n f Hsound Hap Hold Hout) as (_ & _ & Hh).
      apply Hh in Hb.
      destruct (sound_holds_used _ _ _ _ _ Hsound Hold Hb) as (_ & Hu & _).
      destruct Hnew' as [H0|(d & c & Hf1 & Hf2 & Hst)]; [by destruct Hb'|].
      apply (holds_stored _ _ _ _ _ Hst) in Hb'. destruct Hb' as [-> | ->]; congruence.
    + exfalso.
      destruct (changes_kept st st' F l' n' f' Hsound Hap Hold' Hout') as (_ & _ & Hh).
      apply Hh in Hb'.
      destruct (sound_holds_used _ _ _ _ _ Hsound Hold' Hb') as (_ & Hu & _).
      destruct Hnew as [H0|(d & c & Hf1 & Hf2 & Hst)]; [by destruct Hb|].
      apply (holds_stored _ _ _ _ _ Hst) in Hb. destruct Hb as [-> | ->]; congruence.
Qed.

(** ** Sound volumes *)

Lemma sound_sub st st' :
  sound st -> wellFormed st' -> apart [] st st' ->
  (∀ l n f, entryAt (root st') l n = Some f -> entryAt (root st) l n = Some f) ->
  sound st'.
Proof.
  intros Hsound Hwf Hap Hsub.
  assert (Hkept : ∀ l n f, entryAt (root st) l n = Some f ->
            verifyMetadataChecksum st' (Metadata f) = true
            ∧ (FirstIndexBlockId f = 0
               ∨ ∃ d content, stored st' (FirstIndexBlockId f) d content)
            ∧ ∀ b, holds st' (FirstIndexBlockId f) b <-> holds st (FirstIndexBlockId f) b).
  { intros l n f Hf. apply (changes_kept st st' [] l n f); try done.
    intros b _. apply not_elem_of_nil. }
  split; [done|]. split.
  - intros l n f Hf. destruct (Hkept l n f (Hsub _ _ _ Hf)) as (? & ? & _). done.
  - intros l n f l' n' f' b Hf Hf' Hb Hb'.
    apply Hsub in Hf, Hf'.
    destruct (Hkept _ _ _ Hf) as (_ & _ & Hh), (Hkept _ _ _ Hf') as (_ & _ & Hh').
    apply Hh in Hb. apply Hh' in Hb'.
    destruct Hsound as (_ & _ & Hdisj). by apply (Hdisj _ _ f _ _ f' b).
Qed.

Lemma sound_fresh now : sound (createFileSystem now).
Proof.
  split; [apply wellFormed_fresh|].
  assert (Hnone : ∀ l n, entryAt (root (createFileSystem now)) l n = None).
  { intros l n. unfold createFileSystem. rewrite entryAt_saved.
    unfold entryAt, root. simpl. destruct l as [|m l]; simpl;
      [apply lookup_empty|by rewrite lookup_empty]. }
  split.
  - intros l n f Hf. by rewrite Hnone in Hf.
  - intros l n f l' n' f' b Hf. by rewrite Hnone in Hf.
Qed.

Lemma sound_WriteFile fuel now st path payload :
  codecRoundTrip -> sound st -> (2 <= fuel)%nat ->
  sound (snd (WriteFile fuel now st path payload)).
Proof.
  intros Hcodec Hsound Hfuel.
  destruct (WriteFile_changes fuel now st path payload Hcodec Hsound Hfuel) as (F & Hch & _).
  apply (sound_changes st _ (split (trim path)) F); [done| |done].
  apply wellFormed_WriteFile, Hsound.
Qed.

Lemma sound_DeleteFile fuel st path :
  sound st -> (2 <= fuel)%nat -> sound (snd (DeleteFile fuel st path)).
Proof.
  intros Hsound Hfuel.
  destruct (DeleteFile_changes fuel st path Hsound Hfuel) as (F & Hch & _).
  apply (sound_changes st _ (split (trim path)) F); [done| |done].
  apply wellFormed_DeleteFile, Hsound.
Qed.

Lemma sound_CreateDirectory now st path :
  sound st -> sound (snd (CreateDirectory now st path)).
Proof.
  intros Hsound.
  assert (Hmade : sound (saveRoot (createDirectoryChain st now path))).
  { apply (sound_sub st); [done| | |].
    - apply wellFormed_saveRoot, wellFormed_createDirectoryChain, Hsound.
    - apply (apart_nil_trans _ _ (createDirectoryChain st now path));
        [|apply apart_saveRoot].
      unfold createDirectoryChain. destruct (isEmptyString path);
        [apply apart_refl|apply apart_setRoot].
    - intros l n f.
      assert (Hchain : entryAt (root (createDirectoryChain st now path)) l n = Some f
                       -> entryAt (root st) l n = Some f).
      { unfold createDirectoryChain. destruct (isEmptyString path); [done|].
        apply entryAt_createDirectories. }
      destruct (root_saveRoot (createDirectoryChain st now path)) as [->|[m ->]];
        [done|]. by rewrite entryAt_setDirMetadata. }
  unfold CreateDirectory.
  destruct (findEntryUnsafe (root st) path) as [target| |]; [|done..].
  by destruct (foundIsDir target).
Qed.

Lemma sound_CopyFile fuel now st src dst :
  codecRoundTrip -> sound st -> (2 <= fuel)%nat ->
  sound (snd (CopyFile fuel now st src dst)).
Proof.
  intros Hcodec Hsound Hfuel. unfold CopyFile.
  destruct (ReadFile fuel st src); [|done..]. by apply sound_WriteFile.
Qed.

Lemma sound_MoveFile fuel now st src dst :
  codecRoundTrip -> sound st -> (2 <= fuel)%nat ->
  sound (snd (MoveFile fuel now st src dst)).
Proof.
  intros Hcodec Hsound Hfuel. unfold MoveFile.
  pose proof (sound_CopyFile fuel now st src dst Hcodec Hsound Hfuel) as Hcopy.
  destruct (CopyFile fuel now st src dst) as [[[]| |] st1]; [|done..].
  by apply sound_DeleteFile.
Qed.

(** Two paths with the same directory and the same last name have the
    same components. *)
Lemma same_key p q :
  removelast (split (trim q)) = removelast (split (trim p)) ->
  List.last (split (trim q)) EmptyString = List.last (split (trim p)) EmptyString ->
  split (trim q) = split (trim p).
Proof.
  intros Hl Hn.
  rewrite (app_removelast_last EmptyString (split_not_nil (trim q))).
  rewrite (app_removelast_last EmptyString (split_not_nil (trim p))). congruence.
Qed.

(** What is read at another path is what was read. *)
Lemma changes_isolated st st' path F q :
  sound st -> changes st st' (split (trim path)) F ->
  split (trim q) ≠ split (trim path) ->
  ∀ fuel, ReadFile fuel st' q = ReadFile fuel st q.
Proof.
  intros Hsound Hch Hq fuel. pose proof Hch as (Hap & Hdirs & _ & Hother & _).
  unfold ReadFile. specialize (Hdirs q).
  destruct (findEntryUnsafe (root st) q) as [t|e|a] eqn:Efind,
    (findEntryUnsafe (root st') q) as [t'|e'|a'] eqn:Efind'; try done;
    [|congruence..].
  destruct Hdirs as (Hd & Hl & Hf). rewrite Hd.
  destruct (foundIsDir t) eqn:Edir; [done|].
  destruct (findEntryUnsafe_not_dir _ _ _ Efind Edir) as (_ & Hloc & _).
  assert (Hln : foundLoc t ≠ removelast (split (trim path))
                ∨ List.last (split (trim q)) EmptyString
                  ≠ List.last (split (trim path)) EmptyString).
  { destruct (decide (foundLoc t = removelast (split (trim path)))) as [He|]; [|by left].
    right. intros Hn. apply Hq, same_key; [|done]. by rewrite <- Hloc. }
  rewrite (Hf eq_refl), (Hother _ _ Hln), <- (entryAt_found _ _ _ Efind Edir).
  destruct (foundFile t) as [g|] eqn:Eg; [|done].
  assert (Hg : entryAt (root st) (foundLoc t) (List.last (split (trim q)) EmptyString)
               = Some g) by (by rewrite <- (entryAt_found _ _ _ Efind Edir)).
  pose proof (changes_other _ _ _ _ _ _ _ Hsound Hch Hg Hln) as Hout.
  destruct Hsound as (_ & Hfiles & _).
  destruct (Hfiles _ _ _ Hg) as [Hv Hst].
  unfold verifyMetadataChecksum in *. destruct Hap as (Hbs & Hc & Hrest). rewrite Hc, Hv.
  cbn [negb]. destruct Hst as [H0|(d & c & Hst)].
  - rewrite H0. done.
  - apply (readFileFromBlocks_apart F _ _ _ _ d c); [done| | |done];
      apply Hout, (holds_stored _ _ _ _ _ Hst); auto.
Qed.

(** What is read at the path of the operation afterwards is the entry
    there. *)
Lemma changes_lookup st st' path F target :
  changes st st' (split (trim path)) F ->
  findEntryUnsafe (root st) path = Ok target -> foundIsDir target = false ->
  ∃ target', findEntryUnsafe (root st') path = Ok target'
             ∧ foundIsDir target' = false
             ∧ foundFile target'
               = entryAt (root st') (removelast (split (trim path)))
                   (List.last (split (trim path)) EmptyString).
Proof.
  intros (_ & Hdirs & _) Efind Edir. specialize (Hdirs path). rewrite Efind in Hdirs.
  destruct (findEntryUnsafe (root st') path) as [t'| |]; [|done..].
  destruct Hdirs as (Hd & Hl & Hf). exists t'. split; [done|]. split; [congruence|].
  rewrite (Hf Edir).
  destruct (findEntryUnsafe_not_dir _ _ _ Efind Edir) as (_ & -> & _). done.
Qed.

Lemma readBlock_length bs file id content :
  4 <= bs < 2 ^ 32 -> readBlock bs file id = Ok content ->
  Z.of_nat (length content) <= bs - 4.
Proof.
  intros Hbs. unfold readBlock. destruct (_ <? 0); [done|].
  destruct (_ && _); [done|]. destruct (bs <? 4); [done|].
  destruct (Z.ltb_spec (u32 (bs - 4)) (u32 (getUint32
              (read_at file (calculateBlockOffset bs id) bs
               ++ zeros (bs - Z.of_nat (length (read_at file
                                          (calculateBlockOffset bs id) bs)))))))
    as [|Hle]; [done|].
  intros [= <-]. rewrite length_take. rewrite (u32_small (bs - 4)) in Hle by lia.
  pose proof (u32_range (getUint32
              (read_at file (calculateBlockOffset bs id) bs
               ++ zeros (bs - Z.of_nat (length (read_at file
                                          (calculateBlockOffset bs id) bs)))))).
  lia.
Qed.

(** Reading a file of a sound volume. *)
Lemma sound_read st path target f fuel :
  sound st ->
  findEntryUnsafe (root st) path = Ok target -> foundIsDir target = false ->
  foundFile target = Some f -> (2 <= fuel)%nat ->
  ∃ content,
    ReadFile fuel st path = Ok content
    ∧ Z.of_nat (length content) <= blockSize st - 4
    ∧ (FirstIndexBlockId f = 0 -> content = [])
    ∧ ∀ d stuff, stored st (FirstIndexBlockId f) d stuff ->
        content = take (Z.to_nat (Z.min (Z.of_nat (length stuff)) (Size f))) stuff.
Proof.
  intros Hsound Efind Edir Efile Hfuel.
  pose proof Hsound as (Hwf & Hfiles & _).
  pose proof (wellFormed_addressable _ Hwf) as [Hbs _].
  assert (H4 : 4 <= blockSize st) by (destruct Hwf as (-> & _); done).
  assert (Hf : entryAt (root st) (foundLoc target)
                 (List.last (split (trim path)) EmptyString) = Some f)
    by (by rewrite <- (entryAt_found _ _ _ Efind Edir)).
  destruct (Hfiles _ _ _ Hf) as [Hv Hst].
  unfold ReadFile. rewrite Efind, Edir, Efile, Hv. cbn [negb].
  destruct Hst as [H0|(d & c & Hst)].
  { rewrite H0. exists []. split; [done|]. split; [simpl; lia|]. split; [done|].
    intros d stuff (_ & _ & _ & _ & _ & _ & (? & _) & _). lia. }
  pose proof Hst as (ib & Hib & Hids & _ & Hnext & Hread & (Hf1 & _) & _).
  assert (Hmore : ∀ d' stuff, stored st (FirstIndexBlockId f) d' stuff -> stuff = c).
  { intros d' stuff (ib' & Hib' & Hids' & _ & _ & Hread' & _).
    rewrite Hib in Hib'. injection Hib' as <-. rewrite Hids in Hids'.
    injection Hids' as <-. rewrite Hread in Hread'. by injection Hread'. }
  pose proof (readBlock_length (blockSize st) _ _ _ ltac:(lia) Hread) as Hlen.
  unfold readFileFromBlocks, NullBlockID.
  destruct (Z.eqb_spec (FirstIndexBlockId f) 0); [lia|].
  destruct (Z.eqb_spec (Size f) 0) as [Hs0|Hs0].
  { exists []. split; [done|]. split; [simpl; lia|]. split; [done|].
    intros d' stuff Hst'. rewrite (Hmore _ _ Hst'), Hs0.
    by replace (Z.to_nat (Z.of_nat (length c) `min` 0)) with 0%nat by lia. }
  cbn [orb]. destruct fuel as [|[|fuel]]; [lia..|].
  cbn [readChain]. unfold NullBlockID.
  destruct (Z.eqb_spec (FirstIndexBlockId f) 0); [lia|]. cbn [orb].
  destruct (Z.leb_spec (Size f) 0) as [Hneg|Hpos].
  { exists []. split; [done|]. split; [simpl; lia|]. split; [done|].
    intros d' stuff Hst'. rewrite (Hmore _ _ Hst').
    by replace (Z.to_nat (Z.of_nat (length c) `min` Size f)) with 0%nat by lia. }
  rewrite Hib, Hids. cbn [readDataBlocks].
  destruct (Z.leb_spec (Size f) 0); [lia|]. rewrite Hread, Hnext.
  cbn [Z.eqb orb app]. rewrite Z.sub_0_r. eexists. split; [reflexivity|].
  split; [rewrite length_take; lia|]. split; [lia|].
  intros d' stuff Hst'. by rewrite (Hmore _ _ Hst').
Qed.

(** A successful write is read back (the count of blocks not having been
    truncated). *)
Lemma sound_written fuel now st path payload st' fuel' :
  codecRoundTrip -> sound st -> (2 <= fuel)%nat ->
  Z.of_nat (length payload) <= (2 ^ 32 - 1) * blockSize st ->
  WriteFile fuel now st path payload = (Ok tt, st') -> (2 <= fuel')%nat ->
  ReadFile fuel' st' path = Ok payload.
Proof.
  intros Hcodec Hsound Hfuel Hlen Hw Hfuel'.
  destruct (WriteFile_changes fuel now st path payload Hcodec Hsound Hfuel)
    as (F & Hch & Hok).
  pose proof (sound_WriteFile fuel now st path payload Hcodec Hsound Hfuel) as Hsound'.
  rewrite Hw in Hch, Hok, Hsound'. cbn [fst snd] in *.
  destruct Hok as (target & f' & Efind & Edir & Hf' & Hsize & Hnew).
  destruct (changes_lookup _ _ _ _ _ Hch Efind Edir) as (t' & Efind' & Edir' & Efile').
  rewrite Hf' in Efile'.
  destruct (sound_read st' path t' f' fuel' Hsound' Efind' Edir' Efile' Hfuel')
    as (content & -> & _ & Hempty & Hfull).
  f_equal. destruct Hnew as [[H0 Hnil]|(d & Hst)].
  - by rewrite (Hempty H0), (Hnil Hlen).
  - rewrite (Hfull _ _ Hst), Hsize, Z.min_id, Nat2Z.id. by apply take_ge.
Qed.

(** A successful [CopyFile] read the source and wrote what it read to the
    destination. *)
Lemma copied fuel now st src dst st' :
  codecRoundTrip -> sound st -> (2 <= fuel)%nat ->
  CopyFile fuel now st src dst = (Ok tt, st') ->
  ∃ payload,
    ReadFile fuel st src = Ok payload
    ∧ WriteFile fuel now st dst payload = (Ok tt, st')
    ∧ (∀ fuel', (2 <= fuel')%nat -> ReadFile fuel' st' dst = Ok payload)
    ∧ ∀ q fuel', split (trim q) ≠ split (trim dst) ->
        ReadFile fuel' st' q = ReadFile fuel' st q.
Proof.
  intros Hcodec Hsound Hfuel Hcopy. unfold CopyFile in Hcopy.
  destruct (ReadFile fuel st src) as [payload| |] eqn:Hread; [|done..].
  exists payload. split; [done|]. split; [done|].
  assert (Hlen : Z.of_nat (length payload) <= blockSize st - 4).
  { unfold ReadFile in Hread.
    destruct (findEntryUnsafe (root st) src) as [target| |] eqn:Efind; [|done..].
    destruct (foundIsDir target) eqn:Edir; [done|].
    destruct (foundFile target) as [f|] eqn:Efile; [|done].
    destruct (sound_read st src target f fuel Hsound Efind Edir Efile Hfuel)
      as (content & Hread' & ? & _).
    unfold ReadFile in Hread'. rewrite Efind, Edir, Efile in Hread'.
    rewrite Hread in Hread'. by injection Hread' as ->. }
  pose proof (wellFormed_addressable _ (proj1 Hsound)) as [Hbs _].
  split.
  - intros fuel' Hfuel'.
    apply (sound_written fuel now st dst payload st' fuel'); try done. nia.
  - intros q fuel' Hq.
    destruct (WriteFile_changes fuel now st dst payload Hcodec Hsound Hfuel)
      as (F & Hch & _).
    rewrite Hcopy in Hch. by apply (changes_isolated st st' dst F).
Qed.

(** ** Files of a sound volume *)

(** X23.  Soundness is an invariant of the engine.  A fresh volume is
    sound, and [WriteFile], [DeleteFile], [CreateDirectory], [CopyFile] and
    [MoveFile] take a sound volume to a sound volume whatever they return
    (the loops over chains being given fuel for one index block and the end
    of the chain); and on a sound volume [WriteFile] and [DeleteFile] do not
    panic.  Sound means: the volume is well formed, the metadata checksum of
    every file entry verifies, every file has no chain or a chain of one
    index block that names one data block, both blocks inside the block
    file and marked used, and no block belongs to two files. *)
Theorem volumes_stay_sound :
  codecRoundTrip ->
  (∀ now, sound (createFileSystem now))
  ∧ ∀ st, sound st ->
      (∀ fuel now path payload, (2 <= fuel)%nat ->
         sound (snd (WriteFile fuel now st path payload))
         ∧ ∀ a, fst (WriteFile fuel now st path payload) ≠ Abort a)
      ∧ (∀ fuel path, (2 <= fuel)%nat ->
         sound (snd (DeleteFile fuel st path))
         ∧ ∀ a, fst (DeleteFile fuel st path) ≠ Abort a)
      ∧ (∀ now path, sound (snd (CreateDirectory now st path)))
      ∧ (∀ fuel now src dst, (2 <= fuel)%nat ->
         sound (snd (CopyFile fuel now st src dst))
         ∧ sound (snd (MoveFile fuel now st src dst))).
Proof.
  intros Hcodec. split; [apply sound_fresh|]. intros st Hsound.
  split; [|split; [|split]].
  - intros fuel now path payload Hfuel. split; [by apply sound_WriteFile|].
    destruct (WriteFile_changes fuel now st path payload Hcodec Hsound Hfuel)
      as (F & _ & Hr).
    intros a Ha. by rewrite Ha in Hr.
  - intros fuel path Hfuel. split; [by apply sound_DeleteFile|].
    destruct (DeleteFile_changes fuel st path Hsound Hfuel) as (F & _ & Hr).
    intros a Ha. by rewrite Ha in Hr.
  - intros now path. by apply sound_CreateDirectory.
  - intros fuel now src dst Hfuel.
    split; [by apply sound_CopyFile|by apply sound_MoveFile].
Qed.

(** X24.  Files do not disturb each other.  On a sound volume, after
    [WriteFile] or [DeleteFile] on a path, whatever it returns, [ReadFile]
    of every path with other components returns what it returned before:
    the same bytes, or the same error. *)
Theorem other_paths_read_the_same fuel now st path payload q :
  codecRoundTrip -> sound st -> (2 <= fuel)%nat ->
  split (trim q) ≠ split (trim path) ->
  (∀ fuel', ReadFile fuel' (snd (WriteFile fuel now st path payload)) q
            = ReadFile fuel' st q)
  ∧ (∀ fuel', ReadFile fuel' (snd (DeleteFile fuel st path)) q = ReadFile fuel' st q).
Proof.
  intros Hcodec Hsound Hfuel Hq. split; intros fuel'.
  - destruct (WriteFile_changes fuel now st path payload Hcodec Hsound Hfuel)
      as (F & Hch & _).
    by apply (changes_isolated st _ path F).
  - destruct (DeleteFile_changes fuel st path Hsound Hfuel) as (F & Hch & _).
    by apply (changes_isolated st _ path F).
Qed.

(** X25.  Every file of a sound volume is read: [ReadFile] of a path that
    resolves to a file returns bytes, at most [Size] of them and at most
    what one block holds, and none for a file without a chain. *)
Theorem files_of_a_sound_volume_are_read st path target f fuel :
  sound st ->
  findEntryUnsafe (root st) path = Ok target -> foundIsDir target = false ->
  foundFile target = Some f -> (2 <= fuel)%nat ->
  ∃ content,
    ReadFile fuel st path = Ok content
    ∧ Z.of_nat (length content) <= blockSize st - 4
    ∧ Z.of_nat (length content) <= Z.max 0 (Size f)
    ∧ (FirstIndexBlockId f = 0 -> content = []).
Proof.
  intros Hsound Efind Edir Efile Hfuel.
  destruct (sound_read st path target f fuel Hsound Efind Edir Efile Hfuel)
    as (content & Hread & Hlen & Hempty & Hfull).
  exists content. split; [done|]. split; [done|]. split; [|done].
  destruct Hsound as (_ & Hfiles & _).
  assert (Hf : entryAt (root st) (foundLoc target)
                 (List.last (split (trim path)) EmptyString) = Some f)
    by (by rewrite <- (entryAt_found _ _ _ Efind Edir)).
  destruct (Hfiles _ _ _ Hf) as [_ [H0|(d & c & Hst)]].
  - rewrite (Hempty H0). simpl. lia.
  - rewrite (Hfull _ _ Hst), length_take. lia.
Qed.

(** X26.  [CopyFile] copies.  On a sound volume, after a successful
    [CopyFile] the destination reads the bytes the source read, and every
    path with other components than the destination, the source among
    them, reads what it read before. *)
Theorem copy_file_copies fuel now st src dst st' :
  codecRoundTrip -> sound st -> (2 <= fuel)%nat ->
  CopyFile fuel now st src dst = (Ok tt, st') ->
  ∃ payload,
    ReadFile fuel st src = Ok payload
    ∧ (∀ fuel', (2 <= fuel')%nat -> ReadFile fuel' st' dst = Ok payload)
    ∧ ∀ q fuel', split (trim q) ≠ split (trim dst) ->
        ReadFile fuel' st' q = ReadFile fuel' st q.
Proof.
  intros Hcodec Hsound Hfuel Hcopy.
  destruct (copied fuel now st src dst st' Hcodec Hsound Hfuel Hcopy)
    as (payload & Hread & Hw & Hdst & Hothers).
  exists payload. done.
Qed.

(** X27.  [MoveFile] moves.  On a sound volume, after a successful
    [MoveFile] between two paths with different components, the
    destination reads the bytes the source read, the source is not found,
    and every path with other components than these two reads what it read
    before. *)
Theorem move_file_moves fuel now st src dst st' :
  codecRoundTrip -> sound st -> (2 <= fuel)%nat ->
  split (trim src) ≠ split (trim dst) ->
  MoveFile fuel now st src dst = (Ok tt, st') ->
  ∃ payload,
    ReadFile fuel st src = Ok payload
    ∧ (∀ fuel', (2 <= fuel')%nat -> ReadFile fuel' st' dst = Ok payload)
    ∧ (∀ fuel', ReadFile fuel' st' src = Err ErrFileNotFound)
    ∧ ∀ q fuel',
        split (trim q) ≠ split (trim src) -> split (trim q) ≠ split (trim dst) ->
        ReadFile fuel' st' q = ReadFile fuel' st q.
Proof.
  intros Hcodec Hsound Hfuel Hne Hmove. unfold MoveFile in Hmove.
  destruct (CopyFile fuel now st src dst) as [[[]| |] st1] eqn:Hcopy; [|done..].
  destruct (copied fuel now st src dst st1 Hcodec Hsound Hfuel Hcopy)
    as (payload & Hread & Hw & Hdst & Hothers).
  assert (Hsound1 : sound st1).
  { pose proof (sound_WriteFile fuel now st dst payload Hcodec Hsound Hfuel) as H.
    by rewrite Hw in H. }
  destruct (DeleteFile_changes fuel st1 src Hsound1 Hfuel) as (F & Hch & Hok).
  rewrite Hmove in Hch, Hok. cbn [fst snd] in Hch, Hok.
  destruct Hok as (Hgone & target & f & Efind & Edir & Efile).
  exists payload. split; [done|]. split; [|split].
  - intros fuel' Hfuel'.
    rewrite (changes_isolated st1 st' src F dst Hsound1 Hch); [by apply Hdst|done].
  - intros fuel'.
    destruct (changes_lookup _ _ _ _ _ Hch Efind Edir) as (t' & Efind' & Edir' & Efile').
    unfold ReadFile. by rewrite Efind', Edir', Efile', Hgone.
  - intros q fuel' Hq1 Hq2.
    rewrite (changes_isolated st1 st' src F q Hsound1 Hch) by done. by apply Hothers.
Qed.

(** ** The integrity check on the volumes the engine builds *)

Lemma dirAt_updateDir_meta g loc : ∀ r l x',
  (∀ d, Directories (g d) = Directories d) ->
  (∀ d, DirMetadata (g d) = DirMetadata d) ->
  dirAt l (updateDir g loc r) = Some x' ->
  ∃ x, dirAt l r = Some x ∧ DirMetadata x' = DirMetadata x.
Proof.
  induction loc as [|n loc IH]; intros r l x' Hg Hm.
  - cbn [updateDir]. destruct l as [|m l]; cbn [dirAt].
    + intros [= <-]. by exists r.
    + rewrite Hg. destruct (Directories r !! m) as [s|]; [|done]. by eauto.
  - cbn [updateDir]. destruct (Directories r !! n) as [sub|] eqn:En; [|by eauto].
    destruct l as [|m l]; cbn [dirAt].
    + intros [= <-]. by exists r.
    + simpl. destruct (decide (m = n)) as [->|Hne].
      * rewrite lookup_insert_eq, En. by apply IH.
      * rewrite lookup_insert_ne by done. by eauto.
Qed.

Lemma dirAt_createDirectories_meta st now parts : ∀ r l x',
  dirAt l (createDirectories st now parts r) = Some x' ->
  (∃ x, dirAt l r = Some x ∧ DirMetadata x' = DirMetadata x)
  ∨ verifyMetadataChecksum st (DirMetadata x') = true.
Proof.
  induction parts as [|part parts IH]; intros r l x'; simpl; [by eauto|].
  destruct (isEmptyString part); [apply IH|].
  destruct l as [|m l]; simpl.
  { intros [= <-]. left. by exists r. }
  destruct (decide (part = m)) as [->|Hne].
  - rewrite lookup_insert_eq. intros Hat.
    destruct (IH _ _ _ Hat) as [(x & Hx & Hmeta)|Hv]; [|by right].
    destruct (Directories r !! m) as [sub|] eqn:E; [left; by exists x|].
    right. rewrite Hmeta. destruct l as [|k l]; simpl in Hx.
    + injection Hx as <-. simpl. by apply verify_updated.
    + by rewrite lookup_empty in Hx.
  - rewrite lookup_insert_ne by done. by eauto.
Qed.

Lemma dirsVerify_same st st' :
  root st' = root st -> checksumEnabled st' = checksumEnabled st ->
  dirsVerify st -> dirsVerify st'.
Proof.
  intros Hr Hc H loc d. rewrite Hr. intros Hat.
  unfold verifyMetadataChecksum. rewrite Hc. by apply (H loc).
Qed.

Lemma dirsVerify_saveRoot st :
  (∀ n l d, dirAt (n :: l) (root st) = Some d ->
     verifyMetadataChecksum st (DirMetadata d) = true) ->
  dirsVerify (saveRoot st).
Proof.
  intros H loc d. unfold saveRoot. destruct (checksumEnabled st) eqn:Ec.
  - unfold root at 1. simpl. rewrite dirAt_setDirMetadata.
    destruct loc as [|n l].
    + intros [= <-]. simpl. by apply verify_updated.
    + intros Hat. unfold verifyMetadataChecksum. simpl. rewrite Ec.
      specialize (H _ _ _ Hat). unfold verifyMetadataChecksum in H. by rewrite Ec in H.
  - intros _. unfold verifyMetadataChecksum. by rewrite Ec.
Qed.

Lemma dirsVerify_saveBitmap st : dirsVerify st -> dirsVerify (saveBitmap st).
Proof.
  apply dirsVerify_same; unfold saveBitmap; by destruct (dirty (bitmap st)).
Qed.

(** The state after the entry of a file was stored or removed. *)
Lemma dirsVerify_entry st st1 g loc :
  header st1 = header st -> checksumEnabled st1 = checksumEnabled st ->
  (∀ d, Directories (g d) = Directories d) ->
  (∀ d, DirMetadata (g d) = DirMetadata d) ->
  dirsVerify st ->
  dirsVerify (saveBitmap (saveRoot (setRoot st1 (updateDir g loc (root st1))))).
Proof.
  intros Hh Hc Hg Hm H. apply dirsVerify_saveBitmap, dirsVerify_saveRoot.
  intros n l d. unfold root at 1. cbn [header setRoot Root]. intros Hat.
  destruct (dirAt_updateDir_meta g loc (root st1) (n :: l) d Hg Hm Hat) as (x & Hx & ->).
  unfold verifyMetadataChecksum. simpl. rewrite Hc.
  unfold root in Hx. rewrite Hh in Hx. by apply (H (n :: l)).
Qed.

Lemma dirsVerify_WriteFile fuel now st path payload :
  namesOk (root st) -> dirsVerify st ->
  dirsVerify (snd (WriteFile fuel now st path payload)).
Proof.
  intros Hok H.
  destruct (findEntryUnsafe (root st) path) as [target|e|a] eqn:Efind.
  2, 3: by (unfold WriteFile; rewrite Efind).
  destruct (foundIsDir target) eqn:Edir.
  { unfold WriteFile.
    by rewrite Efind, Edir, (findEntryUnsafe_dir_no_file _ _ _ Efind Edir). }
  pose proof (steady_writeFileToBlocks fuel st payload (existingChain target))
    as [(Hh & _ & Hc) _].
  destruct (writeFileToBlocks fuel st payload (existingChain target)) as [r st1] eqn:Ew.
  rewrite (WriteFile_run_any fuel now st path payload target r st1 Hok Efind Edir Ew).
  simpl in Hh, Hc.
  destruct r as [first|e|a]; cbn [snd].
  - by apply (dirsVerify_entry st).
  - apply (dirsVerify_same st); [unfold root; by rewrite Hh|done..].
  - apply (dirsVerify_same st); [unfold root; by rewrite Hh|done..].
Qed.

Lemma dirsVerify_DeleteFile fuel st path :
  dirsVerify st -> dirsVerify (snd (DeleteFile fuel st path)).
Proof.
  intros H. unfold DeleteFile.
  destruct (findEntryUnsafe (root st) path) as [target|e|a]; [|done..].
  destruct (foundIsDir target); [done|].
  destruct (foundFile target) as [f|]; [|done].
  pose proof (sameDevice_freeFileBlocks fuel st (FirstIndexBlockId f))
    as [(Hh & _ & Hc) _].
  destruct (freeFileBlocks fuel st (FirstIndexBlockId f)) as [[[]|e|a] st1];
    simpl in Hh, Hc; cbn [snd].
  - by apply (dirsVerify_entry st).
  - apply (dirsVerify_same st); [unfold root; by rewrite Hh|done..].
  - apply (dirsVerify_same st); [unfold root; by rewrite Hh|done..].
Qed.

Lemma dirsVerify_CreateDirectory now st path :
  dirsVerify st -> dirsVerify (snd (CreateDirectory now st path)).
Proof.
  intros H.
  assert (Hmade : dirsVerify (saveRoot (createDirectoryChain st now path))).
  { apply dirsVerify_saveRoot. intros n l d. unfold createDirectoryChain.
    destruct (isEmptyString path); [apply (H (n :: l))|].
    unfold root at 1. cbn [header setRoot Root]. intros Hat.
    destruct (dirAt_createDirectories_meta st now (split path) (root st) (n :: l) d Hat)
      as [(x & Hx & ->)|Hv];
      [by apply (H (n :: l))|done]. }
  unfold CreateDirectory.
  destruct (findEntryUnsafe (root st) path) as [target| |]; [|done..].
  by destruct (foundIsDir target).
Qed.

Lemma dirsVerify_fresh now : dirsVerify (createFileSystem now).
Proof.
  unfold createFileSystem. apply dirsVerify_saveBitmap, dirsVerify_saveRoot.
  intros n l d. unfold root. simpl. by rewrite lookup_empty.
Qed.

Lemma built_sound st : codecRoundTrip -> built st -> sound st ∧ dirsVerify st.
Proof.
  intros Hcodec. induction 1 as [now|fuel now st path payload Hfuel _ [IH1 IH2]
                                 |fuel st path Hfuel _ [IH1 IH2]|now st path _ [IH1 IH2]].
  - split; [apply sound_fresh|apply dirsVerify_fresh].
  - split; [by apply sound_WriteFile|]. apply dirsVerify_WriteFile; [apply IH1|done].
  - split; [by apply sound_DeleteFile|by apply dirsVerify_DeleteFile].
  - split; [by apply sound_CreateDirectory|by apply dirsVerify_CreateDirectory].
Qed.

(** The check of one file of a sound volume. *)
Lemma verifyFile_sound fuel st l n f :
  sound st -> entryAt (root st) l n = Some f -> (2 <= fuel)%nat ->
  verifyFile fuel st f = Ok tt.
Proof.
  intros (Hwf & Hfiles & _) Hf Hfuel.
  pose proof (wellFormed_addressable _ Hwf) as [_ Htot].
  destruct (Hfiles _ _ _ Hf) as [Hv Hst].
  unfold verifyFile, verifyFileIndexBlocks, NullBlockID. rewrite Hv. cbn [negb].
  destruct (Z.eqb_spec (FirstIndexBlockId f) 0) as [|Hne]; [done|].
  destruct Hst as [?|(d & c & ib & Hib & Hids & Hex & Hnext & _ & _ & (Hd & _) & _)];
    [done|].
  apply (verifyChain_complete st [(FirstIndexBlockId f, ib)]).
  - apply chain_step; [done|done|]. rewrite Hnext. apply chain_end.
  - constructor; [|done]. split; simpl.
    + rewrite Hids. constructor; [|done]. split; [lia|]. rewrite u32_small; lia.
    + by rewrite Hex.
  - intros x _. apply not_elem_of_empty.
  - simpl. lia.
Qed.

Lemma verifyDirectoryIntegrity_tree fuel st : ∀ d,
  (∀ loc x, dirAt loc d = Some x -> verifyMetadataChecksum st (DirMetadata x) = true) ->
  (∀ loc n f, entryAt d loc n = Some f -> verifyFile fuel st f = Ok tt) ->
  verifyDirectoryIntegrity fuel st d = Ok tt.
Proof.
  induction d as [d IH] using tree_ind. intros Hdirs Hfiles.
  apply verifyDirectoryIntegrity_Ok. split; [by apply (Hdirs [])|]. split.
  - intros n f Hf. by apply (Hfiles [] n).
  - intros n sub Hsub. apply (IH n sub Hsub).
    + intros loc x Hx. apply (Hdirs (n :: loc)). simpl. by rewrite Hsub.
    + intros loc k f Hf. apply (Hfiles (n :: loc) k). unfold entryAt in *. simpl.
      by rewrite Hsub.
Qed.

(** X28.  Every volume the engine builds passes its own integrity check:
    on a volume reached from a fresh one by [WriteFile], [DeleteFile] and
    [CreateDirectory], whatever these returned, [VerifyIntegrity] returns
    success. *)
Theorem built_volumes_pass_the_check st fuel :
  codecRoundTrip -> built st -> (2 <= fuel)%nat ->
  VerifyIntegrity fuel st = Ok tt.
Proof.
  intros Hcodec Hbuilt Hfuel.
  destruct (built_sound st Hcodec Hbuilt) as [Hsound Hdirs].
  unfold VerifyIntegrity. rewrite (Hdirs [] (root st) eq_refl). cbn [negb].
  apply verifyDirectoryIntegrity_tree; [exact Hdirs|].
  intros loc n f Hf. by apply (verifyFile_sound fuel st loc n).
Qed.

(** ** The header and the fields restored from it *)

Lemma agrees_config st st' : sameConfig st st' -> agrees st -> agrees st'.
Proof. intros (Hh & Hb & Hc) [? ?]. unfold agrees. by rewrite Hh, Hb, Hc. Qed.

Lemma agrees_setRoot st r : agrees st -> agrees (setRoot st r).
Proof. done. Qed.

Lemma agrees_saveRoot st : agrees st -> agrees (saveRoot st).
Proof. unfold saveRoot. by destruct (checksumEnabled st). Qed.

Lemma agrees_saveBitmap st : agrees st -> agrees (saveBitmap st).
Proof. unfold saveBitmap. by destruct (dirty (bitmap st)). Qed.

Lemma agrees_WriteFile fuel now st path payload :
  namesOk (root st) -> agrees st -> agrees (snd (WriteFile fuel now st path payload)).
Proof.
  intros Hok H.
  destruct (findEntryUnsafe (root st) path) as [target|e|a] eqn:Efind.
  2, 3: by (unfold WriteFile; rewrite Efind).
  destruct (foundIsDir target) eqn:Edir.
  { unfold WriteFile.
    by rewrite Efind, Edir, (findEntryUnsafe_dir_no_file _ _ _ Efind Edir). }
  pose proof (steady_writeFileToBlocks fuel st payload (existingChain target)) as [Hs _].
  destruct (writeFileToBlocks fuel st payload (existingChain target)) as [r st1] eqn:Ew.
  rewrite (WriteFile_run_any fuel now st path payload target r st1 Hok Efind Edir Ew).
  simpl in Hs. pose proof (agrees_config _ _ Hs H) as H1.
  destruct r as [first|e|a]; cbn [snd]; [|done..].
  by apply agrees_saveBitmap, agrees_saveRoot, agrees_setRoot.
Qed.

Lemma agrees_DeleteFile fuel st path :
  agrees st -> agrees (snd (DeleteFile fuel st path)).
Proof.
  intros H. unfold DeleteFile.
  destruct (findEntryUnsafe (root st) path) as [target|e|a]; [|done..].
  destruct (foundIsDir target); [done|].
  destruct (foundFile target) as [f|]; [|done].
  pose proof (sameDevice_freeFileBlocks fuel st (FirstIndexBlockId f)) as [Hs _].
  destruct (freeFileBlocks fuel st (FirstIndexBlockId f)) as [[[]|e|a] st1];
    simpl in Hs; pose proof (agrees_config _ _ Hs H) as H1; cbn [snd]; [|done..].
  by apply agrees_saveBitmap, agrees_saveRoot, agrees_setRoot.
Qed.

Lemma agrees_CreateDirectory now st path :
  agrees st -> agrees (snd (CreateDirectory now st path)).
Proof.
  intros H.
  assert (Hmade : agrees (saveRoot (createDirectoryChain st now path))).
  { apply agrees_saveRoot. unfold createDirectoryChain.
    by destruct (isEmptyString path). }
  unfold CreateDirectory.
  destruct (findEntryUnsafe (root st) path) as [target| |]; [|done..].
  by destruct (foundIsDir target).
Qed.

Lemma built_agrees st : built st -> wellFormed st ∧ agrees st.
Proof.
  induction 1 as [now|fuel now st path payload Hfuel _ [IH1 IH2]
                  |fuel st path Hfuel _ [IH1 IH2]|now st path _ [IH1 IH2]].
  - split; [apply wellFormed_fresh|done].
  - split; [by apply wellFormed_WriteFile|]. apply agrees_WriteFile; [apply IH1|done].
  - split; [by apply wellFormed_DeleteFile|by apply agrees_DeleteFile].
  - split; [by apply wellFormed_CreateDirectory|by apply agrees_CreateDirectory].
Qed.

(** A state that differs in the search position and the dirty flag of the
    bitmap only is as sound, and reads the same. *)
Lemma sound_bitmap_flags st pos flag :
  sound st ->
  sound (setBitmap st {| data := data (bitmap st); totalBlocks := totalBlocks (bitmap st);
                         searchPos := pos; dirty := flag |}).
Proof.
  intros Hsound. apply (sound_sub st); [done| | |done].
  - destruct Hsound as [(? & ? & ?) _]. split; [done|]. split; done.
  - split; [done|]. split; [done|]. split; [done|]. split; [done|]. split; [done|].
    intros id _ _. by apply isBlockFree_data.
Qed.

Lemma sound_Close st : sound st -> sound (Close st).
Proof.
  intros Hsound. apply (sound_sub st); [done| |apply apart_saved|].
  - apply wellFormed_saveBitmap, wellFormed_saveRoot, Hsound.
  - intros l n f. unfold Close, Sync. by rewrite entryAt_saved.
Qed.

Lemma agrees_Close st : agrees st -> agrees (Close st).
Proof. intros H. by apply agrees_saveBitmap, agrees_saveRoot. Qed.

(** ** Writing when there is room *)





End Engine.

(** * Properties of the host files and of the command line *)

Lemma getUint64_putUint64 n rest :
  0 <= n < 2 ^ 64 -> getUint64 (putUint64 n ++ rest) = n.
Proof.
  intros Hn. unfold putUint64. change (seqZ 0 8) with [0; 1; 2; 3; 4; 5; 6; 7].
  cbn [map app getUint64].
  change (256 ^ 0) with 1. change (256 ^ 1) with 256. change (256 ^ 2) with 65536.
  change (256 ^ 3) with 16777216. change (256 ^ 4) with 4294967296.
  change (256 ^ 5) with 1099511627776. change (256 ^ 6) with 281474976710656.
  change (256 ^ 7) with 72057594037927936.
  change (2 ^ 64) with 18446744073709551616 in Hn.
  Z.div_mod_to_equations. lia.
Qed.

Lemma length_putUint64 n : length (putUint64 n) = 8%nat.
Proof. done. Qed.

(** X12.  What [saveBitmap] writes, [loadBitmap] reads back: the same count
    of blocks and the same bitmap, so the same free map, with the search
    position back at 0 and the dirty flag down; and a file of fewer than
    eight bytes is refused. *)
Theorem bitmap_file_round_trip bm :
  0 <= totalBlocks bm < 2 ^ 64 ->
  loadBitmap (bitmapImage bm)
  = Some {| data := data bm; totalBlocks := totalBlocks bm; searchPos := 0;
            dirty := false |}
  ∧ (∀ bm', loadBitmap (bitmapImage bm) = Some bm' ->
            ∀ q, isBlockFree bm' q = isBlockFree bm q)
  ∧ ∀ file, (length file < 8)%nat -> loadBitmap file = None.
Proof.
  intros Htot.
  assert (Hload : loadBitmap (bitmapImage bm)
                  = Some {| data := data bm; totalBlocks := totalBlocks bm;
                            searchPos := 0; dirty := false |}).
  { unfold loadBitmap, bitmapImage. rewrite length_app, length_putUint64.
    destruct (Z.ltb_spec (Z.of_nat (8 + length (data bm))) 8); [lia|].
    rewrite drop_app_length' by done.
    rewrite take_app_length' by done.
    rewrite <- (app_nil_r (putUint64 _)), getUint64_putUint64 by done. done. }
  split; [done|]. split.
  - intros bm' Hbm' q. rewrite Hload in Hbm'. injection Hbm' as <-.
    by apply isBlockFree_data.
  - intros file Hlen. unfold loadBitmap.
    destruct (Z.ltb_spec (Z.of_nat (length file)) 8); [done|lia].
Qed.

(** ** The command line *)

Lemma append_assoc (a b c : string) : ((a +:+ b) +:+ c = a +:+ (b +:+ c))%string.
Proof. induction a as [|x a IH]; [done|]. by rewrite !append_cons, IH. Qed.

Lemma join_snoc ps name :
  ps ≠ [] -> join (ps ++ [name]) = (join ps +:+ "/" +:+ name)%string.
Proof.
  induction ps as [|p ps IH]; [done|]. intros _.
  destruct ps as [|p' ps]; [done|].
  change (join ((p :: p' :: ps) ++ [name]))
    with (p +:+ "/" +:+ join ((p' :: ps) ++ [name]))%string.
  rewrite IH by done.
  change (join (p :: p' :: ps)) with (p +:+ "/" +:+ join (p' :: ps))%string.
  by rewrite !append_assoc.
Qed.

Lemma trim_slash s : trim (String "/" s) = trim s.
Proof. done. Qed.

Lemma removelast_snoc {A} (l : list A) x : removelast (l ++ [x]) = l.
Proof. by rewrite removelast_app, app_nil_r. Qed.

(** X19.  [resolvePath] on a current path made of proper names: an absolute
    argument is returned as it is, "." is the current path, a name goes one
    level down and ".." comes back from it, and ".." at the root stays at
    the root. *)
Theorem resolve_down_and_up ps name :
  Forall noSlash ps -> Forall nonEmpty ps ->
  noSlash name -> nonEmpty name -> name ≠ "." -> name ≠ ".." ->
  let here := ("/" +:+ join ps)%string in
  let below := ("/" +:+ join (ps ++ [name]))%string in
  resolvePath here name = below
  ∧ resolvePath below ".." = here
  ∧ resolvePath here "." = here
  ∧ resolvePath "/" ".." = "/"
  ∧ ∀ p, hasSlashPrefix p = true -> resolvePath here p = p.
Proof.
  intros Hs Hn Hname Hne Hdot Hdots here below.
  assert (Hrel : hasSlashPrefix name = false).
  { destruct name as [|c name]; [done|]. simpl in *. by destruct Hname. }
  assert (Hroot : String.eqb here "/" = bool_decide (ps = [])).
  { unfold here. destruct ps as [|p ps]; [done|].
    assert (Hj : nonEmpty (join (p :: ps))) by (by apply join_nonEmpty).
    rewrite bool_decide_false by done. apply String.eqb_neq.
    change ("/" +:+ join (p :: ps))%string with (String "/" (join (p :: ps))).
    by intros [= H]. }
  split; [|split; [|split; [|split]]].
  - unfold resolvePath. rewrite Hrel.
    rewrite (proj2 (String.eqb_neq name ".")), (proj2 (String.eqb_neq name "..")) by done.
    rewrite Hroot. unfold below, here. destruct ps as [|p ps]; [done|].
    rewrite bool_decide_false by done. rewrite join_snoc by done.
    by rewrite !append_cons.
  - unfold resolvePath. cbn [hasSlashPrefix String.eqb Ascii.eqb].
    change (hasSlashPrefix "..") with false. cbv iota.
    change (String.eqb ".." ".") with false. change (String.eqb ".." "..") with true.
    cbv iota.
    assert (Hb : String.eqb below "/" = false).
    { assert (Hj : nonEmpty (join (ps ++ [name]))).
      { apply join_nonEmpty; [by destruct ps|].
        apply Forall_app. split; [done|by constructor]. }
      apply String.eqb_neq. unfold below.
      change ("/" +:+ join (ps ++ [name]))%string with (String "/" (join (ps ++ [name]))).
      by intros [= H]. }
    rewrite Hb. unfold below.
    change ("/" +:+ join (ps ++ [name]))%string with (String "/" (join (ps ++ [name]))).
    rewrite trim_slash.
    destruct (split_trim_join (ps ++ [name])) as [_ ->];
      [by destruct ps|apply Forall_app; split; [done|by constructor]..|].
    rewrite length_app, removelast_snoc. simpl length.
    destruct ps as [|p ps]; [done|].
    destruct (Nat.leb_spec (length (p :: ps) + 1) 1) as [H|H]; [simpl in H; lia|done].
  - unfold resolvePath. unfold here at 1.
    change (hasSlashPrefix ".") with false. done.
  - done.
  - intros p Hp. unfold resolvePath. by rewrite Hp.
Qed.

(** X20.  The current path of the command line stays valid: if it is
    absolute, [cmdCd] leaves it absolute; and [cmdCd] changes it only to a
    path that [Ls] lists. *)
Theorem cd_keeps_the_current_path st cur arg :
  hasSlashPrefix cur = true ->
  hasSlashPrefix (cmdCd st cur arg) = true
  ∧ (cmdCd st cur arg = cur
     ∨ ∃ entries, Ls st (cmdCd st cur arg) = Ok entries).
Proof.
  intros Habs.
  assert (Hres : hasSlashPrefix (resolvePath cur arg) = true).
  { unfold resolvePath. destruct (hasSlashPrefix arg) eqn:Ea; [done|].
    destruct (String.eqb arg "."); [done|].
    destruct (String.eqb arg "..").
    - destruct (String.eqb cur "/"); [done|]. by destruct (_ <=? _)%nat.
    - destruct (String.eqb cur "/"); [done|].
      destruct cur as [|c cur]; [done|]. by rewrite append_cons. }
  unfold cmdCd. destruct (Ls st (resolvePath cur arg)) as [entries| |] eqn:E.
  - split; [done|]. right. eauto.
  - split; [done|by left].
  - split; [done|by left].
Qed.

Lemma parse_word w : ∀ p,
  escaped p = false -> inQuotes p = false -> Forall plainRune w ->
  fold_left parseRune w p
  = {| parsed := parsed p; current := current p ++ w; inQuotes := false;
       escaped := false |}.
Proof.
  induction w as [|r w IH]; intros [ps c q e] He Hq Hall; simpl in *; subst.
  { by rewrite app_nil_r. }
  apply Forall_cons in Hall as [(H32 & H34 & H92) Hall].
  unfold parseRune at 2. simpl.
  rewrite (proj2 (Z.eqb_neq r 92)), (proj2 (Z.eqb_neq r 34)), (proj2 (Z.eqb_neq r 32))
    by done.
  simpl. rewrite IH by done. simpl. by rewrite <- app_assoc.
Qed.

Lemma parse_space p :
  escaped p = false -> inQuotes p = false -> current p ≠ [] ->
  parseRune p 32
  = {| parsed := parsed p ++ [current p]; current := []; inQuotes := false;
       escaped := false |}.
Proof.
  intros He Hq Hc. unfold parseRune. rewrite He, Hq. simpl.
  by destruct (current p).
Qed.

Lemma parse_words words : ∀ p,
  escaped p = false -> inQuotes p = false -> current p = [] ->
  Forall (fun w => w ≠ [] ∧ Forall plainRune w) words ->
  let p' := fold_left parseRune (joinArgs words) p in
  (if (0 <? length (current p'))%nat then parsed p' ++ [current p'] else parsed p')
  = parsed p ++ words.
Proof.
  induction words as [|w words IH]; intros p He Hq Hc Hall; cbv zeta.
  { simpl. rewrite Hc. simpl. by rewrite app_nil_r. }
  apply Forall_cons in Hall as [[Hw Hplain] Hall].
  destruct words as [|w' words].
  - change (joinArgs [w]) with w. rewrite parse_word by done. simpl. rewrite Hc. simpl.
    by destruct w.
  - change (joinArgs (w :: w' :: words)) with (w ++ 32 :: joinArgs (w' :: words)).
    rewrite fold_left_app, (parse_word w p) by done. cbn [fold_left].
    rewrite parse_space by (simpl; by rewrite ?Hc).
    cbn [parsed current]. rewrite Hc. cbn [app].
    specialize (IH {| parsed := parsed p ++ [w]; current := [];
                      inQuotes := false; escaped := false |}
                  eq_refl eq_refl eq_refl Hall).
    cbv zeta in IH. rewrite IH. cbn [parsed]. by rewrite <- app_assoc.
Qed.

Lemma parseRune_keeps p r :
  Forall (fun a => a ≠ []) (parsed p) -> Forall (fun a => a ≠ []) (parsed (parseRune p r)).
Proof.
  intros Hall. unfold parseRune.
  destruct (escaped p); [done|]. destruct (r =? 92); [done|].
  destruct (r =? 34); [done|]. destruct (_ && _); [|done].
  destruct (current p) as [|c cs] eqn:E; simpl; [done|].
  apply Forall_app. split; [done|]. by constructor.
Qed.

(** X21.  [parseCommand] returns no empty argument, whatever the line; and
    it splits what [strings.Join(words, " ")] joined: words that are not
    empty and hold no space, quote or backslash come back as they were. *)
Theorem parse_command_splits_words line :
  Forall (fun a => a ≠ []) (parseCommand line)
  ∧ ∀ words, Forall (fun w => w ≠ [] ∧ Forall plainRune w) words ->
             parseCommand (joinArgs words) = words.
Proof.
  split.
  - unfold parseCommand.
    assert (Hfold : ∀ l p, Forall (fun a => a ≠ []) (parsed p) ->
              Forall (fun a => a ≠ []) (parsed (fold_left parseRune l p))).
    { induction l as [|r l IH]; intros p Hp; simpl; [done|].
      by apply IH, parseRune_keeps. }
    set (p := fold_left _ _ _).
    assert (Hp : Forall (fun a => a ≠ []) (parsed p)) by (by apply Hfold).
    destruct (current p) as [|c cs] eqn:E; simpl; [done|].
    apply Forall_app. split; [done|]. by constructor.
  - intros words Hall. unfold parseCommand.
    exact (parse_words words
             {| parsed := []; current := []; inQuotes := false; escaped := false |}
             eq_refl eq_refl eq_refl Hall).
Qed.

(** ** Opening a volume again *)

(** X29.  A volume is found again when it is opened.  [Close] a volume
    the engine built; given the header as [saveRoot] marshals it, which
    unmarshals to that header, and the bitmap as [saveBitmap] writes it,
    next to the block file, [loadFileSystem] succeeds, and the volume it
    returns has the namespace
    of the closed volume, the same block size, checksum setting and free
    map, answers every [ReadFile] as the volume did before it was closed,
    and is sound; its search position is 0. *)
Theorem reopened_volume_is_the_same metadataChecksum indexChecksum marshalIndexBlock
    unmarshalIndexBlock (marshalH : FileSystemHeader -> list Z)
    (unmarshalH : list Z -> option FileSystemHeader) st :
  codecRoundTrip marshalIndexBlock unmarshalIndexBlock ->
  built metadataChecksum indexChecksum marshalIndexBlock unmarshalIndexBlock st ->
  let closed := Close metadataChecksum st in
  unmarshalH (rootImage marshalH closed) = Some (header closed) ->
  ∃ st',
    loadFileSystem unmarshalH (rootImage marshalH closed) (bitmapImage (bitmap closed))
      (blocksFile closed) = Some st'
    ∧ root st' = root closed ∧ blockSize st' = blockSize st
    ∧ checksumEnabled st' = checksumEnabled st
    ∧ totalBlocks (bitmap st') = totalBlocks (bitmap st)
    ∧ searchPos (bitmap st') = 0
    ∧ (∀ q, isBlockFree (bitmap st') q = isBlockFree (bitmap st) q)
    ∧ (∀ fuel path,
         ReadFile metadataChecksum indexChecksum unmarshalIndexBlock fuel st' path
         = ReadFile metadataChecksum indexChecksum unmarshalIndexBlock fuel st path)
    ∧ sound metadataChecksum indexChecksum unmarshalIndexBlock st'.
Proof.
  intros Hcodec Hbuilt closed Hheader. subst closed.
  destruct (built_agrees _ _ _ _ _ Hbuilt) as [Hwf0 Hagrees0].
  destruct (built_sound _ _ _ _ _ Hcodec Hbuilt) as [Hsound0 _].
  pose proof (sound_Close metadataChecksum indexChecksum unmarshalIndexBlock st Hsound0)
    as Hsound.
  pose proof (agrees_Close metadataChecksum st Hagrees0) as [Hbs Hc].
  destruct (saved_device metadataChecksum st) as (Hb1 & Hf1 & Hc1).
  fold (Sync metadataChecksum st) in Hb1, Hf1, Hc1.
  fold (Close metadataChecksum st) in Hb1, Hf1, Hc1.
  set (closed := Close metadataChecksum st) in *.
  assert (Htot1 : totalBlocks (bitmap closed) = totalBlocks (bitmap st)).
  { unfold closed, Close, Sync, saveBitmap, saveRoot.
    destruct (checksumEnabled st); simpl; by destruct (dirty (bitmap st)). }
  assert (Hfree1 : ∀ q, isBlockFree (bitmap closed) q = isBlockFree (bitmap st) q)
    by (intros q; apply bitmap_saved).
  assert (Hread1 : ∀ fuel path,
            ReadFile metadataChecksum indexChecksum unmarshalIndexBlock fuel closed path
            = ReadFile metadataChecksum indexChecksum unmarshalIndexBlock fuel st path)
    by (intros fuel path; apply ReadFile_Sync).
  pose proof (wellFormed_addressable _ Hwf0) as [_ Htot].
  unfold loadFileSystem. rewrite Hheader.
  unfold loadBitmap, bitmapImage. rewrite length_app, length_putUint64.
  destruct (Z.ltb_spec (Z.of_nat (8 + length (data (bitmap closed)))) 8); [lia|].
  rewrite drop_app_length' by done. rewrite take_app_length' by done.
  rewrite <- (app_nil_r (putUint64 _)), getUint64_putUint64 by lia.
  eexists. split; [reflexivity|]. cbn [blockSize checksumEnabled bitmap header].
  split; [done|]. split; [congruence|]. split; [congruence|]. split; [done|].
  split; [done|]. split.
  { intros q. rewrite <- Hfree1. by apply isBlockFree_data. }
  split.
  - intros fuel path. rewrite <- Hread1. apply ReadFile_ext; simpl; done.
  - rewrite <- Hbs, <- Hc.
    exact (sound_bitmap_flags _ _ _ closed 0 false Hsound).
Qed.

(** * A concrete instance

    The parameters of the engine, instantiated to run it: two checksum
    functions and a codec for index blocks that writes every field as four
    little-endian bytes, the two lists behind their lengths. *)

Definition plainMetadataSum (name : string) (modTime createTime permissions : Z) : Z :=
  Z.of_nat (String.length name) + modTime + createTime + permissions + 1.

Definition plainIndexSum (blockIds : list Z) (extents : list Extent) (next : Z) : Z :=
  foldr Z.add 0 blockIds + Z.of_nat (length extents) + next + 1.

Fixpoint getWords (n : nat) (b : list Z) : option (list Z * list Z) :=
  match n with
  | O => Some ([], b)
  | S n' =>
      match b with
      | b0 :: b1 :: b2 :: b3 :: rest =>
          match getWords n' rest with
          | Some (ws, rest') => Some (getUint32 [b0; b1; b2; b3] :: ws, rest')
          | None => None
          end
      | _ => None
      end
  end.

Definition extentWords (e : Extent) : list Z := [StartBlockId e; BlockCount e].

Fixpoint pairUp (ws : list Z) : list Extent :=
  match ws with
  | s :: c :: rest => {| StartBlockId := s; BlockCount := c |} :: pairUp rest
  | _ => []
  end.

Definition putWords (ws : list Z) : list Z := concat (map putUint32 ws).

Definition plainMarshal (ib : IndexBlock) : list Z :=
  putWords [Z.of_nat (length (BlockIds ib))]
  ++ putWords (BlockIds ib)
  ++ putWords [Z.of_nat (length (Extents ib))]
  ++ putWords (concat (map extentWords (Extents ib)))
  ++ putWords [NextIndexBlockId ib; DataSize ib; IndexCrc32 ib].

Definition plainUnmarshal (b : list Z) : option IndexBlock :=
  match getWords 1 b with
  | Some ([n], b1) =>
      match getWords (Z.to_nat n) b1 with
      | Some (ids, b2) =>
          match getWords 1 b2 with
          | Some ([m], b3) =>
              match getWords (2 * Z.to_nat m) b3 with
              | Some (es, b4) =>
                  match getWords 3 b4 with
                  | Some ([next; size; crc], []) =>
                      Some {| BlockIds := ids; Extents := pairUp es;
                              NextIndexBlockId := next; DataSize := size;
                              IndexCrc32 := crc |}
                  | _ => None
                  end
              | None => None
              end
          | _ => None
          end
      | None => None
      end
  | _ => None
  end.

(** The engine at this instance. *)
Definition freshVolume (now : Z) : YFS := createFileSystem plainMetadataSum now.

Definition writeFile :=
  WriteFile plainMetadataSum plainIndexSum plainMarshal plainUnmarshal.

Definition readFile := ReadFile plainMetadataSum plainIndexSum plainUnmarshal.

(** The bytes of "hello", and a fresh volume after
    [WriteFile("/a.txt", "hello")]. *)
Definition hello : list Z := [104; 101; 108; 108; 111].

Definition helloVolume : YFS := snd (writeFile 4 101 (freshVolume 100) "/a.txt" hello).

(** A bitmap of 8192 blocks with every block in use. *)
Definition fullBitmap : BlockBitmap :=
  {| data := replicate 1024 255; totalBlocks := 8192; searchPos := 0; dirty := false |}.

(** A bitmap of 16 blocks whose free blocks (2, 5 and 14, from 1) are pairwise
    apart. *)
Definition scatteredBitmap : BlockBitmap :=
  {| data := [237; 223]; totalBlocks := 16; searchPos := 0; dirty := false |}.

(** The entry of "/a.txt" on [helloVolume], its index block, and the way the
    path resolves. *)
Definition helloEntry : FileEntry :=
  {| Metadata := {| Name := "a.txt"; ModTime := 101; CreateTime := 101; Permissions := 0;
                   Crc32 := 208 |};
     FirstIndexBlockId := 2; Size := 5; IndexBlockCount := 0; DataBlockCount := 0 |}.

Definition helloIndex : IndexBlock :=
  {| BlockIds := [1]; Extents := []; NextIndexBlockId := 0; DataSize := 4096;
     IndexCrc32 := 2 |}.

Definition helloTarget : found :=
  {| foundLoc := []; foundDir := root helloVolume; foundFile := Some helloEntry;
     foundIsDir := false |}.

(** A payload of 2^44 bytes: 2^32 blocks of 4096 bytes. *)
Definition hugePayload : list Z := replicate (Z.to_nat (2 ^ 44)) 0.



(** [helloVolume] with every block of the bitmap in use. *)
Definition crowdedVolume : YFS := setBitmap helloVolume fullBitmap.

(** A header codec for one volume: the image holds the version and the
    block size, and the decoder returns the header of [helloVolume] as
    [Close] leaves it. *)
Definition helloHeaderImage (h : FileSystemHeader) : list Z :=
  putUint32 (Version h) ++ putUint32 (HeaderBlockSize h).

Definition helloHeaderLoad (b : list Z) : option FileSystemHeader :=
  Some (header (Close plainMetadataSum helloVolume)).


(** ** The codec returns what it was given *)

Lemma getWords_putWords ws : ∀ rest,
  Forall isU32 ws -> getWords (length ws) (putWords ws ++ rest) = Some (ws, rest).
Proof.
  induction ws as [|w ws IH]; intros rest Hall; [done|].
  apply Forall_cons in Hall as [Hw Hws].
  unfold putWords in *. cbn [map concat length getWords].
  unfold putUint32 at 1. cbn [app].
  rewrite IH by done. do 3 f_equal.
  apply (getUint32_putUint32 w []). done.
Qed.

Lemma pairUp_extentWords es : pairUp (concat (map extentWords es)) = es.
Proof.
  induction es as [|[s c] es IH]; [done|]. simpl. by rewrite IH.
Qed.

Lemma length_extentWords es :
  length (concat (map extentWords es)) = (2 * length es)%nat.
Proof. induction es as [|e es IH]; [done|]. simpl. lia. Qed.

Ltac words_typed :=
  repeat (apply Forall_cons; split; [first [done | unfold isU32; lia]|]);
  apply Forall_nil_2.

Lemma plainCodec_roundTrip : codecRoundTrip plainMarshal plainUnmarshal.
Proof.
  intros [ids es next size crc] (Hids & Hes & Hnext & Hsize & Hcrc & Hn & Hm).
  simpl in *. unfold plainUnmarshal, plainMarshal. simpl BlockIds. simpl Extents.
  cbn [NextIndexBlockId DataSize IndexCrc32].
  assert (Hflat : Forall isU32 (concat (map extentWords es))).
  { clear Hm. induction Hes as [|e es [Hs Hc] _ IH]; [constructor|].
    simpl. constructor; [done|]. by constructor. }
  rewrite (getWords_putWords [_] _) by words_typed.
  rewrite Nat2Z.id, getWords_putWords by done.
  rewrite (getWords_putWords [_] _) by words_typed.
  rewrite Nat2Z.id, <- length_extentWords, getWords_putWords by done.
  rewrite <- (app_nil_r (putWords [next; size; crc])).
  rewrite (getWords_putWords [_; _; _] []) by words_typed.
  by rewrite pairUp_extentWords.
Qed.

(** * The claims at this instance *)

Lemma namesOk_no_directories d : Directories d = ∅ -> namesOk d.
Proof.
  intros H. constructor; rewrite H; [apply lookup_empty|].
  intros name sub Hsub. by rewrite lookup_empty in Hsub.
Qed.

Lemma namesOk_fresh now : namesOk (root (freshVolume now)).
Proof. by apply namesOk_no_directories. Qed.

Lemma namesOk_hello : namesOk (root helloVolume).
Proof. apply namesOk_no_directories. by vm_compute. Qed.

Lemma addressable_fresh now : addressable (freshVolume now).
Proof. unfold addressable. change (blockSize (freshVolume now)) with 4096.
  change (totalBlocks (bitmap (freshVolume now))) with 8192. lia.
Qed.

Lemma addressable_hello : addressable helloVolume.
Proof. unfold addressable. change (blockSize helloVolume) with 4096.
  replace (totalBlocks (bitmap helloVolume)) with 8192 by (by vm_compute). lia.
Qed.

Lemma hello_resolves : findEntryUnsafe (root helloVolume) "/a.txt" = Ok helloTarget.
Proof. by vm_compute. Qed.

Lemma hello_chain :
  chain plainIndexSum plainUnmarshal helloVolume 2 [(2, helloIndex)].
Proof.
  eapply chain_step; [lia| |apply chain_end; reflexivity].
  by vm_compute.
Qed.

Lemma length_hugePayload : Z.of_nat (length hugePayload) = 2 ^ 44.
Proof.
  unfold hugePayload. rewrite length_replicate. apply Z2Nat.id. apply Z.pow_nonneg. lia.
Qed.

(** C1: the code departs from the claim.  On a fresh volume with 4096-byte
    blocks, [WriteFile("/big", b)] with [b] of 2^44 bytes returns success,
    and [ReadFile("/big")] then returns the empty byte sequence, not [b]:
    [writeFileToBlocks] converts the count of blocks, 2^32, to [uint32], and
    allocates and writes 0 blocks. *)
Theorem huge_payload_is_lost :
  ∃ st', writeFile 1 0 (freshVolume 0) "/big" hugePayload = (Ok tt, st')
         ∧ (∀ fuel, readFile fuel st' "/big" = Ok [])
         ∧ hugePayload ≠ [].
Proof.
  pose proof length_hugePayload as Hlen.
  destruct (truncated_write_reads_empty plainMetadataSum plainIndexSum
              plainMarshal plainUnmarshal 1 0 (freshVolume 0) "/big" hugePayload
              {| foundLoc := []; foundDir := root (freshVolume 0);
                 foundFile := None; foundIsDir := false |})
    as (st' & Hw & Hr).
  - apply namesOk_fresh.
  - exact (eq_refl (Ok {| foundLoc := []; foundDir := root (freshVolume 0);
                          foundFile := None; foundIsDir := false |})).
  - reflexivity.
  - reflexivity.
  - rewrite Hlen. lia.
  - change (blockSize (freshVolume 0)) with 4096. lia.
  - unfold blocksNeeded. rewrite Hlen. reflexivity.
  - exists st'. split; [exact Hw|]. split; [exact Hr|].
    intros Hnil. rewrite Hnil in Hlen. simpl in Hlen. lia.
Qed.

(** X4, witness: "hello" written to "/a.txt" on a fresh volume is read back. *)
Lemma write_then_read_witness : readFile 2 helloVolume "/a.txt" = Ok hello.
Proof.
  apply (write_then_read plainMetadataSum plainIndexSum plainMarshal plainUnmarshal
           4 2 101 (freshVolume 100) "/a.txt" hello helloVolume).
  - exact plainCodec_roundTrip.
  - apply addressable_fresh.
  - apply namesOk_fresh.
  - vm_compute. discriminate.
  - vm_compute. reflexivity.
  - lia.
Defined.

(** C2: the code departs from the claim.  On a fresh volume with 4096-byte
    blocks, a payload of 4092 bytes (block size - 4) is written and occupies
    one data block, block 1, under the index block 2; a payload of 4093 bytes
    (block size - 3) is refused with "data exceeds block size limit":
    [writeFileToBlocks] cuts the payload every [blockSize] bytes, and
    [writeBlock] takes at most [blockSize - 4]. *)
Theorem payload_of_block_size_minus_3_is_refused :
  (∃ st' ib,
     writeFile 4 1 (freshVolume 0) "/f" (replicate 4092 7) = (Ok tt, st')
     ∧ (∃ target file, findEntryUnsafe (root st') "/f" = Ok target
                       ∧ foundFile target = Some file ∧ FirstIndexBlockId file = 2)
     ∧ chain plainIndexSum plainUnmarshal st' 2 [(2, ib)]
     ∧ chainDataBlocks [(2, ib)] = [1])
  ∧ fst (writeFile 4 1 (freshVolume 0) "/f" (replicate 4093 7)) = Err ErrDataExceedsBlock.
Proof.
  split; [|by vm_compute].
  exists (snd (writeFile 4 1 (freshVolume 0) "/f" (replicate 4092 7))).
  exists {| BlockIds := [1]; Extents := []; NextIndexBlockId := 0; DataSize := 4096;
            IndexCrc32 := 2 |}.
  split; [by vm_compute|]. split.
  - eexists _, _. split; [by vm_compute|]. split; reflexivity.
  - split; [|reflexivity].
    eapply chain_step; [lia| |apply chain_end]. by vm_compute.
Qed.

(** C3: the code departs from the claim.  With every block of the bitmap in
    use, a request for one block fails with "no free blocks available" and
    leaves the bitmap as it was, 8192 blocks in 1024 bytes: nothing is
    appended, nothing retried. *)
Theorem allocate_one_on_full_bitmap_fails :
  allocateBlocks fullBitmap 1 = (Err ErrNoFreeBlocks, fullBitmap)
  ∧ totalBlocks fullBitmap = 8192
  ∧ ∀ p, 0 <= p < 8192 -> isBlockFree fullBitmap p = false.
Proof.
  split; [by vm_compute|]. split; [done|].
  intros p Hp. unfold isBlockFree, fullBitmap. cbn [data].
  assert (Z.to_nat (p / 8) < 1024)%nat as Hlt.
  { apply Nat2Z.inj_lt. rewrite Z2Nat.id by (apply Z.div_pos; lia).
    apply Z.div_lt_upper_bound; lia. }
  rewrite (lookup_replicate_2 _ _ _ Hlt).
  assert (0 <= p mod 8 < 8) as Hbit by (apply Z.mod_pos_bound; lia).
  assert (p mod 8 = 0 ∨ p mod 8 = 1 ∨ p mod 8 = 2 ∨ p mod 8 = 3 ∨ p mod 8 = 4
          ∨ p mod 8 = 5 ∨ p mod 8 = 6 ∨ p mod 8 = 7) as Hcases by lia.
  destruct Hcases as [->|[->|[->|[->|[->|[->|[->| ->]]]]]]]; reflexivity.
Qed.





(** C6: the code departs from the claim.  After the successful
    [WriteFile("/a.txt", "hello")] on a fresh volume the entry of "/a.txt"
    has [DataBlockCount] 0, and the walk of its chain from
    [FirstIndexBlockId] meets one data block, block 1: [WriteFile] sets
    [FirstIndexBlockId] and [Size] and never the two counts. *)
Theorem data_block_count_is_not_maintained :
  writeFile 4 101 (freshVolume 100) "/a.txt" hello = (Ok tt, helloVolume)
  ∧ findEntryUnsafe (root helloVolume) "/a.txt" = Ok helloTarget
  ∧ foundFile helloTarget = Some helloEntry
  ∧ DataBlockCount helloEntry = 0
  ∧ chain plainIndexSum plainUnmarshal helloVolume (FirstIndexBlockId helloEntry)
      [(2, helloIndex)]
  ∧ chainDataBlocks [(2, helloIndex)] = [1].
Proof.
  split; [by vm_compute|]. split; [apply hello_resolves|].
  split; [done|]. split; [done|]. split; [apply hello_chain|done].
Qed.

(** C7, witness: three blocks from the bitmap of a fresh volume. *)
Lemma allocate_ids_distinct_in_range_witness :
  Z.of_nat (length [1; 2; 3]) = 3 ∧ NoDup [1; 2; 3]
  ∧ ∀ id, id ∈ [1; 2; 3] ->
          1 <= id <= totalBlocks (snd (allocateBlocks (bitmap (freshVolume 0)) 3)).
Proof.
  apply (allocate_ids_distinct_in_range (bitmap (freshVolume 0)) 3 [1; 2; 3]
           (snd (allocateBlocks (bitmap (freshVolume 0)) 3))).
  - change (totalBlocks (bitmap (freshVolume 0))) with 8192. lia.
  - lia.
  - vm_compute. reflexivity.
Defined.

(** The scattered path: no two free blocks of [scatteredBitmap] are
    neighbours, and a request for three returns the three. *)
Example allocate_scattered :
  fst (allocateBlocks scatteredBitmap 3) = Ok [2; 5; 14].
Proof. by vm_compute. Qed.

(** C8, witness: the root of [helloVolume] holds "a.txt". *)
Lemma delete_directory_refusals_witness :
  DeleteDirectory helloVolume "/" = (Err ErrDirectoryNotEmpty, helloVolume).
Proof.
  apply (proj1 (delete_directory_refusals helloVolume "/")
           {| foundLoc := []; foundDir := root helloVolume; foundFile := None;
              foundIsDir := true |}).
  - vm_compute. reflexivity.
  - reflexivity.
  - left. exists "a.txt", helloEntry. vm_compute. reflexivity.
Defined.

(** The root of a fresh volume is empty, and is refused all the same. *)
Example delete_empty_root :
  DeleteDirectory (freshVolume 0) "/" = (Err ErrDeleteRoot, freshVolume 0).
Proof. by vm_compute. Qed.

(** C9, as stated, fails.  On [crowdedVolume], which has no free block,
    [MoveFile("/a.txt", "/a.txt")] returns "no free blocks available" from
    its copy half, the volume is left as it was and "/a.txt" is still
    read. *)
Lemma move_on_full_volume_fails :
  MoveFile plainMetadataSum plainIndexSum plainMarshal plainUnmarshal 4 102
    crowdedVolume "/a.txt" "/a.txt" = (Err ErrNoFreeBlocks, crowdedVolume)
  ∧ readFile 2 crowdedVolume "/a.txt" = Ok hello.
Proof. split; by vm_compute. Qed.

(** C9, witness: "/a.txt" of [helloVolume] moved onto itself. *)
Lemma move_onto_itself_witness :
  ∃ st2,
    MoveFile plainMetadataSum plainIndexSum plainMarshal plainUnmarshal 4 102
      helloVolume "/a.txt" "/a.txt" = (Ok tt, st2)
    ∧ (∃ target, findEntryUnsafe (root st2) "/a.txt" = Ok target
                 ∧ foundIsDir target = false ∧ foundFile target = None)
    ∧ ∀ fuel', readFile fuel' st2 "/a.txt" = Err ErrFileNotFound.
Proof.
  apply (move_onto_itself plainMetadataSum plainIndexSum plainMarshal plainUnmarshal
           4 102 helloVolume "/a.txt"
           (snd (CopyFile plainMetadataSum plainIndexSum plainMarshal plainUnmarshal
                   4 102 helloVolume "/a.txt" "/a.txt"))).
  - exact plainCodec_roundTrip.
  - apply addressable_hello.
  - apply namesOk_hello.
  - lia.
  - vm_compute. reflexivity.
Defined.


(** X1, witness: "/d/x" on a fresh volume, which has no directory "d". *)
Lemma write_under_missing_parent_witness :
  writeFile 4 1 (freshVolume 0) "/d/x" hello = (Err ErrDirectoryNotFound, freshVolume 0).
Proof.
  apply (write_under_missing_parent plainMetadataSum plainIndexSum plainMarshal
           plainUnmarshal 4 1 (freshVolume 0) "d" "x" hello).
  - by vm_compute.
  - discriminate.
  - by vm_compute.
  - discriminate.
  - reflexivity.
Defined.

(** X2, witness: the write that made [helloVolume]. *)
Lemma write_keeps_block_counts_witness :
  ∃ target target' file,
    findEntryUnsafe (root (freshVolume 100)) "/a.txt" = Ok target
    ∧ findEntryUnsafe (root helloVolume) "/a.txt" = Ok target'
    ∧ foundIsDir target' = false ∧ foundFile target' = Some file
    ∧ DataBlockCount file = from_option DataBlockCount 0 (foundFile target)
    ∧ IndexBlockCount file = from_option IndexBlockCount 0 (foundFile target).
Proof.
  apply (write_keeps_block_counts plainMetadataSum plainIndexSum plainMarshal
           plainUnmarshal 4 101 (freshVolume 100) "/a.txt" hello helloVolume).
  - exact plainCodec_roundTrip.
  - apply addressable_fresh.
  - apply namesOk_fresh.
  - vm_compute. reflexivity.
Defined.

(** X5, witness: [helloVolume] is one write away from a fresh volume. *)
Lemma reachable_wellFormed_witness :
  wellFormed helloVolume ∧ addressable helloVolume.
Proof.
  apply (reachable_wellFormed plainMetadataSum plainIndexSum plainMarshal
           plainUnmarshal helloVolume).
  apply (reachable_WriteFile plainMetadataSum plainIndexSum plainMarshal
           plainUnmarshal 4 101 (freshVolume 100) "/a.txt" hello).
  apply reachable_fresh.
Defined.

(** * The further properties at this instance *)


(** X8, witness: "/a.txt" deleted from [helloVolume]. *)
Lemma delete_file_removes_and_frees_witness :
  readFile 2
    (snd (DeleteFile plainMetadataSum plainIndexSum plainUnmarshal 4 helloVolume
            "/a.txt"))
    "/a.txt" = Err ErrFileNotFound.
Proof.
  destruct (delete_file_removes_and_frees plainMetadataSum plainIndexSum
              plainUnmarshal 4 helloVolume "/a.txt"
              (snd (DeleteFile plainMetadataSum plainIndexSum plainUnmarshal 4
                      helloVolume "/a.txt")))
    as (target & file & c & _ & _ & _ & _ & Hread & _).
  - apply namesOk_hello.
  - vm_compute. reflexivity.
  - exact (Hread 2%nat).
Defined.

(** X9, witness: "/a.txt" and "a.txt/" are one path. *)
Lemma paths_up_to_outer_slashes_witness :
  readFile 2 helloVolume "/a.txt" = readFile 2 helloVolume "a.txt/".
Proof.
  destruct (paths_up_to_outer_slashes plainMetadataSum plainIndexSum plainMarshal
              plainUnmarshal "/a.txt" "a.txt/") as (Hread & _).
  - reflexivity.
  - exact (Hread 2%nat helloVolume).
Defined.

(** X10, witness: the root of [helloVolume] lists one entry. *)
Lemma ls_lists_the_directory_witness :
  ∃ entries, Ls helloVolume "/" = Ok entries ∧ length entries = 1%nat.
Proof.
  destruct (ls_lists_the_directory helloVolume "/"
              {| foundLoc := []; foundDir := root helloVolume; foundFile := None;
                 foundIsDir := true |}) as [_ Hdir].
  - vm_compute. reflexivity.
  - destruct (Hdir eq_refl) as (entries & Hls & Hlen & _).
    exists entries. split; [exact Hls|]. rewrite Hlen. vm_compute. reflexivity.
Defined.

(** X11, witness: the information on "/a.txt" after the write that made
    [helloVolume]. *)
Lemma stat_after_write_witness :
  ∃ info, GetFileInfo (fun p => p) helloVolume "/a.txt" = Ok info
          ∧ InfoSize info = 5 ∧ InfoModTime info = 101.
Proof.
  destruct (stat_after_write plainMetadataSum plainIndexSum plainMarshal
              plainUnmarshal (fun p => p) 4 101 (freshVolume 100) "/a.txt" hello
              helloVolume)
    as (target & info & _ & Hinfo & _ & Hsize & Htime & _).
  - exact plainCodec_roundTrip.
  - apply addressable_fresh.
  - apply namesOk_fresh.
  - vm_compute. reflexivity.
  - exists info. split; [exact Hinfo|]. split; [exact Hsize|exact Htime].
Defined.

(** X12, witness: the bitmap of 16 blocks, saved and loaded. *)
Lemma bitmap_file_round_trip_witness :
  loadBitmap (bitmapImage scatteredBitmap)
  = Some {| data := [237; 223]; totalBlocks := 16; searchPos := 0; dirty := false |}.
Proof.
  destruct (bitmap_file_round_trip scatteredBitmap) as (Hload & _).
  - simpl. lia.
  - exact Hload.
Defined.

(** X15, witness: the counts of [helloVolume]. *)
Lemma stats_count_blocks_witness :
  ∃ stats, GetStats helloVolume = Ok stats
           ∧ stat_used_blocks stats + stat_free_blocks stats = stat_total_blocks stats.
Proof.
  destruct (stats_count_blocks helloVolume) as [_ Hstats].
  - replace (totalBlocks (bitmap helloVolume)) with 8192 by (vm_compute; reflexivity).
    lia.
  - destruct Hstats as (stats & Hget & _ & Hsum & _).
    + change (blockSize helloVolume) with 4096. lia.
    + exists stats. split; [exact Hget|exact Hsum].
Defined.

(** X16, witness: three blocks of a fresh volume, taken and given back. *)
Lemma allocate_then_free_witness :
  isBlockFree (freeBlocks (snd (allocateBlocks (bitmap (freshVolume 0)) 3)) [1; 2; 3]) 1
  = isBlockFree (bitmap (freshVolume 0)) 1.
Proof.
  destruct (allocate_then_free (bitmap (freshVolume 0)) 3 [1; 2; 3]
              (snd (allocateBlocks (bitmap (freshVolume 0)) 3))) as [_ Hfree].
  - change (totalBlocks (bitmap (freshVolume 0))) with 8192. lia.
  - lia.
  - vm_compute. reflexivity.
  - apply Hfree. lia.
Defined.

(** X17, witness: a request on the bitmap without a free block. *)
Lemma failed_allocation_changes_nothing_witness :
  isBlockFree fullBitmap 100 = false.
Proof.
  destruct (failed_allocation_changes_nothing fullBitmap 1 ErrNoFreeBlocks fullBitmap)
    as (_ & _ & _ & Hfull).
  - simpl. lia.
  - vm_compute. reflexivity.
  - apply Hfull; [reflexivity|simpl; lia|simpl; lia].
Defined.

(** X18, witness: the three free positions of [scatteredBitmap]. *)
Lemma allocation_succeeds_when_room_witness :
  ∃ ids bm', allocateBlocks scatteredBitmap 3 = (Ok ids, bm').
Proof.
  apply (allocation_succeeds_when_room scatteredBitmap 3 [1; 4; 13]).
  - simpl. lia.
  - simpl. lia.
  - lia.
  - repeat (apply NoDup_cons_2; [rewrite ?elem_of_cons, elem_of_nil; lia|]).
    apply NoDup_nil_2.
  - reflexivity.
  - intros p Hp. simpl.
    repeat (apply elem_of_cons in Hp as [->|Hp]; [split; [lia|reflexivity]|]).
    by apply elem_of_nil in Hp.
Defined.

(** X19, witness: down from "/a" to "b" and up again. *)
Lemma resolve_down_and_up_witness :
  resolvePath "/a" "b" = "/a/b" ∧ resolvePath "/a/b" ".." = "/a".
Proof.
  destruct (resolve_down_and_up ["a"] "b") as (Hdown & Hup & _).
  - constructor; [by vm_compute|constructor].
  - constructor; [discriminate|constructor].
  - by vm_compute.
  - discriminate.
  - discriminate.
  - discriminate.
  - split; [exact Hdown|exact Hup].
Defined.

(** X20, witness: "cd a.txt" at the root of [helloVolume]. *)
Lemma cd_keeps_the_current_path_witness :
  hasSlashPrefix (cmdCd helloVolume "/" "a.txt") = true.
Proof.
  destruct (cd_keeps_the_current_path helloVolume "/" "a.txt") as [Hprefix _].
  - reflexivity.
  - exact Hprefix.
Defined.

(** X22, witness: 4093 bytes on a fresh volume with 4096-byte blocks. *)
Lemma large_payload_is_refused_witness :
  ∃ e st', writeFile 4 1 (freshVolume 0) "/f" (replicate 4093 7) = (Err e, st')
           ∧ root st' = root (freshVolume 0).
Proof.
  destruct (large_payload_is_refused plainMetadataSum plainIndexSum plainMarshal
              plainUnmarshal 4 1 (freshVolume 0) "/f" (replicate 4093 7))
    as (e & st' & Hw & Hroot & _).
  - apply addressable_fresh.
  - apply namesOk_fresh.
  - intros Hnil. apply (f_equal length) in Hnil. rewrite length_replicate in Hnil.
    discriminate Hnil.
  - rewrite length_replicate. change (blockSize (freshVolume 0)) with 4096. lia.
  - exists e, st'. split; [exact Hw|exact Hroot].
Defined.

Lemma sound_hello : sound plainMetadataSum plainIndexSum plainUnmarshal helloVolume.
Proof.
  apply (sound_WriteFile plainMetadataSum plainIndexSum plainMarshal plainUnmarshal
           4 101 (freshVolume 100) "/a.txt" hello).
  - exact plainCodec_roundTrip.
  - apply sound_fresh.
  - lia.
Qed.

(** X23, witness: [helloVolume], one write away from a fresh volume, is
    sound. *)
Lemma volumes_stay_sound_witness :
  sound plainMetadataSum plainIndexSum plainUnmarshal helloVolume.
Proof.
  destruct (volumes_stay_sound plainMetadataSum plainIndexSum plainMarshal
              plainUnmarshal) as [Hfresh Hstep].
  - exact plainCodec_roundTrip.
  - destruct (Hstep (freshVolume 100) (Hfresh 100)) as (Hwrite & _).
    destruct (Hwrite 4%nat 101 "/a.txt" hello) as [Hsound _]; [lia|exact Hsound].
Defined.

(** X24, witness: "/a.txt" of [helloVolume] after "/b.txt" was written. *)
Lemma other_paths_read_the_same_witness :
  readFile 2 (snd (writeFile 4 102 helloVolume "/b.txt" hello)) "/a.txt"
  = readFile 2 helloVolume "/a.txt".
Proof.
  destruct (other_paths_read_the_same plainMetadataSum plainIndexSum plainMarshal
              plainUnmarshal 4 102 helloVolume "/b.txt" hello "/a.txt") as [Hw _].
  - exact plainCodec_roundTrip.
  - exact sound_hello.
  - lia.
  - vm_compute. discriminate.
  - exact (Hw 2%nat).
Defined.

(** X25, witness: "/a.txt" of [helloVolume]. *)
Lemma files_of_a_sound_volume_are_read_witness :
  ∃ content, readFile 2 helloVolume "/a.txt" = Ok content
             ∧ Z.of_nat (length content) <= blockSize helloVolume - 4.
Proof.
  destruct (files_of_a_sound_volume_are_read plainMetadataSum plainIndexSum
              plainUnmarshal helloVolume "/a.txt" helloTarget helloEntry 2)
    as (content & Hread & Hlen & _).
  - exact sound_hello.
  - apply hello_resolves.
  - reflexivity.
  - reflexivity.
  - lia.
  - exists content. split; [exact Hread|exact Hlen].
Defined.

(** X26, witness: "/a.txt" of [helloVolume] copied to "/b.txt". *)
Lemma copy_file_copies_witness :
  ∃ payload,
    readFile 4 helloVolume "/a.txt" = Ok payload
    ∧ readFile 2
        (snd (CopyFile plainMetadataSum plainIndexSum plainMarshal plainUnmarshal
                4 102 helloVolume "/a.txt" "/b.txt")) "/b.txt" = Ok payload.
Proof.
  destruct (copy_file_copies plainMetadataSum plainIndexSum plainMarshal plainUnmarshal
              4 102 helloVolume "/a.txt" "/b.txt"
              (snd (CopyFile plainMetadataSum plainIndexSum plainMarshal plainUnmarshal
                      4 102 helloVolume "/a.txt" "/b.txt")))
    as (payload & Hsrc & Hdst & _).
  - exact plainCodec_roundTrip.
  - exact sound_hello.
  - lia.
  - vm_compute. reflexivity.
  - exists payload. split; [exact Hsrc|]. apply Hdst. lia.
Defined.

(** X27, witness: "/a.txt" of [helloVolume] moved to "/b.txt". *)
Lemma move_file_moves_witness :
  ∃ payload,
    readFile 4 helloVolume "/a.txt" = Ok payload
    ∧ readFile 2
        (snd (MoveFile plainMetadataSum plainIndexSum plainMarshal plainUnmarshal
                4 102 helloVolume "/a.txt" "/b.txt")) "/b.txt" = Ok payload
    ∧ readFile 2
        (snd (MoveFile plainMetadataSum plainIndexSum plainMarshal plainUnmarshal
                4 102 helloVolume "/a.txt" "/b.txt")) "/a.txt" = Err ErrFileNotFound.
Proof.
  destruct (move_file_moves plainMetadataSum plainIndexSum plainMarshal plainUnmarshal
              4 102 helloVolume "/a.txt" "/b.txt"
              (snd (MoveFile plainMetadataSum plainIndexSum plainMarshal plainUnmarshal
                      4 102 helloVolume "/a.txt" "/b.txt")))
    as (payload & Hsrc & Hdst & Hgone & _).
  - exact plainCodec_roundTrip.
  - exact sound_hello.
  - lia.
  - vm_compute. discriminate.
  - vm_compute. reflexivity.
  - exists payload. split; [exact Hsrc|]. split; [apply Hdst; lia|exact (Hgone 2%nat)].
Defined.

(** X28, witness: the check on [helloVolume]. *)
Lemma built_volumes_pass_the_check_witness :
  VerifyIntegrity plainMetadataSum plainIndexSum plainUnmarshal 2 helloVolume = Ok tt.
Proof.
  apply (built_volumes_pass_the_check plainMetadataSum plainIndexSum plainMarshal
           plainUnmarshal helloVolume 2).
  - exact plainCodec_roundTrip.
  - apply (built_WriteFile plainMetadataSum plainIndexSum plainMarshal plainUnmarshal
             4 101 (freshVolume 100) "/a.txt" hello); [lia|].
    apply built_fresh.
  - lia.
Defined.

Lemma built_hello : built plainMetadataSum plainIndexSum plainMarshal plainUnmarshal helloVolume.
Proof.
  apply (built_WriteFile plainMetadataSum plainIndexSum plainMarshal plainUnmarshal
           4 101 (freshVolume 100) "/a.txt" hello); [lia|]. apply built_fresh.
Qed.

(** X29, witness: [helloVolume] closed and opened again. *)
Lemma reopened_volume_is_the_same_witness :
  ∃ st',
    loadFileSystem helloHeaderLoad
      (rootImage helloHeaderImage (Close plainMetadataSum helloVolume))
      (bitmapImage (bitmap (Close plainMetadataSum helloVolume)))
      (blocksFile (Close plainMetadataSum helloVolume)) = Some st'
    ∧ readFile 2 st' "/a.txt" = readFile 2 helloVolume "/a.txt".
Proof.
  destruct (reopened_volume_is_the_same plainMetadataSum plainIndexSum plainMarshal
              plainUnmarshal helloHeaderImage helloHeaderLoad helloVolume
              plainCodec_roundTrip built_hello eq_refl)
    as (st' & Hload & _ & _ & _ & _ & _ & _ & Hread & _).
  exists st'. split; [exact Hload|exact (Hread 2%nat "/a.txt")].
Defined.

